(** * Training, saving and loading a feed-forward classifier

    A shallow embedding of the notebooks "Part 3 - Training Neural Networks"
    and "Part 6 - Saving and Loading Models".  The notebooks are scripts
    over PyTorch: tensors are modelled by their shape and their flat
    contents, Python exceptions by an error type, the file system by a
    finite map from paths to pickled values, and the framework calls made by
    the training code by an explicit state with a log of the calls. *)

From Stdlib Require Import ZArith QArith Lia Ascii.
From stdpp Require Import base tactics option list strings pretty gmap.

Local Open Scope nat_scope.

#[local] Set Warnings "-register-all".

(** ** Tensors *)

(** A tensor is a shape and its elements in row-major order.  Elements are
    kept as integers standing for the stored bit patterns: parameters are
    only stored, copied and compared here, never computed with.  A tensor
    has no element type of its own here: the parameters are all of the
    element type that the framework gives to a fresh network, 32-bit
    floats, and a copy between two of them converts nothing. *)
Record Tensor := mkTensor { shape : list nat; data : list Z }.

Definition numel (s : list nat) : nat := foldr Nat.mul 1 s.

(** ** Exceptions and results *)

Inductive exn :=
| KeyError (key : string)
| TypeError
| IndexError
| ZeroDivisionError
| StopIteration
| ValueError
| FileNotFoundError (path : string)
| NegativeDimension
| ShapeError
| FeatureMismatch (got expected : nat)
| BatchSizeMismatch (input_batch target_batch : nat)
| LoadStateDictError (unexpected missing : list string)
    (size_mismatch : list (string * list nat * list nat)).

Inductive result (A : Type) :=
| Ok (a : A)
| Raise (e : exn).
Arguments Ok {A} a.
Arguments Raise {A} e.

#[export] Instance result_ret : MRet result := @Ok.
#[export] Instance result_bind : MBind result := λ A B f r,
  match r with Ok a => f a | Raise e => Raise e end.

Definition is_ok {A} (r : result A) : Prop :=
  match r with Ok _ => True | Raise _ => False end.

(** ** Linear layers and the network of [fc_model] *)

Record Linear := mkLinear {
  in_features : nat;
  out_features : nat;
  weight : Tensor;
  bias : Tensor
}.

(** Modelled from the spec: the objects of the class [fc_model.Network],
    whose file is not part of the notebooks, with the modules the notebook
    prints for them: the list [hidden_layers], the layer [output] and a
    dropout of probability [dropout_p]. *)
Record Network := mkNetwork {
  hidden_layers : list Linear;
  output : Linear;
  dropout_p : Q
}.

(** An [OrderedDict] from parameter names to tensors. *)
Abbreviation StateDict := (list (string * Tensor)).

Definition keys {V} (d : list (string * V)) : list string := d.*1.

Fixpoint odict_get {V} (key : string) (d : list (string * V)) : option V :=
  match d with
  | [] => None
  | (k, v) :: d' => if decide (k = key) then Some v else odict_get key d'
  end.

Definition linear_state_dict (prefix : string) (l : Linear) : StateDict :=
  [(prefix +:+ "weight", weight l); (prefix +:+ "bias", bias l)].

Definition hidden_prefix (i : nat) : string :=
  "hidden_layers." +:+ pretty i +:+ ".".

Fixpoint hidden_state_dict (i : nat) (ls : list Linear) : StateDict :=
  match ls with
  | [] => []
  | l :: ls' => linear_state_dict (hidden_prefix i) l ++ hidden_state_dict (S i) ls'
  end.

(** [model.state_dict()]: the parameters of the registered sub-modules in
    registration order ([hidden_layers], [output], [dropout]); a dropout
    module has no parameter. *)
Definition state_dict (m : Network) : StateDict :=
  hidden_state_dict 0 (hidden_layers m) ++ linear_state_dict "output." (output m).

Definition input_size (m : Network) : nat :=
  in_features (hd (output m) (hidden_layers m)).

Definition output_size (m : Network) : nat := out_features (output m).

Definition hidden_sizes (m : Network) : list nat := out_features <$> hidden_layers m.

(** Building the layers.  Fresh parameters get the values [init] chooses
    for their name and shape (the framework draws them at random). *)
Section Construction.
Variable init : string → list nat → list Z.

Definition new_parameter (key : string) (s : list nat) : Tensor :=
  mkTensor s (init key s).

(** [nn.Linear(n_in, n_out)], registered under the name [prefix]. *)
Definition new_linear (prefix : string) (n_in n_out : nat) : Linear :=
  mkLinear n_in n_out
    (new_parameter (prefix +:+ "weight") [n_out; n_in])
    (new_parameter (prefix +:+ "bias") [n_out]).

Fixpoint new_hidden (i prev : nat) (widths : list nat) : list Linear :=
  match widths with
  | [] => []
  | h :: widths' => new_linear (hidden_prefix i) prev h :: new_hidden (S i) h widths'
  end.

(** Modelled from the spec: the constructor of [fc_model.Network], whose
    file is not part of the notebooks.  The spec describes a configurable
    stack of linear transforms with a non-linearity and dropout and a final
    linear layer; the notebook prints the modules built as a list
    [hidden_layers] of [Linear] layers chained from the input size through
    the hidden widths, an [output] layer from the last width to the output
    size, and a [Dropout(p=0.5)]. *)
Definition Network_init (n_in n_out : nat) (widths : list nat) : Network :=
  mkNetwork (new_hidden 0 n_in widths)
            (new_linear "output." (default n_in (last widths)) n_out)
            (1 # 2).
End Construction.

(** ** [load_state_dict] *)

(** [param.copy_(input_param)], done only when the shapes agree.  Both
    tensors are of the default element type, so that the copy hands the
    elements over as they are; the conversion that the framework makes
    from another element type is outside this development. *)
Definition load_param (sd : StateDict) (key : string) (param : Tensor) : Tensor :=
  match odict_get key sd with
  | Some input_param =>
      if decide (shape input_param = shape param) then input_param else param
  | None => param
  end.

Definition load_linear (sd : StateDict) (prefix : string) (l : Linear) : Linear :=
  mkLinear (in_features l) (out_features l)
    (load_param sd (prefix +:+ "weight") (weight l))
    (load_param sd (prefix +:+ "bias") (bias l)).

Fixpoint load_hidden (sd : StateDict) (i : nat) (ls : list Linear) : list Linear :=
  match ls with
  | [] => []
  | l :: ls' => load_linear sd (hidden_prefix i) l :: load_hidden sd (S i) ls'
  end.

Definition size_mismatch_of (sd : StateDict) (entry : string * Tensor)
  : option (string * list nat * list nat) :=
  match odict_get entry.1 sd with
  | Some input_param =>
      if decide (shape input_param = shape entry.2) then None
      else Some (entry.1, shape input_param, shape entry.2)
  | None => None
  end.

Definition size_mismatches (m : Network) (sd : StateDict)
  : list (string * list nat * list nat) :=
  omap (size_mismatch_of sd) (state_dict m).

Definition missing_keys (m : Network) (sd : StateDict) : list string :=
  filter (λ k, odict_get k sd = None) (keys (state_dict m)).

(** The keys of the dict that name no parameter of the model, in the
    order of the dict.  On the state dict of a network, whose keys are
    parameter names of layers, this is the list that the framework
    reports.  The framework collects the keys module by module, which
    gives another order to keys of several modules, and passes over a key
    that extends the name of a parameter; dicts with such keys are outside
    this development. *)
Definition unexpected_keys (m : Network) (sd : StateDict) : list string :=
  filter (λ k, k ∉ keys (state_dict m)) (keys sd).

(** [model.load_state_dict(sd)] with the default [strict=True].  Every
    parameter of the model whose key is in [sd] with the same shape is
    overwritten in place; the call then raises if a key was unexpected or
    missing or a shape differed, and reports that all keys matched
    otherwise.  The model is returned in both cases, as the caller's object
    has been written to. *)
Definition load_state_dict (m : Network) (sd : StateDict) : Network * result unit :=
  let m' := mkNetwork (load_hidden sd 0 (hidden_layers m))
                      (load_linear sd "output." (output m))
                      (dropout_p m) in
  let unexpected := unexpected_keys m sd in
  let missing := missing_keys m sd in
  let errors := size_mismatches m sd in
  if decide (unexpected = [] ∧ missing = [] ∧ errors = [])
  then (m', Ok ())
  else (m', Raise (LoadStateDictError unexpected missing errors)).

(** ** Pickled values and the file system *)

Inductive PyVal :=
| VInt (z : Z)
| VIntList (l : list Z)
| VTensor (t : Tensor)
| VOrderedDict (sd : StateDict)
| VDict (d : gmap string PyVal).

(** The files, by their paths as written: two spellings of one path
    are two paths here. *)
Abbreviation FileSystem := (gmap string PyVal).

Definition torch_save (obj : PyVal) (path : string) (fs : FileSystem) : FileSystem :=
  <[path := obj]> fs.

Definition torch_load (path : string) (fs : FileSystem) : result PyVal :=
  match fs !! path with
  | Some obj => Ok obj
  | None => Raise (FileNotFoundError path)
  end.

(** [obj[key]] for a string key: the lookup of a mapping; a tensor takes
    no string as an index, and a number or a list has no such lookup. *)
Definition getitem (obj : PyVal) (key : string) : result PyVal :=
  match obj with
  | VDict d =>
      match d !! key with Some v => Ok v | None => Raise (KeyError key) end
  | VOrderedDict sd =>
      match odict_get key sd with Some t => Ok (VTensor t) | None => Raise (KeyError key) end
  | VTensor _ => Raise IndexError
  | _ => Raise TypeError
  end.

(** A dimension of a tensor cannot be negative. *)
Definition as_size (v : Z) : result nat :=
  if decide (0 ≤ v)%Z then Ok (Z.to_nat v) else Raise NegativeDimension.

(** Modelled from the spec: calling the class [fc_model.Network], whose
    file is not part of the notebooks, on Python values.  The sizes must be
    integers and the widths a list of integers; the output layer is built on
    the last hidden width, so there has to be one; and the linear layers are
    built by the framework, which refuses a negative dimension. *)
Definition Network_call (init : string → list nat → list Z)
    (n_in n_out widths : PyVal) : result Network :=
  match n_in, n_out, widths with
  | VInt i, VInt o, VIntList [] => Raise IndexError
  | VInt i, VInt o, VIntList hs =>
      i' ← as_size i;
      o' ← as_size o;
      hs' ← mapM as_size hs;
      mret (Network_init init i' o' hs')
  | _, _, _ => Raise TypeError
  end.

Definition as_tensor (v : PyVal) : result Tensor :=
  match v with
  | VTensor t => Ok t
  | _ => Raise TypeError
  end.

(** What [load_state_dict] takes for a state dict: an [OrderedDict] of
    tensors, or a plain dict of tensors, which is read in the order of its
    keys in the map. *)
Definition as_state_dict (v : PyVal) : result StateDict :=
  match v with
  | VOrderedDict sd => Ok sd
  | VDict d => mapM (λ kv, t ← as_tensor kv.2; mret (kv.1, t)) (map_to_list d)
  | _ => Raise TypeError
  end.

(** ** The cells of the saving and loading notebook *)

Module Part6.

(** [torch.save(model.state_dict(), 'checkpoint.pth')] *)
Definition save_state_dict (model : Network) (fs : FileSystem) : FileSystem :=
  torch_save (VOrderedDict (state_dict model)) "checkpoint.pth" fs.

(** The dictionary [checkpoint] built from the current [model]. *)
Definition checkpoint (model : Network) : gmap string PyVal :=
  {[ "input_size" := VInt 784;
     "output_size" := VInt 10;
     "hidden_layers" := VIntList ((λ each, Z.of_nat (out_features each)) <$> hidden_layers model);
     "state_dict" := VOrderedDict (state_dict model) ]}.

(** [torch.save(checkpoint, 'checkpoint.pth')] *)
Definition save_checkpoint (model : Network) (fs : FileSystem) : FileSystem :=
  torch_save (VDict (checkpoint model)) "checkpoint.pth" fs.

Definition load_checkpoint (init : string → list nat → list Z)
    (filepath : string) (fs : FileSystem) : result Network :=
  checkpoint ← torch_load filepath fs;
  n_in ← getitem checkpoint "input_size";
  n_out ← getitem checkpoint "output_size";
  widths ← getitem checkpoint "hidden_layers";
  model ← Network_call init n_in n_out widths;
  sd_val ← getitem checkpoint "state_dict";
  sd ← as_state_dict sd_val;
  let (model', r) := load_state_dict model sd in
  _ ← r;
  mret model'.

End Part6.


(** ** Layers and the shapes they accept *)

Inductive Layer :=
| LLinear (n_in n_out : nat)
| LReLU
| LDropout (p : Q).

(** A linear layer maps the last dimension [n_in] to [n_out] and rejects
    any other last dimension, and a tensor without dimensions; activations
    and dropout keep the shape. *)
Definition layer_forward (l : Layer) (s : list nat) : result (list nat) :=
  match l with
  | LLinear n_in n_out =>
      match last s with
      | Some d =>
          if decide (d = n_in) then Ok (removelast s ++ [n_out])
          else Raise (FeatureMismatch d n_in)
      | None => Raise ShapeError
      end
  | LReLU | LDropout _ => Ok s
  end.

Fixpoint forward_shape (layers : list Layer) (s : list nat) : result (list nat) :=
  match layers with
  | [] => Ok s
  | l :: layers' => s' ← layer_forward l s; forward_shape layers' s'
  end.

(** Modelled from the spec: the forward pass of [fc_model.Network], whose
    file is not part of the notebooks: every hidden linear transform is
    followed by the non-linearity and by dropout, and the final linear layer
    produces the class scores. *)
Definition forward_layers (m : Network) : list Layer :=
  flat_map (λ each, [LLinear (in_features each) (out_features each);
                     LReLU; LDropout (dropout_p m)]) (hidden_layers m)
  ++ [LLinear (in_features (output m)) (out_features (output m))].

(** ** The framework calls of a training step *)

(** What the training code asks of the framework, in the order asked.
    [EAccuracy] and [EValidation] stand for computing an accuracy and for
    a pass over a held-out loader. *)
Inductive event :=
| EResize (new_shape : list nat)
| EZeroGrad
| EForward (input_shape : list nat)
| ELoss (value : Q)
| EBackward
| EStep
| EAccuracy (value : Q)
| EValidation (test_loss accuracy : Q)
| EPrintWeights
| EPrintGradient
| EPrintLoss (epoch epochs : nat) (value : Q)
| EPrintValidation (epoch epochs : nat) (training_loss test_loss accuracy : Q).

Inductive call := CZeroGrad | CForward | CLoss | CBackward | CStep.

#[export] Instance call_eq_dec : EqDecision call.
Proof. solve_decision. Defined.

Definition call_of (ev : event) : option call :=
  match ev with
  | EZeroGrad => Some CZeroGrad
  | EForward _ => Some CForward
  | ELoss _ => Some CLoss
  | EBackward => Some CBackward
  | EStep => Some CStep
  | _ => None
  end.

Definition calls (log : list event) : list call := omap call_of log.

Definition loss_of (ev : event) : option Q :=
  match ev with ELoss v => Some v | _ => None end.

Definition printed_of (ev : event) : option Q :=
  match ev with EPrintLoss _ _ v => Some v | _ => None end.

Definition forwarded_of (ev : event) : option (list nat) :=
  match ev with EForward s => Some s | _ => None end.

Definition is_print (ev : event) : Prop := is_Some (printed_of ev).

Definition is_evaluation (ev : event) : Prop :=
  match ev with EAccuracy _ | EValidation _ _ => True | _ => False end.

#[export] Instance is_evaluation_dec ev : Decision (is_evaluation ev).
Proof. destruct ev; simpl; apply _. Defined.

(** A computation on the framework's state (parameters, gradients and
    optimizer state): it returns the new state, the calls it made and its
    result or the exception that stopped it. *)
Definition M (State A : Type) : Type := State → State * list event * result A.

#[export] Instance M_ret State : MRet (M State) := λ A a s, (s, [], Ok a).
#[export] Instance M_bind State : MBind (M State) := λ A B f c s,
  match c s with
  | (s1, log1, Ok a) =>
      match f a s1 with (s2, log2, r) => (s2, log1 ++ log2, r) end
  | (s1, log1, Raise e) => (s1, log1, Raise e)
  end.

Definition raise {State A} (e : exn) : M State A := λ s, (s, [], Raise e).
Definition emit {State} (ev : event) : M State unit := λ s, (s, [ev], Ok ()).
Definition lift {State A} (r : result A) : M State A := λ s, (s, [], r).

(** The scalar loss with the scores and labels its graph was built from. *)
Record Loss := mkLoss { item : Q; graph_output : Tensor; graph_labels : Tensor }.

Abbreviation Batch := (Tensor * Tensor)%type.

(** [images.size()[0]] *)
Definition size0 (t : Tensor) : result nat :=
  match shape t with
  | n :: _ => Ok n
  | [] => Raise IndexError
  end.

(** A loader yields batches whose images and labels agree on the batch
    dimension. *)
Definition batch_ok (b : Batch) : Prop :=
  ∃ n dims, shape b.1 = n :: dims ∧ shape b.2 = [n].

(** Labels that are class indices of the ten classes. *)
Definition class_indices (labels : Tensor) : Prop :=
  Forall (λ l, (0 ≤ l < 10)%Z) (data labels).

(** ** The framework *)

Section Framework.
Context {State : Type}.
(** The numbers the framework computes: the scores of a forward pass,
    the value of the criterion, and the effect on the state of clearing
    the gradients, of a backward pass and of an optimizer step. *)
Variable forward_values : State → Tensor → list Z.
Variable loss_value : Tensor → Tensor → Q.
Variable zero_grad_state : State → State.
Variable backward_state : State → Loss → State.
Variable step_state : State → State.
(** What is found in memory that [resize_] does not initialise. *)
Variable uninit : nat → Z.

(** [t.resize_(n, m)]: the tensor takes the new shape in place
    whatever its old shape; it keeps the elements it had, in order, as far
    as the new size goes, and its storage grows when the new size needs
    more.  The tensors resized here are those a loader yields, which own
    a storage that can grow. *)
Definition resize_ (t : Tensor) (new_shape : list nat) : M State Tensor :=
  let n := numel new_shape in
  let grown := uninit <$> seq (length (data t)) (n - length (data t)) in
  _ ← emit (EResize new_shape);
  mret (mkTensor new_shape (take n (data t ++ grown))).

(** [optimizer.zero_grad()] *)
Definition optimizer_zero_grad : M State unit :=
  λ s, (zero_grad_state s, [EZeroGrad], Ok ()).

(** [model.forward(images)] for a model made of [layers]. *)
Definition model_forward (layers : list Layer) (images : Tensor) : M State Tensor :=
  λ s, match forward_shape layers (shape images) with
       | Ok s_out => (s, [EForward (shape images)],
                      Ok (mkTensor s_out (forward_values s images)))
       | Raise e => (s, [], Raise e)
       end.

(** [criterion(output, labels)] for a classification loss: scores of
    shape [N x C] against [N] labels; other shapes are refused.  The
    labels are taken to be class indices of the scores, as the labels of
    the datasets are.  The framework also refuses a label that is not a
    class index; this is not modelled, and such labels are excluded by a
    hypothesis ([class_indices]) where a statement is about batches other
    than those of a loader. *)
Definition criterion (output labels : Tensor) : M State Loss :=
  match shape output, shape labels with
  | [n; _], [n'] =>
      if decide (n = n')
      then let l := mkLoss (loss_value output labels) output labels in
           _ ← emit (ELoss (item l)); mret l
      else raise (BatchSizeMismatch n n')
  | _, _ => raise ShapeError
  end.

(** [loss.backward()] *)
Definition loss_backward (loss : Loss) : M State unit :=
  λ s, (backward_state s loss, [EBackward], Ok ()).

(** [optimizer.step()] *)
Definition optimizer_step : M State unit :=
  λ s, (step_state s, [EStep], Ok ()).

(** [next(iter(trainloader))] on the batches of one pass. *)
Definition next_batch (batches : list Batch) : M State Batch :=
  match batches with
  | b :: _ => mret b
  | [] => raise StopIteration
  end.

(** [for batch in batches: acc = body(acc, batch)] *)
Fixpoint for_batches {A} (body : A → Batch → M State A)
    (batches : list Batch) (acc : A) : M State A :=
  match batches with
  | [] => mret acc
  | b :: batches' => acc' ← body acc b; for_batches body batches' acc'
  end.
End Framework.

(** ** The cells of the training notebook *)

Module Part3.

(** Hyperparameters for our network *)
Definition input_size : nat := 784.
Definition hidden_sizes : list nat := [128; 64].
Definition output_size : nat := 10.

(** [nn.Sequential(OrderedDict([...]))] *)
Definition model : list (string * Layer) :=
  [("fc1", LLinear input_size (hidden_sizes !!! 0));
   ("relu1", LReLU);
   ("fc2", LLinear (hidden_sizes !!! 0) (hidden_sizes !!! 1));
   ("relu2", LReLU);
   ("logits", LLinear (hidden_sizes !!! 1) output_size)].

Section Training.
Context {State : Type}.
Variable forward_values : State → Tensor → list Z.
Variable loss_value : Tensor → Tensor → Q.
Variable zero_grad_state : State → State.
Variable backward_state : State → Loss → State.
Variable step_state : State → State.
Variable uninit : nat → Z.

(** The cell that goes through one training step. *)
Definition single_step (batches : list Batch) : M State unit :=
  _ ← emit EPrintWeights;
  '(images, labels) ← next_batch batches;
  images ← resize_ uninit images [64; 784];
  _ ← optimizer_zero_grad zero_grad_state;
  output ← model_forward forward_values model.*2 images;
  loss ← criterion loss_value output labels;
  _ ← loss_backward backward_state loss;
  _ ← emit EPrintGradient;
  optimizer_step step_state.

(** The body of the inner loop of the training cell; [steps] and
    [running_loss] are threaded through. *)
Definition train_batch (e epochs print_every : nat)
    (acc : nat * Q) (batch : Batch) : M State (nat * Q) :=
  let '(steps, running_loss) := acc in
  let '(images, labels) := batch in
  let steps := steps + 1 in
  n ← lift (size0 images);
  images ← resize_ uninit images [n; 784];
  _ ← optimizer_zero_grad zero_grad_state;
  output ← model_forward forward_values model.*2 images;
  loss ← criterion loss_value output labels;
  _ ← loss_backward backward_state loss;
  _ ← optimizer_step step_state;
  let running_loss := (running_loss + item loss)%Q in
  if decide (print_every = 0) then raise ZeroDivisionError
  else if decide (steps mod print_every = 0) then
    _ ← emit (EPrintLoss (e + 1) epochs (running_loss / inject_Z (Z.of_nat print_every))%Q);
    mret (steps, 0%Q)
  else mret (steps, running_loss).

(** One iteration of [for e in range(epochs)]: [running_loss] starts
    again from zero, [steps] goes on. *)
Definition train_epoch (epochs print_every : nat) (steps e : nat)
    (batches : list Batch) : M State nat :=
  let running_loss := 0%Q in
  acc ← for_batches (train_batch e epochs print_every) batches (steps, running_loss);
  mret acc.1.

(** [trainloader e] are the batches of the pass made in epoch [e]. *)
Fixpoint train_epochs (epochs print_every : nat) (trainloader : nat → list Batch)
    (steps : nat) (es : list nat) : M State nat :=
  match es with
  | [] => mret steps
  | e :: es' =>
      steps' ← train_epoch epochs print_every steps e (trainloader e);
      train_epochs epochs print_every trainloader steps' es'
  end.

Definition training_loop (epochs print_every : nat)
    (trainloader : nat → list Batch) : M State nat :=
  let steps := 0 in
  train_epochs epochs print_every trainloader steps (seq 0 epochs).

(** The training cell: [epochs = 3], [print_every = 40]. *)
Definition training_cell (trainloader : nat → list Batch) : M State nat :=
  training_loop 3 40 trainloader.
End Training.

End Part3.

(** ** The training helper of [fc_model] *)

Module fc_model.

Section Train.
Context {State : Type}.
Variable forward_values : State → Tensor → list Z.
Variable loss_value : Tensor → Tensor → Q.
Variable zero_grad_state : State → State.
Variable backward_state : State → Loss → State.
Variable step_state : State → State.
Variable uninit : nat → Z.
(** The test loss and the accuracy that a pass over the held-out loader
    finds. *)
Variable validation_values : State → list Batch → Q * Q.

(** Modelled from the spec: the evaluation on the held-out set made by
    [fc_model.train], whose file is not part of the notebooks; the lines the
    call prints in the notebook show a test loss and a test accuracy. *)
Definition validation (testloader : list Batch) : M State (Q * Q) :=
  λ s, let r := validation_values s testloader in
       (s, [EValidation r.1 r.2], Ok r).

(** Modelled from the spec: the loop body of [fc_model.train], whose file
    is not part of the notebooks.  The spec has the loop take an
    automatic-differentiation pass and an optimizer step per batch, track
    the running loss, and evaluate loss and accuracy on the held-out set
    periodically; the lines printed in the notebook show, with the epoch,
    the training loss, the test loss and the test accuracy. *)
Definition train_batch (model : Network) (testloader : list Batch)
    (epochs print_every e : nat) (acc : nat * Q) (batch : Batch)
  : M State (nat * Q) :=
  let '(steps, running_loss) := acc in
  let '(images, labels) := batch in
  let steps := steps + 1 in
  n ← lift (size0 images);
  images ← resize_ uninit images [n; 784];
  _ ← optimizer_zero_grad zero_grad_state;
  output ← model_forward forward_values (forward_layers model) images;
  loss ← criterion loss_value output labels;
  _ ← loss_backward backward_state loss;
  _ ← optimizer_step step_state;
  let running_loss := (running_loss + item loss)%Q in
  if decide (print_every = 0) then raise ZeroDivisionError
  else if decide (steps mod print_every = 0) then
    '(test_loss, accuracy) ← validation testloader;
    _ ← emit (EPrintValidation (e + 1) epochs
                (running_loss / inject_Z (Z.of_nat print_every))%Q test_loss accuracy);
    mret (steps, 0%Q)
  else mret (steps, running_loss).

Fixpoint train_epochs (model : Network) (testloader : list Batch)
    (epochs print_every : nat) (trainloader : nat → list Batch)
    (acc : nat * Q) (es : list nat) : M State (nat * Q) :=
  match es with
  | [] => mret acc
  | e :: es' =>
      acc' ← for_batches (train_batch model testloader epochs print_every e)
               (trainloader e) acc;
      train_epochs model testloader epochs print_every trainloader acc' es'
  end.

(** Modelled from the spec: [fc_model.train(model, trainloader, testloader,
    criterion, optimizer, epochs)], whose file is not part of the notebooks;
    the period of the evaluations is the one of the lines printed in the
    notebook, 40 steps. *)
Definition train (model : Network) (trainloader : nat → list Batch)
    (testloader : list Batch) (epochs : nat) : M State (nat * Q) :=
  train_epochs model testloader epochs 40 trainloader (0, 0%Q) (seq 0 epochs).
End Train.

End fc_model.


(** ** Well-formed networks *)

Definition wf_linear (l : Linear) : Prop :=
  shape (weight l) = [out_features l; in_features l] ∧
  shape (bias l) = [out_features l].

(** Each layer reads what the previous one produces. *)
Fixpoint chained (prev : nat) (ls : list Linear) : Prop :=
  match ls with
  | [] => True
  | l :: ls' => in_features l = prev ∧ wf_linear l ∧ chained (out_features l) ls'
  end.

(** A network as the class builds it and training leaves it: at least one
    hidden layer, parameters of the shapes of their layers, layers chained
    from the input to the output. *)
Definition wf_network (m : Network) : Prop :=
  hidden_layers m ≠ [] ∧ chained (input_size m) (hidden_layers m ++ [output m]).

(** The keys and the shapes of the parameters of an architecture. *)
Definition linear_shapes (prefix : string) (n_in n_out : nat) : list (string * list nat) :=
  [(prefix +:+ "weight", [n_out; n_in]); (prefix +:+ "bias", [n_out])].

Fixpoint hidden_shapes (i prev : nat) (widths : list nat) : list (string * list nat) :=
  match widths with
  | [] => []
  | h :: widths' => linear_shapes (hidden_prefix i) prev h ++ hidden_shapes (S i) h widths'
  end.

Definition arch_shapes (n_in n_out : nat) (widths : list nat) : list (string * list nat) :=
  hidden_shapes 0 n_in widths ++ linear_shapes "output." (default n_in (last widths)) n_out.

Definition param_shapes (sd : StateDict) : list (string * list nat) :=
  prod_map id shape <$> sd.

(** The entry a parameter has in the state dict once [sd] has been loaded. *)
Definition load_entry (sd : StateDict) (entry : string * Tensor) : string * Tensor :=
  (entry.1, load_param sd entry.1 entry.2).

(** Strings without a dot, as the decimal numbers in parameter names. *)
Fixpoint dotless (s : string) : Prop :=
  match s with
  | EmptyString => True
  | String c s' => c ≠ "."%char ∧ dotless s'
  end.

Definition is_dropout (l : Layer) : Prop :=
  match l with LDropout _ => True | _ => False end.

#[export] Instance is_dropout_dec l : Decision (is_dropout l).
Proof. destruct l; simpl; apply _. Defined.

(** ** Checkpoint files *)

Definition checkpoint_keys : list string :=
  ["input_size"; "output_size"; "hidden_layers"; "state_dict"].

Definition is_mapping (obj : PyVal) : Prop :=
  match obj with VDict _ | VOrderedDict _ => True | _ => False end.

Definition missing (obj : PyVal) (key : string) : Prop :=
  getitem obj key = Raise (KeyError key).

(** The architecture entries of the file, if it has the three of them,
    are ones the network can be built from. *)
Definition buildable (init : string → list nat → list Z) (obj : PyVal) : Prop :=
  ∀ n_in n_out widths,
    getitem obj "input_size" = Ok n_in →
    getitem obj "output_size" = Ok n_out →
    getitem obj "hidden_layers" = Ok widths →
    is_ok (Network_call init n_in n_out widths).

(** ** The log of a training run *)

Definition batch_size (b : Batch) : nat := hd 0 (shape b.1).

(** The calls of one training step. *)
Definition batch_calls : list call := [CZeroGrad; CForward; CLoss; CBackward; CStep].

(** What the loop body logs for a batch of [n] images whose loss is [v],
    before it considers printing. *)
Definition batch_events (n : nat) (v : Q) : list event :=
  [EResize [n; 784]; EZeroGrad; EForward [n; 784]; ELoss v; EBackward; EStep].

(** The log of the inner loop over batches given by their sizes and loss
    values, from the counters [steps] and [running_loss]. *)
Fixpoint epoch_log (epochs print_every e steps : nat) (running_loss : Q)
    (batches : list (nat * Q)) : list event :=
  match batches with
  | [] => []
  | (n, v) :: rest =>
      batch_events n v ++
      if decide ((steps + 1) mod print_every = 0)
      then EPrintLoss (e + 1) epochs
             ((running_loss + v) / inject_Z (Z.of_nat print_every))%Q
           :: epoch_log epochs print_every e (steps + 1) 0%Q rest
      else epoch_log epochs print_every e (steps + 1) (running_loss + v)%Q rest
  end.

(** The log of several epochs, given the sizes and losses of the batches
    of each. *)
Fixpoint loop_log (epochs print_every steps : nat) (es : list nat)
    (batches : list (list (nat * Q))) : list event :=
  match es, batches with
  | e :: es', d :: batches' =>
      epoch_log epochs print_every e steps 0%Q d
      ++ loop_log epochs print_every (steps + length d) es' batches'
  | _, _ => []
  end.

(** The number of batches of the epochs before [e]. *)
Definition steps_before {A} (trainloader : nat → list A) (e : nat) : nat :=
  sum_list ((λ e', length (trainloader e')) <$> seq 0 e).

Definition sumQ (l : list Q) : Q := foldl Qplus 0%Q l.

Definition has_print (log : list event) : Prop := Exists is_print log.
Definition has_evaluation (log : list event) : Prop := Exists is_evaluation log.

(** The number of evaluations in a log. *)
Definition evaluations (log : list event) : nat := length (filter is_evaluation log).

(** The events of training proper. *)
Definition training_event (ev : event) : Prop := ¬ is_evaluation ev.

(** A computation that logs only events satisfying [P]. *)
Definition emits_only {State A} (P : event → Prop) (c : M State A) : Prop :=
  ∀ s, Forall P (c s).1.2.

(** ** Values for the examples *)

(** Fresh parameters filled with zeros. *)
Definition zeros (key : string) (s : list nat) : list Z := replicate (numel s) 0%Z.

(** A loader whose every pass yields [count] batches of [n] images of
    shape [dims], filled with zeros. *)
Definition demo_batch (n : nat) (dims : list nat) : Batch :=
  (mkTensor (n :: dims) (replicate (numel (n :: dims)) 0%Z), mkTensor [n] (replicate n 0%Z)).

Definition demo_loader (count n : nat) (dims : list nat) (e : nat) : list Batch :=
  replicate count (demo_batch n dims).

(** A framework with a state that holds nothing, scores that are not
    computed, and a loss of one for every batch. *)
Definition demo_forward (s : unit) (images : Tensor) : list Z := [].
Definition demo_loss (output labels : Tensor) : Q := 1%Q.
Definition demo_backward (s : unit) (loss : Loss) : unit := s.
Definition demo_uninit (i : nat) : Z := 0%Z.
Definition demo_validation (s : unit) (testloader : list Batch) : Q * Q := (1%Q, 1%Q).

(** * The other cells of the notebooks *)

(** ** What a training step computes *)

Section StepValues.
Context {State : Type}.
Variable forward_values : State → Tensor → list Z.
Variable loss_value : Tensor → Tensor → Q.
Variable zero_grad_state : State → State.
Variable backward_state : State → Loss → State.
Variable step_state : State → State.
Variable uninit : nat → Z.

(** The tensor that [t.resize_(...)] leaves. *)
Definition resized (t : Tensor) (new_shape : list nat) : Tensor :=
  let n := numel new_shape in
  mkTensor new_shape
    (take n (data t ++ (uninit <$> seq (length (data t)) (n - length (data t))))).

(** The loss that the body of the training loop computes for a batch when
    it starts in the state [s]: the gradients are cleared first, and the
    scores are those of the images resized to rows of 784 elements. *)
Definition batch_loss (s : State) (b : Batch) : Loss :=
  let output := mkTensor [batch_size b; 10]
                  (forward_values (zero_grad_state s)
                     (resized b.1 [batch_size b; 784])) in
  mkLoss (loss_value output b.2) output b.2.

(** The state that the body of the training loop leaves. *)
Definition batch_update (s : State) (b : Batch) : State :=
  step_state (backward_state (zero_grad_state s) (batch_loss s b)).

(** The loss values of successive batches. *)
Fixpoint batch_losses (s : State) (bs : list Batch) : list Q :=
  match bs with
  | [] => []
  | b :: bs' => item (batch_loss s b) :: batch_losses (batch_update s b) bs'
  end.
End StepValues.

(** ** Reading the log of an epoch *)

(** The values printed, each with the losses computed since the print
    before it, or since the start of the log for the first one; [window]
    holds the losses seen so far since then. *)
Fixpoint print_windows (window : list Q) (log : list event) : list (Q * list Q) :=
  match log with
  | [] => []
  | ELoss v :: log' => print_windows (window ++ [v]) log'
  | EPrintLoss _ _ p :: log' => (p, window) :: print_windows [] log'
  | _ :: log' => print_windows window log'
  end.

(** The epoch numbers that the printed lines show. *)
Definition label_of (ev : event) : option (nat * nat) :=
  match ev with EPrintLoss e epochs _ => Some (e, epochs) | _ => None end.

(** All the batches of a run, in the order they are trained on. *)
Definition all_batches (trainloader : nat → list Batch) (epochs : nat) : list Batch :=
  mjoin (trainloader <$> seq 0 epochs).

(** ** The cells of the saving and loading notebook, run in a session *)

(** Fresh parameters filled with ones. *)
Definition ones (key : string) (s : list nat) : list Z := replicate (numel s) 1%Z.

Module Part6Cells.

(** What the cells share: the object that the variable [model] names, the
    value of the variable [state_dict], and the files. *)
Record Session := mkSession {
  model_var : Network;
  state_dict_var : PyVal;
  files : FileSystem
}.

Definition read {A} (f : Session → A) : M Session A := λ g, (g, [], Ok (f g)).

Definition assign_model (m : Network) : M Session unit :=
  λ g, (mkSession m (state_dict_var g) (files g), [], Ok ()).

Definition assign_state_dict (v : PyVal) : M Session unit :=
  λ g, (mkSession (model_var g) v (files g), [], Ok ()).

Definition write_files (fs : FileSystem) : M Session unit :=
  λ g, (mkSession (model_var g) (state_dict_var g) fs, [], Ok ()).

(** [model.load_state_dict(sd)] on the object that [model] names, which is
    written to also when the call raises. *)
Definition load_into_model (sd : StateDict) : M Session unit :=
  λ g, let (m', r) := load_state_dict (model_var g) sd in
       (mkSession m' (state_dict_var g) (files g), [], r).

Definition model_load_state_dict (sd_val : PyVal) : M Session unit :=
  sd ← lift (as_state_dict sd_val);
  load_into_model sd.

(** In [7]: [torch.save(model.state_dict(), 'checkpoint.pth')] *)
Definition cell_save_state_dict : M Session unit :=
  model ← read model_var;
  fs ← read files;
  write_files (Part6.save_state_dict model fs).

(** In [8]: [state_dict = torch.load('checkpoint.pth')]; the keys of the
    value loaded are then printed, which changes nothing. *)
Definition cell_load_file : M Session unit :=
  fs ← read files;
  state_dict ← lift (torch_load "checkpoint.pth" fs);
  assign_state_dict state_dict.

(** In [9]: [model.load_state_dict(state_dict)] *)
Definition cell_load_state_dict : M Session unit :=
  state_dict ← read state_dict_var;
  model_load_state_dict state_dict.

(** In [10]: [model = fc_model.Network(784, 10, [400, 200, 100])], then
    [model.load_state_dict(state_dict)]. *)
Definition cell_try_this (init : string → list nat → list Z) : M Session unit :=
  model ← lift (Network_call init (VInt 784) (VInt 10) (VIntList [400; 200; 100]%Z));
  _ ← assign_model model;
  state_dict ← read state_dict_var;
  model_load_state_dict state_dict.

(** In [11]: the dictionary [checkpoint] is built from [model] and saved. *)
Definition cell_save_checkpoint : M Session unit :=
  model ← read model_var;
  fs ← read files;
  write_files (Part6.save_checkpoint model fs).

(** In [13]: [model = load_checkpoint('checkpoint.pth')] *)
Definition cell_load_checkpoint (init : string → list nat → list Z) : M Session unit :=
  fs ← read files;
  model ← lift (Part6.load_checkpoint init "checkpoint.pth" fs);
  assign_model model.

(** Cells run one after the other.  A cell leaves the session as it is
    when the cell ends, by its last statement or by an exception, and the
    next cell runs from there; the outcomes of the cells are collected. *)
Fixpoint run_cells (cells : list (M Session unit)) (g : Session)
  : Session * list (result unit) :=
  match cells with
  | [] => (g, [])
  | cell :: cells' =>
      let g1 := (cell g).1.1 in
      ((run_cells cells' g1).1, (cell g).2 :: (run_cells cells' g1).2)
  end.

(** The cells In [7] to In [13] in the order of their execution counts.
    The networks built in In [10] and in In [13] draw their own fresh
    parameters. *)
Definition cells_7_to_13 (init10 init13 : string → list nat → list Z)
  : list (M Session unit) :=
  [cell_save_state_dict; cell_load_file; cell_load_state_dict;
   cell_try_this init10; cell_save_checkpoint; cell_load_checkpoint init13].

End Part6Cells.

(** ** The prediction cell of the training notebook *)

(** [t[0]]: the first slice along the first dimension. *)
Definition select0 (t : Tensor) : result Tensor :=
  match shape t with
  | [] => Raise IndexError
  | n :: dims =>
      if decide (n = 0) then Raise IndexError
      else Ok (mkTensor dims (take (numel dims) (data t)))
  end.

(** [t.view(...)]: the same elements under a new shape, which has to have
    as many elements as the old one. *)
Definition view (t : Tensor) (new_shape : list nat) : result Tensor :=
  if decide (numel new_shape = numel (shape t)) then Ok (mkTensor new_shape (data t))
  else Raise ShapeError.

Module Part3Cells.
Section Prediction.
Context {State : Type}.
Variable forward_values : State → Tensor → list Z.
(** The numbers that the softmax computes. *)
Variable softmax_values : Tensor → list Z.

(** [F.softmax(t, dim=dim)] keeps the shape; [dim] has to be one of the
    dimensions of [t]. *)
Definition softmax (t : Tensor) (dim : nat) : result Tensor :=
  if decide (dim < length (shape t)) then Ok (mkTensor (shape t) (softmax_values t))
  else Raise IndexError.

(** The cell that checks the predictions of the trained network; it ends
    by handing [img.view(1, 28, 28)] and [ps] to [helper.view_classify],
    which draws them: the cell is taken to return these two. *)
Definition prediction_cell (batches : list Batch) : M State (Tensor * Tensor) :=
  '(images, labels) ← next_batch batches;
  first ← lift (select0 images);
  img ← lift (view first [1; 784]);
  logits ← model_forward forward_values Part3.model.*2 img;
  ps ← lift (softmax logits 1);
  shown ← lift (view img [1; 28; 28]);
  mret (shown, ps).
End Prediction.
End Part3Cells.

(** ** The data loader *)

Module DataLoader.

(** A sample of the dataset: the image, transformed, and its label. *)
Abbreviation Sample := (Tensor * Z)%type.

(** The batches of indices, as the batch sampler forms them from the
    indices that the sampler yields: an index is appended to the current
    batch, which is yielded when it holds [batch_size] indices; what is
    left at the end is yielded too when it is not empty ([drop_last] is
    false by default). *)
Fixpoint batch_sampler (batch_size : nat) (batch : list nat) (sampler : list nat)
  : list (list nat) :=
  match sampler with
  | [] => if decide (0 < length batch) then [batch] else []
  | idx :: sampler' =>
      let batch := batch ++ [idx] in
      if decide (length batch = batch_size)
      then batch :: batch_sampler batch_size [] sampler'
      else batch_sampler batch_size batch sampler'
  end.

(** [torch.stack]: the tensors, all of one shape, along a new first
    dimension. *)
Definition stack (ts : list Tensor) : result Tensor :=
  match ts with
  | [] => Raise ShapeError
  | t :: _ =>
      if decide (Forall (λ t', shape t' = shape t) ts)
      then Ok (mkTensor (length ts :: shape t) (mjoin (data <$> ts)))
      else Raise ShapeError
  end.

(** The default collate function on samples made of an image and an
    integer label. *)
Definition default_collate (samples : list Sample) : result Batch :=
  images ← stack samples.*1;
  mret (images, mkTensor [length samples] samples.*2).

(** [dataset[idx]] *)
Definition dataset_getitem (dataset : list Sample) (idx : nat) : result Sample :=
  match dataset !! idx with
  | Some sample => Ok sample
  | None => Raise IndexError
  end.

Definition fetch (dataset : list Sample) (indices : list nat) : result Batch :=
  samples ← mapM (dataset_getitem dataset) indices;
  default_collate samples.

(** [DataLoader(dataset, batch_size=batch_size, shuffle=True)].  Building
    the loader raises [ValueError] when the dataset is empty, the sampler
    of a shuffled loader needing samples to draw from, and when the batch
    size is not positive. *)
Record Loader := mkLoader {
  loader_dataset : list Sample;
  loader_batch_size : nat
}.

Definition new (dataset : list Sample) (batch_size : nat) : result Loader :=
  match dataset, batch_size with
  | [], _ => Raise ValueError
  | _, 0 => Raise ValueError
  | _, _ => Ok (mkLoader dataset batch_size)
  end.

(** One pass over a loader, where [order] is the order of the indices
    that the sampler has drawn for the pass: what each step of the
    iteration yields or raises. *)
Definition iter (loader : Loader) (order : list nat) : list (result Batch) :=
  fetch (loader_dataset loader) <$> batch_sampler (loader_batch_size loader) [] order.

(** The batch that the collate function makes of a group of samples. *)
Definition collated (dims : list nat) (group : list Sample) : Batch :=
  (mkTensor (length group :: dims) (mjoin (data <$> group.*1)),
   mkTensor [length group] group.*2).

End DataLoader.

(** A sample to stand for what a dataset does not hold. *)
Definition no_sample : DataLoader.Sample := (mkTensor [] [], 0%Z).

(** The number of batches of a pass over [n] samples. *)
Definition batches_of (n batch_size : nat) : nat :=
  n / batch_size + (if decide (n mod batch_size = 0) then 0 else 1).

(** ** The optimizer of the training notebook *)

Module SGD.

(** The state that training works on: the parameters, as real numbers,
    and the gradients accumulated for them, if a backward pass has been
    made. *)
Record OptState := mkOptState { params : list Q; grads : option (list Q) }.

Section SGD.
(** [lr] *)
Variable lr : Q.
(** The gradient of a loss with respect to the parameters, as the
    backward pass finds it. *)
Variable gradient : list Q → Loss → list Q.

(** [optimizer.zero_grad()]: the gradients that exist are set to zero. *)
Definition zero_grad (s : OptState) : OptState :=
  mkOptState (params s)
    (match grads s with
     | Some g => Some ((λ _, 0%Q) <$> g)
     | None => None
     end).

(** [loss.backward()]: the gradient of the loss is added to the gradients
    accumulated so far, or stored when there are none. *)
Definition backward (s : OptState) (loss : Loss) : OptState :=
  let g := gradient (params s) loss in
  mkOptState (params s)
    (Some (match grads s with
           | Some accumulated => zip_with Qplus accumulated g
           | None => g
           end)).

(** [optimizer.step()] for [optim.SGD(model.parameters(), lr=lr)]:
    [p.add_(-lr, p.grad)] for every parameter that has a gradient. *)
Definition step (s : OptState) : OptState :=
  mkOptState
    (match grads s with
     | Some g => zip_with (λ p d, p + - lr * d)%Q (params s) g
     | None => params s
     end)
    (grads s).
End SGD.

(** [optim.SGD(model.parameters(), lr=0.01)] for the demonstration step
    and [optim.SGD(model.parameters(), lr=0.003)] for the training loop. *)
Definition lr_demonstration : Q := 1 # 100.
Definition lr_training : Q := 3 # 1000.

End SGD.

(** ** The cells on automatic differentiation *)

Module Autograd.

(** A tensor of real numbers with what autograd keeps for it: whether it
    requires a gradient, and the operation that made it, with its input. *)
Inductive Var :=
| mkVar (var_shape : list nat) (var_data : list Q) (requires_grad : bool)
    (grad_fn : option GradFn)
with GradFn :=
| PowBackward0 (self : Var) (exponent : nat)
| MeanBackward0 (self : Var)
| DivBackward0 (self : Var) (other : Q).

Definition var_shape (v : Var) : list nat := let 'mkVar s _ _ _ := v in s.
Definition var_data (v : Var) : list Q := let 'mkVar _ d _ _ := v in d.
Definition requires_grad (v : Var) : bool := let 'mkVar _ _ r _ := v in r.
Definition grad_fn (v : Var) : option GradFn := let 'mkVar _ _ _ f := v in f.

(** The result of an operation on [self] records the operation when
    [self] requires a gradient. *)
Definition record (self : Var) (fn : GradFn) : option GradFn :=
  if requires_grad self then Some fn else None.

(** [x ** k] *)
Definition pow (x : Var) (k : nat) : Var :=
  mkVar (var_shape x) ((λ v, v ^ Z.of_nat k)%Q <$> var_data x) (requires_grad x)
    (record x (PowBackward0 x k)).

(** [x.mean()]: a tensor without dimensions.  (Of an empty tensor the
    framework gives not-a-number; the rationals have none, and the zero
    that their division by zero gives stands for it.) *)
Definition mean (x : Var) : Var :=
  mkVar [] [(sumQ (var_data x) / inject_Z (Z.of_nat (length (var_data x))))%Q]
    (requires_grad x) (record x (MeanBackward0 x)).

(** [x / c] for a number [c] *)
Definition div (x : Var) (c : Q) : Var :=
  mkVar (var_shape x) ((λ v, v / c)%Q <$> var_data x) (requires_grad x)
    (record x (DivBackward0 x c)).

(** The gradient that reaches the leaf at the end of the chain of
    operations when [grad_output] reaches [v]. *)
Fixpoint propagate (v : Var) (grad_output : list Q) {struct v} : list Q :=
  match v with
  | mkVar _ _ _ None => grad_output
  | mkVar _ _ _ (Some fn) => propagate_fn fn grad_output
  end
with propagate_fn (fn : GradFn) (grad_output : list Q) {struct fn} : list Q :=
  match fn with
  | PowBackward0 self k =>
      propagate self
        (zip_with (λ g x, g * (inject_Z (Z.of_nat k) * x ^ (Z.of_nat k - 1)))%Q
           grad_output (var_data self))
  | MeanBackward0 self =>
      let n := length (var_data self) in
      propagate self
        (replicate n (hd 0%Q grad_output / inject_Z (Z.of_nat n))%Q)
  | DivBackward0 self c =>
      propagate self ((λ g, g / c)%Q <$> grad_output)
  end.

(** What [z.backward()] does: it refuses a tensor that does not require a
    gradient, and one that has more or less than one element; otherwise
    the gradient of [z] is propagated from 1 back to the leaf and stored in
    its [.grad], which held none. *)
Inductive Outcome :=
| Stored (grad : list Q)
| DoesNotRequireGrad
| NotAScalar.

Definition backward (z : Var) : Outcome :=
  if negb (requires_grad z) then DoesNotRequireGrad
  else if decide (length (var_data z) = 1) then Stored (propagate z [1%Q])
  else NotAScalar.

(** [x = torch.randn(2, 2, requires_grad=True)] with the values drawn. *)
Definition randn_2_2 (a b c d : Q) : Var := mkVar [2; 2] [a; b; c; d] true None.

End Autograd.

(** * Parameter names *)

Lemma string_app_assoc (a b c : string) : (a +:+ b) +:+ c = a +:+ (b +:+ c).
Proof.
  induction a as [|x a IH]; [done|].
  cbv [String.append] in *. fold String.append in *. by f_equal.
Qed.

Lemma pretty_N_char_dotless x : pretty_N_char x ≠ "."%char.
Proof. unfold pretty_N_char. by repeat case_match. Qed.

Lemma pretty_N_go_dotless x s : dotless s → dotless (pretty_N_go x s).
Proof.
  revert s. induction (N.lt_wf_0 x) as [x _ IH]; intros s Hs.
  assert (x = 0 ∨ 0 < x)%N as [->|?] by lia.
  - by rewrite pretty_N_go_0.
  - rewrite pretty_N_go_step by done. apply IH.
    { by apply N.div_lt. }
    split; [apply pretty_N_char_dotless | done].
Qed.

Lemma pretty_nat_dotless (n : nat) : dotless (pretty n).
Proof.
  unfold pretty, pretty_nat, pretty, pretty_N.
  case_decide; [by repeat split|]. by apply pretty_N_go_dotless.
Qed.

Lemma dotless_app_inj (a b r1 r2 : string) :
  dotless a → dotless b →
  a +:+ String "." r1 = b +:+ String "." r2 → a = b ∧ r1 = r2.
Proof.
  revert b. induction a as [|x a IH]; intros [|y b] Ha Hb Heq;
    cbv [String.append] in Heq; fold String.append in Heq.
  - by simplify_eq.
  - destruct Hb as [Hy _]. by simplify_eq.
  - destruct Ha as [Hx _]. by simplify_eq.
  - destruct Ha as [_ Ha], Hb as [_ Hb]. simplify_eq.
    destruct (IH b Ha Hb) as [-> ->]; done.
Qed.

Lemma hidden_key_inj i j n1 n2 :
  hidden_prefix i +:+ n1 = hidden_prefix j +:+ n2 → i = j ∧ n1 = n2.
Proof.
  unfold hidden_prefix. rewrite !string_app_assoc. intros H%(inj _).
  change ("." +:+ n1) with (String "." n1) in H.
  change ("." +:+ n2) with (String "." n2) in H.
  apply dotless_app_inj in H as [H ->]; auto using pretty_nat_dotless.
  by apply (inj pretty) in H.
Qed.

Lemma hidden_key_ne_output i n n' : hidden_prefix i +:+ n ≠ "output." +:+ n'.
Proof.
  unfold hidden_prefix. rewrite !string_app_assoc.
  cbv [String.append]. discriminate.
Qed.

Example hidden_prefix_12 : hidden_prefix 12 = "hidden_layers.12.".
Proof. vm_compute. reflexivity. Qed.

(** * Looking parameters up in a state dict *)

Lemma odict_get_app {V} key (d1 d2 : list (string * V)) :
  odict_get key (d1 ++ d2) =
  match odict_get key d1 with Some v => Some v | None => odict_get key d2 end.
Proof.
  induction d1 as [|[k v] d1 IH]; simpl; [done|]. by case_decide.
Qed.

Lemma odict_get_None {V} key (d : list (string * V)) :
  odict_get key d = None ↔ key ∉ keys d.
Proof.
  unfold keys. induction d as [|[k v] d IH]; simpl.
  - split; [intros _; apply not_elem_of_nil | done].
  - rewrite not_elem_of_cons. case_decide as Hk.
    + split; [done|]. by intros [? _].
    + rewrite IH. split; [by split; [congruence|] | by intros [_ ?]].
Qed.

Lemma odict_get_Some_elem {V} key v (d : list (string * V)) :
  odict_get key d = Some v → (key, v) ∈ d.
Proof.
  induction d as [|[k w] d IH]; simpl; [done|].
  case_decide; intros; simplify_eq; [left | right; auto].
Qed.

Lemma odict_get_NoDup {V} key v (d : list (string * V)) :
  NoDup (keys d) → (key, v) ∈ d → odict_get key d = Some v.
Proof.
  unfold keys. induction d as [|[k w] d IH]; simpl.
  - by intros _ ?%elem_of_nil.
  - intros [Hk Hd]%NoDup_cons [?|Hin]%elem_of_cons; simplify_eq.
    + by rewrite decide_True.
    + rewrite decide_False; [auto|].
      intros ->. apply Hk. apply list_elem_of_fmap. by exists (key, v).
Qed.

Lemma keys_hidden_state_dict i ls :
  keys (hidden_state_dict i ls) =
  flat_map (λ j, [hidden_prefix j +:+ "weight"; hidden_prefix j +:+ "bias"])
           (seq i (length ls)).
Proof.
  revert i. induction ls as [|l ls IH]; intros i; simpl; [done|].
  unfold keys in *. simpl. by rewrite IH.
Qed.

Lemma elem_of_keys_hidden key i ls :
  key ∈ keys (hidden_state_dict i ls) ↔
  ∃ j, i ≤ j < i + length ls ∧
       (key = hidden_prefix j +:+ "weight" ∨ key = hidden_prefix j +:+ "bias").
Proof.
  rewrite keys_hidden_state_dict, list_elem_of_In, in_flat_map.
  setoid_rewrite in_seq. setoid_rewrite <-list_elem_of_In.
  split; intros (j & ? & Hin); exists j; (split; [done|]).
  - apply elem_of_cons in Hin as [->|Hin]; [by left|].
    apply list_elem_of_singleton in Hin as ->. by right.
  - destruct Hin as [->| ->]; [left | right; left].
Qed.

Lemma NoDup_keys_hidden i ls : NoDup (keys (hidden_state_dict i ls)).
Proof.
  revert i. induction ls as [|l ls IH]; intros i; [constructor|].
  change (keys (hidden_state_dict i (l :: ls))) with
    ((hidden_prefix i +:+ "weight") :: (hidden_prefix i +:+ "bias")
       :: keys (hidden_state_dict (S i) ls)).
  apply NoDup_cons; split; [|apply NoDup_cons; split; [|apply IH]].
  - rewrite not_elem_of_cons, elem_of_keys_hidden. split.
    + intros [_ [=]]%hidden_key_inj.
    + intros (j & ? & [[? _]%hidden_key_inj|[? _]%hidden_key_inj]); lia.
  - rewrite elem_of_keys_hidden.
    intros (j & ? & [[? _]%hidden_key_inj|[? _]%hidden_key_inj]); lia.
Qed.

Lemma keys_state_dict m :
  keys (state_dict m) =
  keys (hidden_state_dict 0 (hidden_layers m)) ++ ["output.weight"; "output.bias"].
Proof. unfold state_dict, keys. by rewrite fmap_app. Qed.

Lemma NoDup_keys_state_dict m : NoDup (keys (state_dict m)).
Proof.
  rewrite keys_state_dict. apply NoDup_app. split; [apply NoDup_keys_hidden|].
  split.
  - intros key (j & _ & Hj)%elem_of_keys_hidden Hout.
    apply elem_of_cons in Hout as [->|Hout];
      [|apply elem_of_cons in Hout as [->|?%elem_of_nil]; [|done]].
    + destruct Hj as [Hj|Hj]; symmetry in Hj;
        by apply (hidden_key_ne_output j _ "weight") in Hj.
    + destruct Hj as [Hj|Hj]; symmetry in Hj;
        by apply (hidden_key_ne_output j _ "bias") in Hj.
  - apply NoDup_cons. split; [|apply NoDup_singleton].
    rewrite list_elem_of_singleton. discriminate.
Qed.

(** * Shapes of the parameters *)

Lemma keys_param_shapes sd : keys (param_shapes sd) = keys sd.
Proof.
  unfold keys, param_shapes. rewrite <-list_fmap_compose.
  apply list_fmap_ext. by intros i [k t] _.
Qed.

Lemma odict_get_param_shapes key sd :
  odict_get key (param_shapes sd) = shape <$> odict_get key sd.
Proof.
  induction sd as [|[k t] sd IH]; simpl; [done|]. by case_decide.
Qed.

Lemma default_last_cons {A} (d x : A) (l : list A) :
  default d (last (x :: l)) = default x (last l).
Proof.
  destruct l as [|y l]; [done|]. rewrite last_cons_cons.
  by destruct (last_is_Some (y :: l)) as [_ [z ->]].
Qed.

Lemma length_new_hidden init i prev widths :
  length (new_hidden init i prev widths) = length widths.
Proof.
  revert i prev. induction widths as [|h ws IH]; intros i prev; simpl; [done|].
  by rewrite IH.
Qed.

Lemma hidden_sizes_new_hidden init i prev widths :
  out_features <$> new_hidden init i prev widths = widths.
Proof.
  revert i prev. induction widths as [|h ws IH]; intros i prev; simpl; [done|].
  by rewrite IH.
Qed.

Lemma param_shapes_new_hidden init i prev widths :
  param_shapes (hidden_state_dict i (new_hidden init i prev widths)) =
  hidden_shapes i prev widths.
Proof.
  revert i prev. induction widths as [|h ws IH]; intros i prev; [done|].
  simpl. unfold param_shapes in *. simpl. by rewrite IH.
Qed.

Lemma param_shapes_init init n_in n_out widths :
  param_shapes (state_dict (Network_init init n_in n_out widths)) =
  arch_shapes n_in n_out widths.
Proof.
  unfold state_dict, arch_shapes, param_shapes. rewrite fmap_app. f_equal.
  apply param_shapes_new_hidden.
Qed.

Lemma param_shapes_chained i prev ls out :
  chained prev (ls ++ [out]) →
  param_shapes (hidden_state_dict i ls ++ linear_state_dict "output." out) =
  hidden_shapes i prev (out_features <$> ls)
    ++ linear_shapes "output." (default prev (last (out_features <$> ls))) (out_features out).
Proof.
  revert i prev. induction ls as [|l ls IH]; intros i prev.
  - simpl. intros (<- & [Hw Hb] & _). unfold param_shapes. simpl.
    by rewrite Hw, Hb.
  - intros (<- & [Hw Hb] & Hch). specialize (IH (S i) _ Hch).
    rewrite fmap_cons, default_last_cons.
    change (hidden_shapes i (in_features l) (out_features l :: (out_features <$> ls)))
      with (linear_shapes (hidden_prefix i) (in_features l) (out_features l)
              ++ hidden_shapes (S i) (out_features l) (out_features <$> ls)).
    rewrite <-(assoc (++)), <-IH.
    unfold param_shapes. simpl. by rewrite Hw, Hb.
Qed.

Lemma param_shapes_wf m :
  wf_network m →
  param_shapes (state_dict m) = arch_shapes (input_size m) (output_size m) (hidden_sizes m).
Proof.
  intros [_ Hch]. by apply (param_shapes_chained 0).
Qed.

Lemma arch_shapes_cons i prev h ws n_out :
  hidden_shapes i prev (h :: ws)
    ++ linear_shapes "output." (default prev (last (h :: ws))) n_out =
  (hidden_prefix i +:+ "weight", [h; prev]) :: (hidden_prefix i +:+ "bias", [h])
    :: (hidden_shapes (S i) h ws ++ linear_shapes "output." (default h (last ws)) n_out).
Proof. by rewrite default_last_cons. Qed.

Lemma head_key_eq {V} (k k' : string) (v v' : V) d d' :
  (k, v) :: d = (k', v') :: d' → k = k'.
Proof. by intros [= -> _ _]. Qed.

Lemma hidden_shapes_inj i prev prev' ws ws' n_out n_out' :
  hidden_shapes i prev ws ++ linear_shapes "output." (default prev (last ws)) n_out =
  hidden_shapes i prev' ws' ++ linear_shapes "output." (default prev' (last ws')) n_out' →
  prev = prev' ∧ n_out = n_out' ∧ ws = ws'.
Proof.
  revert i prev prev' ws'.
  induction ws as [|h ws IH]; intros i prev prev' [|h' ws'].
  - simpl. intros [= -> ->]. done.
  - rewrite arch_shapes_cons. intros H%head_key_eq. symmetry in H.
    by apply (hidden_key_ne_output i "weight" "weight") in H.
  - rewrite arch_shapes_cons. intros H%head_key_eq.
    by apply (hidden_key_ne_output i "weight" "weight") in H.
  - rewrite !arch_shapes_cons. intros [= -> -> _ H].
    apply IH in H as (_ & -> & ->). done.
Qed.

Lemma arch_shapes_inj n_in n_out ws n_in' n_out' ws' :
  arch_shapes n_in n_out ws = arch_shapes n_in' n_out' ws' →
  (n_in, n_out, ws) = (n_in', n_out', ws').
Proof. intros (-> & -> & ->)%hidden_shapes_inj. done. Qed.

Lemma keys_hidden_shapes i prev prev' ws ws' :
  length ws = length ws' →
  keys (hidden_shapes i prev ws) = keys (hidden_shapes i prev' ws').
Proof.
  unfold keys. revert i prev prev' ws'.
  induction ws as [|h ws IH]; intros i prev prev' [|h' ws'] Hlen;
    simplify_eq/=; [done|].
  f_equal. f_equal. by apply IH.
Qed.

Lemma keys_arch_shapes n_in n_out ws n_in' n_out' ws' :
  length ws = length ws' →
  keys (arch_shapes n_in n_out ws) = keys (arch_shapes n_in' n_out' ws').
Proof.
  intros Hlen. unfold arch_shapes, keys. rewrite !fmap_app. f_equal.
  by apply keys_hidden_shapes.
Qed.

(** * What [load_state_dict] does *)

Lemma filter_nil_iff {A} (P : A → Prop) `{!∀ x, Decision (P x)} (l : list A) :
  filter P l = [] ↔ ∀ x, x ∈ l → ¬ P x.
Proof.
  split.
  - intros Hnil x Hx HP. by apply (filter_nil_not_elem_of P l x).
  - intros Hall. apply elem_of_nil_inv. intros x [HP Hx]%list_elem_of_filter.
    by apply (Hall x).
Qed.

Lemma load_state_dict_fst m sd :
  (load_state_dict m sd).1 =
  mkNetwork (load_hidden sd 0 (hidden_layers m))
            (load_linear sd "output." (output m)) (dropout_p m).
Proof. unfold load_state_dict. by case_decide. Qed.

Lemma load_state_dict_snd m sd :
  (load_state_dict m sd).2 =
  if decide (unexpected_keys m sd = [] ∧ missing_keys m sd = []
             ∧ size_mismatches m sd = [])
  then Ok ()
  else Raise (LoadStateDictError (unexpected_keys m sd) (missing_keys m sd)
                (size_mismatches m sd)).
Proof. unfold load_state_dict. by case_decide. Qed.

Lemma hidden_state_dict_load sd i ls :
  hidden_state_dict i (load_hidden sd i ls) = load_entry sd <$> hidden_state_dict i ls.
Proof.
  revert i. induction ls as [|l ls IH]; intros i; [done|].
  simpl. by rewrite IH.
Qed.

Lemma state_dict_load m sd :
  state_dict (load_state_dict m sd).1 = load_entry sd <$> state_dict m.
Proof.
  rewrite load_state_dict_fst. unfold state_dict. simpl.
  by rewrite hidden_state_dict_load, fmap_app.
Qed.

Lemma load_state_dict_features m sd :
  input_size (load_state_dict m sd).1 = input_size m ∧
  output_size (load_state_dict m sd).1 = output_size m ∧
  hidden_sizes (load_state_dict m sd).1 = hidden_sizes m ∧
  dropout_p (load_state_dict m sd).1 = dropout_p m.
Proof.
  rewrite load_state_dict_fst. unfold input_size, output_size, hidden_sizes. simpl.
  split_and!; [|done| |done].
  - by destruct (hidden_layers m).
  - generalize 0. induction (hidden_layers m) as [|l ls IH]; intros i; simpl; [done|].
    by rewrite IH.
Qed.

Lemma odict_get_state_dict m key p :
  odict_get key (state_dict m) = Some p ↔ (key, p) ∈ state_dict m.
Proof.
  split; [apply odict_get_Some_elem|].
  apply odict_get_NoDup, NoDup_keys_state_dict.
Qed.

(** The tensors reported are those found on both sides with two shapes. *)
Lemma elem_of_size_mismatches m sd key s_ckpt s_model :
  (key, s_ckpt, s_model) ∈ size_mismatches m sd ↔
  shape <$> odict_get key sd = Some s_ckpt ∧
  shape <$> odict_get key (state_dict m) = Some s_model ∧
  s_ckpt ≠ s_model.
Proof.
  unfold size_mismatches. rewrite list_elem_of_omap. split.
  - intros ([k p] & Hin & Hmis). unfold size_mismatch_of in Hmis. simpl in Hmis.
    destruct (odict_get k sd) as [t|] eqn:Hget; [|done].
    case_decide; simplify_eq. rewrite Hget.
    apply odict_get_state_dict in Hin. rewrite Hin. done.
  - intros (Hsd & Hm & Hne).
    destruct (odict_get key sd) as [t|] eqn:Hget; simplify_eq/=.
    destruct (odict_get key (state_dict m)) as [p|] eqn:Hp; simplify_eq/=.
    exists (key, p). split; [by apply odict_get_state_dict|].
    unfold size_mismatch_of. simpl. rewrite Hget. by rewrite decide_False.
Qed.

Lemma param_shapes_lookup sd j k s :
  param_shapes sd !! j = Some (k, s) ↔ ∃ t, sd !! j = Some (k, t) ∧ shape t = s.
Proof.
  unfold param_shapes. rewrite list_lookup_fmap_Some. split.
  - intros ([k' t] & Hj & Heq). simplify_eq/=. eauto.
  - intros (t & Hj & <-). by exists (k, t).
Qed.

Lemma NoDup_keys_same_shapes m (sd : StateDict) :
  keys sd = keys (state_dict m) → NoDup (keys sd).
Proof. intros ->. apply NoDup_keys_state_dict. Qed.

(** With the same keys and shapes on both sides nothing is unexpected,
    missing or mismatched, and every parameter takes the saved value. *)
Lemma load_state_dict_same_shapes m sd :
  param_shapes sd = param_shapes (state_dict m) →
  (load_state_dict m sd).2 = Ok () ∧ state_dict (load_state_dict m sd).1 = sd.
Proof.
  intros Hsh.
  assert (keys sd = keys (state_dict m)) as Hkeys.
  { by rewrite <-(keys_param_shapes sd), Hsh, keys_param_shapes. }
  split.
  - rewrite load_state_dict_snd, decide_True; [done|]. split_and!.
    + apply filter_nil_iff. intros k Hk Hnot. apply Hnot. by rewrite <-Hkeys.
    + apply filter_nil_iff. intros k Hk Hnone.
      apply odict_get_None in Hnone. apply Hnone. by rewrite Hkeys.
    + apply elem_of_nil_inv. intros [[k s1] s2] (H1 & H2 & Hne)%elem_of_size_mismatches.
      rewrite <-odict_get_param_shapes in H1, H2. rewrite Hsh in H1. congruence.
  - rewrite state_dict_load. apply list_eq. intros j.
    rewrite list_lookup_fmap.
    destruct (state_dict m !! j) as [[k p]|] eqn:Hj; simpl.
    + assert (param_shapes sd !! j = Some (k, shape p)) as Hs.
      { rewrite Hsh. apply param_shapes_lookup. eauto. }
      apply param_shapes_lookup in Hs as (t & Ht & Hshape).
      rewrite Ht. f_equal. unfold load_entry, load_param. simpl.
      rewrite (odict_get_NoDup k t sd); [|by eapply NoDup_keys_same_shapes|
                                           by eapply list_elem_of_lookup_2].
      by rewrite decide_True.
    + symmetry. apply lookup_ge_None. apply lookup_ge_None in Hj.
      rewrite <-(length_fmap (prod_map id shape) sd).
      fold (param_shapes sd). rewrite Hsh. unfold param_shapes.
      by rewrite length_fmap.
Qed.

(** Conversely, with the same keys, an empty report means equal shapes. *)
Lemma size_mismatches_nil_shapes m sd :
  keys sd = keys (state_dict m) →
  size_mismatches m sd = [] →
  param_shapes sd = param_shapes (state_dict m).
Proof.
  intros Hkeys Hnil. apply list_eq. intros j. unfold param_shapes.
  rewrite !list_lookup_fmap.
  assert (sd.*1 !! j = (state_dict m).*1 !! j) as Hj by (by fold (keys sd); rewrite Hkeys).
  rewrite !list_lookup_fmap in Hj.
  destruct (sd !! j) as [[k t]|] eqn:Ht, (state_dict m !! j) as [[k' p]|] eqn:Hp;
    simplify_eq/=; [|done].
  f_equal. f_equal.
  destruct (decide (shape t = shape p)) as [|Hne]; [done|].
  assert ((k', shape t, shape p) ∈ size_mismatches m sd) as Hin.
  { apply elem_of_size_mismatches. split_and!; [| |done].
    - rewrite (odict_get_NoDup k' t sd); [done|by eapply NoDup_keys_same_shapes|
                                             by eapply list_elem_of_lookup_2].
    - rewrite (proj2 (odict_get_state_dict m k' p)); [done|].
      by eapply list_elem_of_lookup_2. }
  rewrite Hnil in Hin. by apply elem_of_nil in Hin.
Qed.

(** * The state dict of a model *)

Lemma hidden_state_dict_imap i ls :
  hidden_state_dict i ls =
  mjoin (imap (λ j l, [(hidden_prefix (i + j) +:+ "weight", weight l);
                       (hidden_prefix (i + j) +:+ "bias", bias l)]) ls).
Proof.
  revert i. induction ls as [|l ls IH]; intros i; [done|].
  simpl. rewrite Nat.add_0_r. do 2 f_equal. rewrite IH. f_equal.
  apply imap_ext. intros j x _. simpl. by rewrite Nat.add_succ_r.
Qed.

Lemma length_hidden_state_dict i ls :
  length (hidden_state_dict i ls) = 2 * length ls.
Proof.
  revert i. induction ls as [|l ls IH]; intros i; simpl; [done|].
  rewrite IH. lia.
Qed.

Lemma hidden_entries i (ls : list Linear) j l :
  ls !! j = Some l →
  (hidden_prefix (i + j) +:+ "weight", weight l) ∈ hidden_state_dict i ls ∧
  (hidden_prefix (i + j) +:+ "bias", bias l) ∈ hidden_state_dict i ls.
Proof.
  revert i j. induction ls as [|l0 ls IH]; intros i j Hj; [done|].
  destruct j as [|j]; simpl in Hj.
  - injection Hj as ->. rewrite Nat.add_0_r. simpl. split.
    + by left.
    + right. by left.
  - destruct (IH (S i) j Hj) as [Hw Hb].
    replace (i + S j) with (S i + j) by lia.
    simpl. split; right; right; done.
Qed.

Lemma hidden_lookup (m : Network) i l name (t : Tensor) :
  hidden_layers m !! i = Some l →
  (hidden_prefix i +:+ name, t) ∈ hidden_state_dict 0 (hidden_layers m) →
  odict_get (hidden_prefix i +:+ name) (state_dict m) = Some t.
Proof.
  intros Hi Hin. apply odict_get_NoDup; [apply NoDup_keys_state_dict|].
  unfold state_dict. apply elem_of_app. by left.
Qed.

Lemma output_lookup (m : Network) :
  odict_get "output.weight" (state_dict m) = Some (weight (output m)) ∧
  odict_get "output.bias" (state_dict m) = Some (bias (output m)).
Proof.
  split; (apply odict_get_NoDup; [apply NoDup_keys_state_dict|]);
    unfold state_dict; apply elem_of_app; right.
  - by left.
  - right. by left.
Qed.

(** C10.  The state dict of a model maps names to the current values of
    the parameters: for each hidden layer, named after its place in
    [hidden_layers], the weight and the bias of the layer, then the weight
    and the bias of the output layer, in layer order, and nothing else; no
    name occurs twice, so that there are two entries per linear layer.
    These entries are what the first save writes to the file.  Loaded into
    any network whose parameters have the same names and shapes, whatever
    it held before, they are restored with all keys matched: every
    parameter of that network then holds the saved value, and nothing else
    of the network is changed. *)
Theorem state_dict_entries (m other : Network) (fs : FileSystem) :
  state_dict m =
    mjoin (imap (λ j l, [(hidden_prefix j +:+ "weight", weight l);
                         (hidden_prefix j +:+ "bias", bias l)]) (hidden_layers m))
    ++ [("output.weight", weight (output m)); ("output.bias", bias (output m))] ∧
  (∀ key, key ∈ keys (state_dict m) ↔
     (∃ i, i < length (hidden_layers m) ∧
           (key = hidden_prefix i +:+ "weight" ∨ key = hidden_prefix i +:+ "bias")) ∨
     key = "output.weight" ∨ key = "output.bias") ∧
  (∀ i l, hidden_layers m !! i = Some l →
     odict_get (hidden_prefix i +:+ "weight") (state_dict m) = Some (weight l) ∧
     odict_get (hidden_prefix i +:+ "bias") (state_dict m) = Some (bias l)) ∧
  odict_get "output.weight" (state_dict m) = Some (weight (output m)) ∧
  odict_get "output.bias" (state_dict m) = Some (bias (output m)) ∧
  NoDup (keys (state_dict m)) ∧
  length (state_dict m) = 2 * (length (hidden_layers m) + 1) ∧
  torch_load "checkpoint.pth" (Part6.save_state_dict m fs)
    = Ok (VOrderedDict (state_dict m)) ∧
  (param_shapes (state_dict other) = param_shapes (state_dict m) →
   (load_state_dict other (state_dict m)).2 = Ok () ∧
   state_dict (load_state_dict other (state_dict m)).1 = state_dict m ∧
   input_size (load_state_dict other (state_dict m)).1 = input_size other ∧
   output_size (load_state_dict other (state_dict m)).1 = output_size other ∧
   hidden_sizes (load_state_dict other (state_dict m)).1 = hidden_sizes other ∧
   dropout_p (load_state_dict other (state_dict m)).1 = dropout_p other).
Proof.
  split_and!.
  - unfold state_dict. by rewrite (hidden_state_dict_imap 0).
  - intros key. rewrite keys_state_dict, elem_of_app, elem_of_keys_hidden.
    rewrite !elem_of_cons, elem_of_nil. split.
    + intros [(j & Hj & Hkey) | [-> | [-> | []]]]; [left|right; by left|right; by right].
      exists j. split; [lia|done].
    + intros [(j & Hj & Hkey) | [-> | ->]]; [left|right; by left|right; right; by left].
      exists j. split; [lia|done].
  - intros i l Hi. destruct (hidden_entries 0 (hidden_layers m) i l Hi) as [Hw Hb].
    split; by eapply hidden_lookup.
  - apply output_lookup.
  - apply output_lookup.
  - apply NoDup_keys_state_dict.
  - unfold state_dict. rewrite length_app, length_hidden_state_dict. simpl. lia.
  - unfold torch_load, Part6.save_state_dict, torch_save.
    by rewrite lookup_insert_eq.
  - intros Hshapes.
    destruct (load_state_dict_same_shapes other (state_dict m)) as [Hok Hsd]; [done|].
    destruct (load_state_dict_features other (state_dict m)) as (Hi & Ho & Hh & Hp).
    by split_and!.
Qed.

Lemma state_dict_entries_witness :
  let m := Network_init ones 784 10 [4; 3] in
  let other := Network_init zeros 784 10 [4; 3] in
  state_dict other ≠ state_dict m ∧
  (load_state_dict other (state_dict m)).2 = Ok () ∧
  state_dict (load_state_dict other (state_dict m)).1 = state_dict m.
Proof.
  intros m other. split.
  - intros Heq. apply (f_equal (odict_get "output.bias")) in Heq.
    vm_compute in Heq. discriminate.
  - destruct (state_dict_entries m other ∅)
      as (_ & _ & _ & _ & _ & _ & _ & _ & Hrestore).
    destruct Hrestore as (Hok & Hsd & _).
    + unfold other, m. by rewrite !param_shapes_init.
    + split; [exact Hok | exact Hsd].
Defined.

Example state_dict_keys_printed :
  keys (state_dict (Network_init zeros 784 10 [512; 256; 128])) =
  ["hidden_layers.0.weight"; "hidden_layers.0.bias";
   "hidden_layers.1.weight"; "hidden_layers.1.bias";
   "hidden_layers.2.weight"; "hidden_layers.2.bias";
   "output.weight"; "output.bias"].
Proof. vm_compute. reflexivity. Qed.

(** * The checkpoint file *)

(** C3.  The file written by the checkpoint cell holds a dictionary with
    exactly the keys [input_size], [output_size], [hidden_layers] and
    [state_dict]: two integers, the list of the [out_features] of the hidden
    layers in layer order, and the model's state dict. *)
Theorem checkpoint_file_contents (model : Network) (fs : FileSystem) :
  ∃ d : gmap string PyVal,
    Part6.save_checkpoint model fs !! "checkpoint.pth" = Some (VDict d) ∧
    dom d = list_to_set checkpoint_keys ∧
    (∃ z, d !! "input_size" = Some (VInt z)) ∧
    (∃ z, d !! "output_size" = Some (VInt z)) ∧
    d !! "hidden_layers" = Some (VIntList (Z.of_nat <$> hidden_sizes model)) ∧
    d !! "state_dict" = Some (VOrderedDict (state_dict model)).
Proof.
  exists (Part6.checkpoint model). unfold Part6.save_checkpoint, torch_save.
  split_and!.
  - by rewrite lookup_insert_eq.
  - unfold Part6.checkpoint, checkpoint_keys. rewrite !dom_insert_L, dom_singleton_L.
    simpl. set_solver.
  - by exists 784%Z.
  - by exists 10%Z.
  - unfold Part6.checkpoint, hidden_sizes. rewrite <-list_fmap_compose. done.
  - done.
Qed.

(** * Loading a checkpoint *)

Lemma mapM_as_size (l : list nat) : mapM as_size (Z.of_nat <$> l) = Ok l.
Proof.
  induction l as [|h l IH]; [done|].
  rewrite fmap_cons.
  change (mapM as_size (Z.of_nat h :: (Z.of_nat <$> l))) with
    (y ← as_size (Z.of_nat h); k ← mapM as_size (Z.of_nat <$> l); mret (y :: k)).
  rewrite IH. unfold as_size.
  rewrite decide_True by lia. simpl. by rewrite Nat2Z.id.
Qed.

Lemma checkpoint_lookup_input_size m :
  Part6.checkpoint m !! "input_size" = Some (VInt 784).
Proof. done. Qed.

Lemma checkpoint_lookup_output_size m :
  Part6.checkpoint m !! "output_size" = Some (VInt 10).
Proof. done. Qed.

Lemma checkpoint_lookup_hidden_layers m :
  Part6.checkpoint m !! "hidden_layers" = Some (VIntList (Z.of_nat <$> hidden_sizes m)).
Proof. unfold hidden_sizes. rewrite <-list_fmap_compose. done. Qed.

Lemma checkpoint_lookup_state_dict m :
  Part6.checkpoint m !! "state_dict" = Some (VOrderedDict (state_dict m)).
Proof. done. Qed.

(** What [load_checkpoint] does with the file the checkpoint cell wrote. *)
Lemma load_checkpoint_saved init m fs :
  hidden_layers m ≠ [] →
  Part6.load_checkpoint init "checkpoint.pth" (Part6.save_checkpoint m fs) =
  let (model', r) := load_state_dict (Network_init init 784 10 (hidden_sizes m))
                                     (state_dict m) in
  _ ← r; mret model'.
Proof.
  intros Hne.
  unfold Part6.load_checkpoint, Part6.save_checkpoint, torch_save, torch_load.
  rewrite lookup_insert_eq. simpl.
  rewrite checkpoint_lookup_input_size, checkpoint_lookup_output_size,
    checkpoint_lookup_hidden_layers, checkpoint_lookup_state_dict.
  unfold Network_call.
  destruct (Z.of_nat <$> hidden_sizes m) as [|z zs] eqn:Hzs.
  { apply fmap_nil_inv in Hzs. unfold hidden_sizes in Hzs.
    by apply fmap_nil_inv in Hzs. }
  assert (mapM as_size (z :: zs) = Ok (hidden_sizes m)) as Hm
    by (rewrite <-Hzs; apply mapM_as_size).
  cbn -[mapM]. rewrite Hm. done.
Qed.




(** * Loading into a network of other widths *)

Lemma hidden_key_in_state_dict m j :
  hidden_prefix j +:+ "weight" ∈ keys (state_dict m) ↔ j < length (hidden_layers m).
Proof.
  rewrite keys_state_dict, elem_of_app, elem_of_keys_hidden. split.
  - intros [(j' & Hj' & [[-> _]%hidden_key_inj|[_ [=]]%hidden_key_inj])|Hout]; [lia|].
    apply elem_of_cons in Hout as [Hout|Hout];
      [|apply elem_of_cons in Hout as [Hout|?%elem_of_nil]; [|done]].
    + by apply (hidden_key_ne_output j "weight" "weight") in Hout.
    + by apply (hidden_key_ne_output j "weight" "bias") in Hout.
  - intros Hj. left. exists j. split; [lia|by left].
Qed.

Lemma keys_same_no_unexpected_missing m (sd : StateDict) :
  keys sd = keys (state_dict m) →
  unexpected_keys m sd = [] ∧ missing_keys m sd = [].
Proof.
  intros Hkeys. split.
  - apply filter_nil_iff. intros k Hk Hnot. apply Hnot. by rewrite <-Hkeys.
  - apply filter_nil_iff. intros k Hk Hnone.
    apply odict_get_None in Hnone. apply Hnone. by rewrite Hkeys.
Qed.

Lemma length_hidden_layers_init init n_in n_out widths :
  length (hidden_layers (Network_init init n_in n_out widths)) = length widths.
Proof. apply length_new_hidden. Qed.

(** C2.  Let the parameters saved from a well-formed network be loaded
    into a network declared with sizes [n_in], [n_out] and [widths].  The
    size mismatches reported are exactly the parameters found on both sides
    with different shapes.  When the declared sizes are the saved ones the
    load succeeds with all keys matched and every parameter takes the saved
    value.  When some declared size differs, for the same number of hidden
    layers, the load fails with the shape-mismatch error whose list is not
    empty, no key being unexpected or missing.  With another number of
    hidden layers it fails as well, a key being unexpected or missing. *)
Theorem load_state_dict_widths init (saved : Network) (n_in n_out : nat)
    (widths : list nat) :
  wf_network saved → widths ≠ [] →
  let model := Network_init init n_in n_out widths in
  let sd := state_dict saved in
  let errors := size_mismatches model sd in
  let dims := (input_size saved, output_size saved, hidden_sizes saved) in
  (∀ key s_ckpt s_model,
      (key, s_ckpt, s_model) ∈ errors ↔
      shape <$> odict_get key sd = Some s_ckpt ∧
      shape <$> odict_get key (state_dict model) = Some s_model ∧
      s_ckpt ≠ s_model) ∧
  ((n_in, n_out, widths) = dims →
      (load_state_dict model sd).2 = Ok () ∧
      state_dict (load_state_dict model sd).1 = sd) ∧
  ((n_in, n_out, widths) ≠ dims → length widths = length (hidden_sizes saved) →
      errors ≠ [] ∧
      (load_state_dict model sd).2 = Raise (LoadStateDictError [] [] errors)) ∧
  (length widths ≠ length (hidden_sizes saved) →
      ∃ unexpected missing_, (unexpected ≠ [] ∨ missing_ ≠ []) ∧
      (load_state_dict model sd).2 =
        Raise (LoadStateDictError unexpected missing_ errors)).
Proof.
  intros Hwf _ model sd errors dims.
  assert (param_shapes sd = arch_shapes (input_size saved) (output_size saved)
                                        (hidden_sizes saved)) as Hsaved
    by by apply param_shapes_wf.
  assert (param_shapes (state_dict model) = arch_shapes n_in n_out widths) as Hmodel
    by apply param_shapes_init.
  split_and!.
  - intros key s1 s2. apply elem_of_size_mismatches.
  - intros [= -> -> ->]. apply load_state_dict_same_shapes. congruence.
  - intros Hne Hlen.
    assert (keys sd = keys (state_dict model)) as Hkeys.
    { rewrite <-(keys_param_shapes sd), <-(keys_param_shapes (state_dict model)).
      rewrite Hsaved, Hmodel. by apply keys_arch_shapes. }
    destruct (keys_same_no_unexpected_missing model sd Hkeys) as [Hu Hm].
    assert (errors ≠ []) as Herr.
    { intros Hnil. apply Hne.
      apply (size_mismatches_nil_shapes model sd Hkeys) in Hnil.
      rewrite Hsaved, Hmodel in Hnil. symmetry. by apply arch_shapes_inj. }
    split; [done|].
    rewrite load_state_dict_snd, Hu, Hm. fold errors.
    rewrite decide_False; [done|]. by intros (_ & _ & ?).
  - intros Hlen. exists (unexpected_keys model sd), (missing_keys model sd).
    assert (unexpected_keys model sd ≠ [] ∨ missing_keys model sd ≠ []) as Hor.
    { unfold hidden_sizes in Hlen. rewrite length_fmap in Hlen.
      destruct (decide (length widths < length (hidden_layers saved))) as [Hlt|Hge].
      - left. intros Hnil.
        eapply (proj1 (filter_nil_iff _ _) Hnil
                  (hidden_prefix (length widths) +:+ "weight")).
        + unfold sd. by apply hidden_key_in_state_dict.
        + unfold model. rewrite hidden_key_in_state_dict, length_hidden_layers_init. lia.
      - right. intros Hnil.
        eapply (proj1 (filter_nil_iff _ _) Hnil
                  (hidden_prefix (length (hidden_layers saved)) +:+ "weight")).
        + apply hidden_key_in_state_dict. unfold model.
          rewrite length_hidden_layers_init. lia.
        + apply odict_get_None. unfold sd. rewrite hidden_key_in_state_dict. lia. }
    split; [done|].
    rewrite load_state_dict_snd. fold errors.
    rewrite decide_False; [done|]. intros (Hu & Hm & _). by destruct Hor.
Qed.

(** The two networks of the notebook: trained with widths 512, 256, 128
    and declared with 400, 200, 100.  Every parameter but the bias of the
    output layer is reported, as in the notebook's error message. *)
Example load_state_dict_notebook_error :
  size_mismatches (Network_init zeros 784 10 [400; 200; 100])
                  (state_dict (Network_init zeros 784 10 [512; 256; 128])) =
  [("hidden_layers.0.weight", [512; 784], [400; 784]);
   ("hidden_layers.0.bias", [512], [400]);
   ("hidden_layers.1.weight", [256; 512], [200; 400]);
   ("hidden_layers.1.bias", [256], [200]);
   ("hidden_layers.2.weight", [128; 256], [100; 200]);
   ("hidden_layers.2.bias", [128], [100]);
   ("output.weight", [10; 128], [10; 100])].
Proof. vm_compute. reflexivity. Qed.

Lemma load_state_dict_widths_witness :
  let saved := Network_init zeros 784 10 [5; 4; 3] in
  let model := Network_init zeros 784 10 [4; 2; 1] in
  wf_network saved ∧
  (load_state_dict model (state_dict saved)).2 =
    Raise (LoadStateDictError [] [] (size_mismatches model (state_dict saved))).
Proof.
  intros saved model.
  assert (wf_network saved) as Hwf by (split; [done|repeat split]).
  split; [exact Hwf|].
  destruct (load_state_dict_widths zeros saved 784 10 [4; 2; 1] Hwf)
    as (_ & _ & H & _); [done|].
  apply H; [discriminate | reflexivity].
Defined.

(** * Checkpoint files that lack a key *)

Lemma getitem_mapping obj key :
  is_mapping obj → is_ok (getitem obj key) ∨ missing obj key.
Proof.
  unfold missing. destruct obj as [| | |sd|d]; try done; intros _; simpl.
  - destruct (odict_get key sd); [by left|by right].
  - destruct (d !! key); [by left|by right].
Qed.

Lemma not_missing_ok obj key : missing obj key → ¬ is_ok (getitem obj key).
Proof. unfold missing. intros Hm Hok. by rewrite Hm in Hok. Qed.

Ltac earlier_keys Ei Eo Eh :=
  let j := fresh "j" in let k := fresh "k" in
  let Hj := fresh "Hj" in let Hk := fresh "Hk" in
  intros j k Hj Hk;
  do 3 (destruct j as [|j];
        [cbn in Hk; injection Hk as <-; rewrite ?Ei, ?Eo, ?Eh; done || lia|]);
  lia.

(** The file lacks a key: either the first key it lacks, in lookup order,
    is reported, or the three architecture entries are there and building
    the network from them fails. *)
Lemma load_checkpoint_missing_cases init (filepath : string) (fs : FileSystem)
    (obj : PyVal) :
  torch_load filepath fs = Ok obj →
  is_mapping obj →
  (∃ key, key ∈ checkpoint_keys ∧ missing obj key) →
  (∃ i key, checkpoint_keys !! i = Some key ∧ missing obj key ∧
            (∀ j k, j < i → checkpoint_keys !! j = Some k → is_ok (getitem obj k)) ∧
            Part6.load_checkpoint init filepath fs = Raise (KeyError key)) ∨
  (∃ n_in n_out widths e,
      getitem obj "input_size" = Ok n_in ∧
      getitem obj "output_size" = Ok n_out ∧
      getitem obj "hidden_layers" = Ok widths ∧
      Network_call init n_in n_out widths = Raise e ∧
      Part6.load_checkpoint init filepath fs = Raise e).
Proof.
  intros Hload Hmap (key0 & Hkey0 & Hmiss0).
  unfold Part6.load_checkpoint. rewrite Hload. simpl.
  destruct (getitem_mapping obj "input_size" Hmap) as [Hi|Hi].
  2:{ left. exists 0, "input_size". split_and!; [done|done| |].
      - intros j k Hj. lia.
      - unfold missing in Hi. by rewrite Hi. }
  destruct (getitem obj "input_size") as [vi|] eqn:Ei; [|done]. simpl.
  destruct (getitem_mapping obj "output_size" Hmap) as [Ho|Ho].
  2:{ left. exists 1, "output_size". split_and!; [done|done| |].
      - earlier_keys Ei Ei Ei.
      - unfold missing in Ho. by rewrite Ho. }
  destruct (getitem obj "output_size") as [vo|] eqn:Eo; [|done]. simpl.
  destruct (getitem_mapping obj "hidden_layers" Hmap) as [Hh|Hh].
  2:{ left. exists 2, "hidden_layers". split_and!; [done|done| |].
      - earlier_keys Ei Eo Eo.
      - unfold missing in Hh. by rewrite Hh. }
  destruct (getitem obj "hidden_layers") as [vh|] eqn:Eh; [|done]. simpl.
  destruct (Network_call init vi vo vh) as [model|e] eqn:Ecall; simpl.
  2:{ right. by exists vi, vo, vh, e. }
  assert (missing obj "state_dict") as Hs.
  { unfold checkpoint_keys in Hkey0.
    repeat (apply elem_of_cons in Hkey0 as [->|Hkey0]);
      [by apply not_missing_ok in Hmiss0; rewrite ?Ei, ?Eo, ?Eh in Hmiss0..
      | done | by apply elem_of_nil in Hkey0]. }
  left. exists 3, "state_dict". split_and!; [done|done| |].
  - earlier_keys Ei Eo Eh.
  - unfold missing in Hs. by rewrite Hs.
Qed.

(** C8, amended.  A file holding a mapping that lacks one of the four keys
    never makes [load_checkpoint] return a model.  The call fails with the
    key-lookup error of the first key the file lacks, in the order
    [input_size], [output_size], [hidden_layers], [state_dict], provided
    the network can be built from the three architecture entries when the
    file has them: the network is built before [state_dict] is looked
    up. *)
Theorem load_checkpoint_missing_key init (filepath : string) (fs : FileSystem)
    (obj : PyVal) :
  torch_load filepath fs = Ok obj →
  is_mapping obj →
  (∃ key, key ∈ checkpoint_keys ∧ missing obj key) →
  ¬ is_ok (Part6.load_checkpoint init filepath fs) ∧
  (buildable init obj →
   ∃ i key, checkpoint_keys !! i = Some key ∧ missing obj key ∧
            (∀ j k, j < i → checkpoint_keys !! j = Some k → is_ok (getitem obj k)) ∧
            Part6.load_checkpoint init filepath fs = Raise (KeyError key)).
Proof.
  intros Hload Hmap Hmiss.
  destruct (load_checkpoint_missing_cases init filepath fs obj Hload Hmap Hmiss)
    as [(i & key & Hi & Hk & Hfirst & Hrun)|(vi & vo & vh & e & Ei & Eo & Eh & Ecall & Hrun)].
  - split; [rewrite Hrun; by intros []|]. intros _. by exists i, key.
  - split; [rewrite Hrun; by intros []|]. intros Hbuild.
    specialize (Hbuild vi vo vh Ei Eo Eh). by rewrite Ecall in Hbuild.
Qed.

(** * The network as a feed-forward stack *)

Lemma chained_new_hidden init i prev widths n_out :
  chained prev (new_hidden init i prev widths
                  ++ [new_linear init "output." (default prev (last widths)) n_out]).
Proof.
  revert i prev. induction widths as [|h ws IH]; intros i prev.
  - simpl. by repeat split.
  - rewrite default_last_cons. simpl. split; [done|]. split; [by split|]. apply IH.
Qed.

Lemma wf_network_init init n_in n_out widths :
  widths ≠ [] → wf_network (Network_init init n_in n_out widths).
Proof.
  intros Hne. split.
  - simpl. by destruct widths.
  - unfold input_size. simpl.
    replace (in_features (hd _ (new_hidden init 0 n_in widths))) with n_in
      by by destruct widths.
    apply chained_new_hidden.
Qed.

Lemma layer_forward_linear batch n_in n_out :
  layer_forward (LLinear n_in n_out) [batch; n_in] = Ok [batch; n_out].
Proof. simpl. by rewrite decide_True. Qed.

Lemma forward_shape_chained p batch prev ls out :
  chained prev (ls ++ [out]) →
  forward_shape
    (flat_map (λ each, [LLinear (in_features each) (out_features each);
                        LReLU; LDropout p]) ls
     ++ [LLinear (in_features out) (out_features out)]) [batch; prev] =
  Ok [batch; out_features out].
Proof.
  revert prev. induction ls as [|l ls IH]; intros prev.
  - simpl. intros (<- & _ & _). by rewrite decide_True.
  - intros (<- & _ & Hch).
    change (forward_shape ?layers [batch; in_features l]) with
      (s' ← layer_forward (LLinear (in_features l) (out_features l))
              [batch; in_features l];
       forward_shape
         (flat_map (λ each, [LLinear (in_features each) (out_features each);
                             LReLU; LDropout p]) ls
          ++ [LLinear (in_features out) (out_features out)]) s').
    rewrite layer_forward_linear. by apply IH.
Qed.

Lemma forward_layers_new_hidden init p i prev widths :
  flat_map (λ each, [LLinear (in_features each) (out_features each);
                     LReLU; LDropout p]) (new_hidden init i prev widths) =
  flat_map (λ io, [LLinear io.1 io.2; LReLU; LDropout p]) (zip (prev :: widths) widths).
Proof.
  revert i prev. induction widths as [|h ws IH]; intros i prev; [done|].
  simpl. by rewrite IH.
Qed.

Lemma input_size_init init n_in n_out widths :
  widths ≠ [] → input_size (Network_init init n_in n_out widths) = n_in.
Proof. intros Hne. unfold input_size. simpl. by destruct widths. Qed.

(** C6, amended.  The repository has two classifiers, both stacks of
    linear transforms chained from the input size through the hidden widths,
    with a final linear layer from the last width to the output size that
    produces one row of class scores per input.  The network built by
    [fc_model.Network] for an input size, an output size and a non-empty
    list of hidden widths has one linear transform per width, each followed
    by the non-linearity and by dropout.  The classifier of the training
    notebook has the two hidden widths of its hyperparameters, each linear
    transform followed by the non-linearity only: it has no dropout. *)
Theorem classifier_stacks init (n_in n_out : nat) (widths : list nat) :
  (widths ≠ [] →
   let m := Network_init init n_in n_out widths in
   wf_network m ∧
   input_size m = n_in ∧ output_size m = n_out ∧ hidden_sizes m = widths ∧
   forward_layers m =
     flat_map (λ io, [LLinear io.1 io.2; LReLU; LDropout (1 # 2)])
              (zip (n_in :: widths) widths)
     ++ [LLinear (default n_in (last widths)) n_out] ∧
   ∀ batch, forward_shape (forward_layers m) [batch; n_in] = Ok [batch; n_out]) ∧
  (Part3.model.*2 =
     flat_map (λ io, [LLinear io.1 io.2; LReLU])
              (zip (Part3.input_size :: Part3.hidden_sizes) Part3.hidden_sizes)
     ++ [LLinear (default Part3.input_size (last Part3.hidden_sizes))
           Part3.output_size] ∧
   Forall (λ l, ¬ is_dropout l) Part3.model.*2 ∧
   ∀ batch, forward_shape Part3.model.*2 [batch; Part3.input_size]
            = Ok [batch; Part3.output_size]).
Proof.
  split.
  - intros Hne m.
    assert (wf_network m) as Hwf by by apply wf_network_init.
    assert (input_size m = n_in) as Hin by by apply input_size_init.
    split_and!; [done|done|done| | |].
    + apply hidden_sizes_new_hidden.
    + unfold forward_layers, m. simpl. by rewrite forward_layers_new_hidden.
    + intros batch. destruct Hwf as [_ Hch]. rewrite Hin in Hch.
      by apply (forward_shape_chained (dropout_p m) batch) in Hch.
  - split_and!.
    + reflexivity.
    + apply (bool_decide_unpack _). reflexivity.
    + intros batch. reflexivity.
Qed.

Lemma classifier_stacks_witness :
  let m := Network_init zeros 784 10 [512; 256; 128] in
  forward_layers m =
    [LLinear 784 512; LReLU; LDropout (1 # 2);
     LLinear 512 256; LReLU; LDropout (1 # 2);
     LLinear 256 128; LReLU; LDropout (1 # 2);
     LLinear 128 10] ∧
  forward_shape (forward_layers m) [64; 784] = Ok [64; 10].
Proof.
  destruct (classifier_stacks zeros 784 10 [512; 256; 128]) as [Hnetwork _].
  destruct Hnetwork as (_ & _ & _ & _ & Hlayers & Hshape); [discriminate|].
  split; [exact Hlayers | exact (Hshape 64)].
Defined.

(** C6 as stated fails on the classifier that the training notebook
    defines: its linear transforms are followed by the non-linearity and
    then directly by the next linear transform, and no layer of it is a
    dropout. *)
Lemma sequential_model_no_dropout :
  Part3.model.*2 = [LLinear 784 128; LReLU; LLinear 128 64; LReLU; LLinear 64 10] ∧
  ¬ Exists is_dropout Part3.model.*2.
Proof.
  split; [reflexivity|].
  apply (bool_decide_unpack _). vm_compute. reflexivity.
Qed.

(** The modules the notebook prints for the trained network, and the
    classifier of the training notebook, which is the same kind of stack
    for two hidden widths without the dropout. *)
Example network_printed :
  let m := Network_init zeros 784 10 [512; 256; 128] in
  (λ l, (in_features l, out_features l)) <$> hidden_layers m
    = [(784, 512); (512, 256); (256, 128)] ∧
  (in_features (output m), out_features (output m)) = (128, 10) ∧
  dropout_p m = (1 # 2)%Q.
Proof. by vm_compute. Qed.

Example sequential_model_layers :
  Part3.model.*2 =
  filter (λ l, ¬ is_dropout l)
    (forward_layers (Network_init zeros 784 10 Part3.hidden_sizes)).
Proof. vm_compute. reflexivity. Qed.
Lemma load_checkpoint_missing_key_witness :
  let obj := VDict {[ "input_size" := VInt 784; "output_size" := VInt 10;
                      "hidden_layers" := VIntList [4; 3]%Z ]} in
  let fs : FileSystem := {[ "checkpoint.pth" := obj ]} in
  ∃ i key, checkpoint_keys !! i = Some key ∧ missing obj key ∧
           (∀ j k, j < i → checkpoint_keys !! j = Some k → is_ok (getitem obj k)) ∧
           Part6.load_checkpoint zeros "checkpoint.pth" fs = Raise (KeyError key).
Proof.
  intros obj fs.
  apply (load_checkpoint_missing_key zeros "checkpoint.pth" fs obj).
  - reflexivity.
  - exact I.
  - exists "state_dict". split; [|reflexivity].
    right; right; right; left.
  - intros vi vo vh [= <-] [= <-] [= <-]. exact I.
Defined.

(** C8 as stated fails for a file that lacks only [state_dict] and whose
    input size is negative: building the network raises before the key is
    looked up. *)
Lemma load_checkpoint_negative_input_size :
  let obj := VDict {[ "input_size" := VInt (-1); "output_size" := VInt 10;
                      "hidden_layers" := VIntList [5]%Z ]} in
  let fs : FileSystem := {[ "checkpoint.pth" := obj ]} in
  is_mapping obj ∧ missing obj "state_dict" ∧
  Part6.load_checkpoint zeros "checkpoint.pth" fs = Raise NegativeDimension.
Proof.
  intros obj fs. split; [exact I|]. split; vm_compute; reflexivity.
Qed.

(** The file of the first save, which holds the bare state dict, and a
    checkpoint without its [state_dict] entry. *)
Example load_checkpoint_bare_state_dict :
  Part6.load_checkpoint zeros "checkpoint.pth"
    (Part6.save_state_dict (Network_init zeros 784 10 [4; 3]) ∅) =
  Raise (KeyError "input_size").
Proof. vm_compute. reflexivity. Qed.

Example load_checkpoint_no_state_dict :
  Part6.load_checkpoint zeros "checkpoint.pth"
    {[ "checkpoint.pth" :=
         VDict {[ "input_size" := VInt 784; "output_size" := VInt 10;
                  "hidden_layers" := VIntList [4; 3]%Z ]} ]} =
  Raise (KeyError "state_dict").
Proof. vm_compute. reflexivity. Qed.

(** * Logs of the training loop *)

Lemma calls_app l1 l2 : calls (l1 ++ l2) = calls l1 ++ calls l2.
Proof. apply omap_app. Qed.

Lemma epoch_log_cons epochs pe e steps rl n v rest :
  epoch_log epochs pe e steps rl ((n, v) :: rest) =
  batch_events n v ++
    if decide ((steps + 1) mod pe = 0)
    then EPrintLoss (e + 1) epochs ((rl + v) / inject_Z (Z.of_nat pe))%Q
         :: epoch_log epochs pe e (steps + 1) 0%Q rest
    else epoch_log epochs pe e (steps + 1) (rl + v)%Q rest.
Proof. reflexivity. Qed.

Lemma calls_epoch_log epochs pe e steps rl bs :
  calls (epoch_log epochs pe e steps rl bs) = mjoin (replicate (length bs) batch_calls).
Proof.
  revert steps rl. induction bs as [|[n v] bs IH]; intros steps rl; [done|].
  rewrite epoch_log_cons. rewrite calls_app.
  case_decide; simpl; by rewrite IH.
Qed.

Lemma losses_epoch_log epochs pe e steps rl bs :
  omap loss_of (epoch_log epochs pe e steps rl bs) = bs.*2.
Proof.
  revert steps rl. induction bs as [|[n v] bs IH]; intros steps rl; [done|].
  rewrite epoch_log_cons. rewrite omap_app.
  case_decide; simpl; by rewrite IH.
Qed.

Lemma div_succ pe s :
  pe ≠ 0 →
  (s + 1) / pe = s / pe + (if decide ((s + 1) mod pe = 0) then 1 else 0).
Proof.
  intros Hpe.
  pose proof (Nat.div_mod_eq s pe) as Hs.
  pose proof (Nat.mod_upper_bound s pe Hpe) as Hr.
  destruct (decide (s mod pe + 1 = pe)) as [Heq|Hne].
  - assert (s + 1 = pe * (s / pe + 1) + 0) as H1 by lia.
    assert (0 < pe) as H0 by lia.
    rewrite <-(Nat.mod_unique _ _ _ _ H0 H1), decide_True by done.
    symmetry. by apply (Nat.div_unique _ _ _ 0).
  - assert (s + 1 = pe * (s / pe) + (s mod pe + 1)) as H1 by lia.
    assert (s mod pe + 1 < pe) as H0 by lia.
    rewrite <-(Nat.mod_unique _ _ _ _ H0 H1), decide_False by lia.
    rewrite Nat.add_0_r. symmetry. by apply (Nat.div_unique _ _ _ (s mod pe + 1)).
Qed.

Lemma prints_epoch_log epochs pe e steps rl bs :
  pe ≠ 0 →
  length (omap printed_of (epoch_log epochs pe e steps rl bs)) =
  (steps + length bs) / pe - steps / pe.
Proof.
  intros Hpe. revert steps rl.
  induction bs as [|[n v] bs IH]; intros steps rl.
  - simpl. rewrite Nat.add_0_r. lia.
  - rewrite epoch_log_cons. rewrite omap_app. simpl length.
    replace (steps + S (length bs)) with (steps + 1 + length bs) by lia.
    pose proof (div_succ pe steps Hpe) as Hdiv.
    assert (steps + 1 ≤ steps + 1 + length bs) as Hle by lia.
    apply (Nat.Div0.div_le_mono _ _ pe) in Hle.
    case_decide; simpl; rewrite IH; lia.
Qed.

Lemma first_print_arith pe steps :
  pe ≠ 0 →
  let k := pe - steps mod pe in
  0 < k ∧ k ≤ pe ∧ (steps + k) mod pe = 0 ∧
  (∀ k', 0 < k' < k → (steps + k') mod pe ≠ 0).
Proof.
  intros Hpe k. unfold k.
  pose proof (Nat.div_mod_eq steps pe) as Hs.
  pose proof (Nat.mod_upper_bound steps pe Hpe) as Hr.
  split_and!; [lia|lia| |].
  - assert (steps + (pe - steps mod pe) = pe * (steps / pe + 1) + 0) as H1 by lia.
    assert (0 < pe) as H0 by lia.
    symmetry. by apply (Nat.mod_unique _ _ _ _ H0 H1).
  - intros k' Hk'.
    assert (steps + k' = pe * (steps / pe) + (steps mod pe + k')) as H1 by lia.
    assert (steps mod pe + k' < pe) as H0 by lia.
    rewrite <-(Nat.mod_unique _ _ _ _ H0 H1). lia.
Qed.

(** The first print after [d] more batches: no print before it, and the
    value printed is the running loss with the [d] losses added, divided by
    [print_every]. *)
Lemma epoch_log_first_print epochs pe e d :
  ∀ bs steps rl,
  0 < d → d ≤ length bs →
  (steps + d) mod pe = 0 →
  (∀ d', 0 < d' < d → (steps + d') mod pe ≠ 0) →
  ∃ pre post,
    epoch_log epochs pe e steps rl bs =
      pre ++ EPrintLoss (e + 1) epochs
               (foldl Qplus rl (take d bs.*2) / inject_Z (Z.of_nat pe))%Q :: post ∧
    Forall (λ ev, ¬ is_print ev) pre ∧
    omap loss_of pre = take d bs.*2.
Proof.
  induction d as [|d IH]; intros bs steps rl Hpos Hlen Hmod Hmin; [lia|].
  destruct bs as [|[n v] bs]; [simpl in Hlen; lia|].
  rewrite epoch_log_cons. destruct d as [|d].
  - rewrite decide_True by done.
    eexists (batch_events n v), _. split_and!; [done| |done].
    repeat constructor; by intros [??].
  - rewrite decide_False by (apply Hmin; lia).
    destruct (IH bs (steps + 1) (rl + v)%Q) as (pre & post & Heq & Hpre & Hloss).
    + lia.
    + simpl in Hlen. lia.
    + by replace (steps + 1 + S d) with (steps + S (S d)) by lia.
    + intros d' Hd'. replace (steps + 1 + d') with (steps + S d') by lia.
      apply Hmin. lia.
    + rewrite Heq. exists (batch_events n v ++ pre), post. split_and!.
      * by rewrite <-(assoc (++)).
      * apply Forall_app. split; [|done]. repeat constructor; by intros [??].
      * rewrite omap_app, Hloss. done.
Qed.

Lemma inject_nat_pos (n : nat) : 0 < n → (0 < inject_Z (Z.of_nat n))%Q.
Proof.
  intros Hn. change (inject_Z 0 < inject_Z (Z.of_nat n))%Q.
  rewrite <-Zlt_Qlt. lia.
Qed.

Lemma understated (total : Q) (k pe : nat) :
  (0 < total)%Q → 0 < k < pe →
  (total / inject_Z (Z.of_nat pe) < total / inject_Z (Z.of_nat k))%Q.
Proof.
  intros Hpos Hk. unfold Qdiv. apply Qmult_lt_l; [done|].
  apply (proj1 (Qinv_lt_contravar _ _ (inject_nat_pos k ltac:(lia))
                  (inject_nat_pos pe ltac:(lia)))).
  rewrite <-Zlt_Qlt. lia.
Qed.

Lemma loop_log_cons epochs pe steps e es d data :
  loop_log epochs pe steps (e :: es) (d :: data) =
  epoch_log epochs pe e steps 0%Q d
    ++ loop_log epochs pe (steps + length d) es data.
Proof. reflexivity. Qed.

Lemma calls_loop_log epochs pe es :
  ∀ data steps, length es = length data →
  calls (loop_log epochs pe steps es data) =
  mjoin (replicate (sum_list (length <$> data)) batch_calls).
Proof.
  induction es as [|e es IH]; intros [|d data] steps Hlen; simplify_eq/=; [done|].
  rewrite calls_app, calls_epoch_log, IH by done.
  by rewrite replicate_add, join_app.
Qed.

Lemma losses_loop_log epochs pe es :
  ∀ data steps, length es = length data →
  length (omap loss_of (loop_log epochs pe steps es data)) =
  sum_list (length <$> data).
Proof.
  induction es as [|e es IH]; intros [|d data] steps Hlen; simplify_eq/=; [done|].
  rewrite omap_app, length_app, losses_epoch_log, IH by done.
  by rewrite length_fmap.
Qed.

Lemma prints_loop_log epochs pe es :
  pe ≠ 0 →
  ∀ data steps, length es = length data →
  length (omap printed_of (loop_log epochs pe steps es data)) =
  (steps + sum_list (length <$> data)) / pe - steps / pe.
Proof.
  intros Hpe.
  induction es as [|e es IH]; intros [|d data] steps Hlen; simplify_eq/=.
  - rewrite Nat.add_0_r. lia.
  - rewrite omap_app, length_app, prints_epoch_log, IH by done.
    assert (steps ≤ steps + length d) as H1 by lia.
    assert (steps + length d ≤ steps + length d + sum_list (length <$> data)) as H2 by lia.
    apply (Nat.Div0.div_le_mono _ _ pe) in H1, H2.
    rewrite Nat.add_assoc. lia.
Qed.

Lemma loader_lengths {A} (trainloader : nat → list A) (f : A → nat) es
    (data : list (list (nat * Q))) :
  Forall2 (λ e d, d.*1 = f <$> trainloader e) es data →
  length es = length data ∧
  sum_list (length <$> data) = sum_list ((λ e, length (trainloader e)) <$> es).
Proof.
  induction 1 as [|e d es data Hd _ [IH1 IH2]]; [done|].
  split; [simpl; by rewrite IH1|].
  rewrite !fmap_cons.
  change (length d + sum_list (length <$> data) =
          length (trainloader e) + sum_list ((λ e, length (trainloader e)) <$> es)).
  rewrite IH2. f_equal.
  by rewrite <-(length_fmap fst d), Hd, length_fmap.
Qed.

Lemma count_backward n :
  length (filter (λ c, c = CBackward) (mjoin (replicate n batch_calls))) = n.
Proof.
  induction n as [|n IH]; [done|].
  change (mjoin (replicate (S n) batch_calls))
    with (batch_calls ++ mjoin (replicate n batch_calls)).
  by rewrite filter_app, length_app, IH.
Qed.

Lemma count_step n :
  length (filter (λ c, c = CStep) (mjoin (replicate n batch_calls))) = n.
Proof.
  induction n as [|n IH]; [done|].
  change (mjoin (replicate (S n) batch_calls))
    with (batch_calls ++ mjoin (replicate n batch_calls)).
  by rewrite filter_app, length_app, IH.
Qed.

(** * The training loop *)

Lemma forward_shape_model n : forward_shape Part3.model.*2 [n; 784] = Ok [n; 10].
Proof. reflexivity. Qed.

Section TrainingProofs.
Context {State : Type}.
Variable forward_values : State → Tensor → list Z.
Variable loss_value : Tensor → Tensor → Q.
Variable zero_grad_state : State → State.
Variable backward_state : State → Loss → State.
Variable step_state : State → State.
Variable uninit : nat → Z.
Variable validation_values : State → list Batch → Q * Q.

Abbreviation train_batch :=
  (Part3.train_batch forward_values loss_value zero_grad_state backward_state
     step_state uninit).
Abbreviation train_epoch :=
  (Part3.train_epoch forward_values loss_value zero_grad_state backward_state
     step_state uninit).
Abbreviation train_epochs :=
  (Part3.train_epochs forward_values loss_value zero_grad_state backward_state
     step_state uninit).
Abbreviation training_loop :=
  (Part3.training_loop forward_values loss_value zero_grad_state backward_state
     step_state uninit).
Abbreviation fc_train_batch :=
  (fc_model.train_batch forward_values loss_value zero_grad_state backward_state
     step_state uninit validation_values).
Abbreviation fc_train_epochs :=
  (fc_model.train_epochs forward_values loss_value zero_grad_state backward_state
     step_state uninit validation_values).
Abbreviation fc_train :=
  (fc_model.train forward_values loss_value zero_grad_state backward_state
     step_state uninit validation_values).
Abbreviation single_step :=
  (Part3.single_step forward_values loss_value zero_grad_state backward_state
     step_state uninit).

Lemma train_batch_ok epochs pe e steps rl (b : Batch) (s : State) :
  pe ≠ 0 → batch_ok b →
  ∃ s' v,
    train_batch e epochs pe (steps, rl) b s =
      (s',
       batch_events (batch_size b) v ++
         (if decide ((steps + 1) mod pe = 0)
          then [EPrintLoss (e + 1) epochs ((rl + v) / inject_Z (Z.of_nat pe))%Q]
          else []),
       Ok (steps + 1, if decide ((steps + 1) mod pe = 0) then 0%Q else (rl + v)%Q)).
Proof.
  intros Hpe (n & dims & Himg & Hlab). destruct b as [images labels].
  simpl in Himg, Hlab. unfold batch_size. simpl. rewrite Himg. simpl.
  unfold Part3.train_batch, size0. rewrite Himg.
  unfold resize_, model_forward, criterion, lift, mbind, M_bind,
    emit, mret, M_ret, optimizer_zero_grad, loss_backward,
    optimizer_step.
  cbn [shape]. rewrite forward_shape_model. cbn [shape]. rewrite Hlab.
  rewrite (decide_True (P := n = n)) by done.
  rewrite (decide_False (P := pe = 0)) by done.
  case_decide; eexists _, _; cbn [item app]; reflexivity.
Qed.

Lemma for_batches_ok epochs pe e (bs : list Batch) :
  pe ≠ 0 → Forall batch_ok bs →
  ∀ steps rl (s : State),
  ∃ s' vs rl',
    length vs = length bs ∧
    for_batches (train_batch e epochs pe) bs (steps, rl) s =
      (s', epoch_log epochs pe e steps rl (zip (batch_size <$> bs) vs),
       Ok (steps + length bs, rl')).
Proof.
  intros Hpe Hok. induction Hok as [|b bs Hb _ IH]; intros steps rl s.
  - exists s, [], rl. split; [done|]. simpl. unfold mret, M_ret.
    by rewrite Nat.add_0_r.
  - destruct (train_batch_ok epochs pe e steps rl b s Hpe Hb) as (s1 & v & Hrun).
    change (for_batches ?f (b :: bs) ?acc s) with
      ((acc' ← f acc b; for_batches f bs acc') s).
    unfold mbind, M_bind. rewrite Hrun.
    match goal with
    | |- context [for_batches _ bs ?acc s1] =>
        destruct acc as [steps1 rl1] eqn:Hacc
    end.
    destruct (IH steps1 rl1 s1) as (s' & vs & rl' & Hlen & Hrest).
    rewrite Hrest. exists s', (v :: vs), rl'. split; [simpl; by rewrite Hlen|].
    injection Hacc as <- Hrl1. simpl zip. rewrite epoch_log_cons.
    rewrite <-Hrl1. rewrite <-(assoc (++)).
    replace (steps + 1 + length bs) with (steps + S (length bs)) by lia.
    by case_decide.
Qed.

Lemma train_epoch_ok epochs pe steps e (bs : list Batch) (s : State) :
  pe ≠ 0 → Forall batch_ok bs →
  ∃ s' vs,
    length vs = length bs ∧
    train_epoch epochs pe steps e bs s =
      (s', epoch_log epochs pe e steps 0%Q (zip (batch_size <$> bs) vs),
       Ok (steps + length bs)).
Proof.
  intros Hpe Hok.
  destruct (for_batches_ok epochs pe e bs Hpe Hok steps 0%Q s)
    as (s' & vs & rl' & Hlen & Hrun).
  exists s', vs. split; [done|].
  unfold Part3.train_epoch, mbind, M_bind. rewrite Hrun. simpl.
  by rewrite app_nil_r.
Qed.

Lemma train_epochs_ok epochs pe (trainloader : nat → list Batch) (es : list nat) :
  pe ≠ 0 → (∀ e, Forall batch_ok (trainloader e)) →
  ∀ steps (s : State),
  ∃ s' data,
    Forall2 (λ e d, d.*1 = batch_size <$> trainloader e) es data ∧
    train_epochs epochs pe trainloader steps es s =
      (s', loop_log epochs pe steps es data,
       Ok (steps + sum_list ((λ e, length (trainloader e)) <$> es))).
Proof.
  intros Hpe Hok. induction es as [|e es IH]; intros steps s.
  - exists s, []. split; [constructor|]. simpl. unfold mret, M_ret.
    by rewrite Nat.add_0_r.
  - destruct (train_epoch_ok epochs pe steps e (trainloader e) s Hpe (Hok e))
      as (s1 & vs & Hlen & Hrun).
    destruct (IH (steps + length (trainloader e)) s1) as (s' & data & Hdata & Hrest).
    exists s', (zip (batch_size <$> trainloader e) vs :: data). split.
    + constructor; [|done]. rewrite fst_zip; [done|]. rewrite length_fmap. lia.
    + simpl. unfold mbind, M_bind. rewrite Hrun, Hrest. simpl.
      rewrite length_zip_with, length_fmap, Hlen, Nat.min_id.
      by rewrite Nat.add_assoc.
Qed.

(** Running the epochs [es1 ++ es2] is running [es1] and then [es2] from
    the state and the step count reached. *)
Lemma train_epochs_app epochs pe (trainloader : nat → list Batch) es1 es2 :
  ∀ steps (s : State) s1 log1 steps1,
  train_epochs epochs pe trainloader steps es1 s = (s1, log1, Ok steps1) →
  train_epochs epochs pe trainloader steps (es1 ++ es2) s =
    let '(s2, log2, r) := train_epochs epochs pe trainloader steps1 es2 s1 in
    (s2, log1 ++ log2, r).
Proof.
  induction es1 as [|e es1 IH]; intros steps s s1 log1 steps1 Hrun.
  - simpl in Hrun. unfold mret, M_ret in Hrun. simplify_eq. simpl.
    by destruct (train_epochs _ _ _ _ _ _) as [[??]?].
  - simpl in *. unfold mbind, M_bind in *.
    destruct (train_epoch epochs pe steps e (trainloader e) s) as [[sa la] [a|err]];
      [|done].
    destruct (train_epochs epochs pe trainloader a es1 sa) as [[sb lb] rb] eqn:Hb.
    injection Hrun as -> <- ->. rewrite (IH _ _ _ _ _ Hb).
    destruct (train_epochs epochs pe trainloader steps1 es2 s1) as [[s2 l2] r2].
    by rewrite (assoc (++)).
Qed.

(** ** What the loop never logs *)

Lemma emits_only_bind {A B} (P : event → Prop) (c : M State A) (f : A → M State B) :
  emits_only P c → (∀ a, emits_only P (f a)) → emits_only P (c ≫= f).
Proof.
  intros Hc Hf s. unfold mbind, M_bind. specialize (Hc s).
  destruct (c s) as [[s1 l1] [a|err]]; [|done].
  specialize (Hf a s1). destruct (f a s1) as [[s2 l2] r]. simpl in *.
  by apply Forall_app.
Qed.

Lemma emits_only_ret {A} (P : event → Prop) (a : A) :
  emits_only P (mret a : M State A).
Proof. intros s. constructor. Qed.

Lemma emits_only_raise {A} (P : event → Prop) e :
  emits_only P (raise e : M State A).
Proof. intros s. constructor. Qed.

Lemma emits_only_lift {A} (P : event → Prop) (r : result A) :
  emits_only P (lift r : M State A).
Proof. intros s. constructor. Qed.

Lemma emits_only_emit (P : event → Prop) ev :
  P ev → emits_only P (emit ev : M State unit).
Proof. intros Hev s. by repeat constructor. Qed.

Lemma train_batch_never_evaluates epochs pe e acc b :
  emits_only training_event (train_batch e epochs pe acc b).
Proof.
  destruct acc as [steps rl], b as [images labels]. unfold Part3.train_batch.
  apply emits_only_bind; [apply emits_only_lift|intros n].
  apply emits_only_bind.
  { apply emits_only_bind; [by apply emits_only_emit; intros []|].
    intros _. apply emits_only_ret. }
  intros images'.
  apply emits_only_bind; [intros s; repeat constructor; by intros []|intros _].
  apply emits_only_bind.
  { intros s. unfold model_forward.
    destruct (forward_shape _ _); repeat constructor. by intros []. }
  intros output.
  apply emits_only_bind.
  { unfold criterion.
    repeat case_match; try apply emits_only_raise.
    apply emits_only_bind; [by apply emits_only_emit; intros []|].
    intros _. apply emits_only_ret. }
  intros loss.
  apply emits_only_bind; [intros s; repeat constructor; by intros []|intros _].
  apply emits_only_bind; [intros s; repeat constructor; by intros []|intros _].
  repeat case_decide; try apply emits_only_raise; try apply emits_only_ret.
  apply emits_only_bind; [by apply emits_only_emit; intros []|].
  intros _. apply emits_only_ret.
Qed.

Lemma training_loop_never_evaluates epochs pe trainloader :
  emits_only training_event (training_loop epochs pe trainloader).
Proof.
  unfold Part3.training_loop. generalize 0 at 1. generalize (seq 0 epochs).
  intros es. induction es as [|e es IH]; intros steps; [apply emits_only_ret|].
  simpl. apply emits_only_bind; [|done].
  unfold Part3.train_epoch. apply emits_only_bind; [|intros; apply emits_only_ret].
  generalize (steps, 0%Q). induction (trainloader e) as [|b bs IHb]; intros acc.
  - apply emits_only_ret.
  - simpl. apply emits_only_bind; [apply train_batch_never_evaluates|done].
Qed.

(** ** The calls of any run, completed or not *)

Lemma train_batch_calls epochs pe e acc (b : Batch) (s : State) :
  calls (train_batch e epochs pe acc b s).1.2 `prefix_of` batch_calls ∧
  (is_ok (train_batch e epochs pe acc b s).2 →
   calls (train_batch e epochs pe acc b s).1.2 = batch_calls).
Proof.
  destruct acc as [steps rl], b as [images labels].
  unfold Part3.train_batch, size0.
  unfold resize_, model_forward, criterion, lift, raise, mbind,
    M_bind, emit, mret, M_ret, optimizer_zero_grad, loss_backward,
    optimizer_step.
  cbn [shape].
  destruct (shape images) as [|n dims].
  { split; [by exists batch_calls | intros []]. }
  cbn [shape]. rewrite forward_shape_model. cbn [shape].
  destruct (shape labels) as [|n' [|? ?]];
    try (split; [by exists [CLoss; CBackward; CStep] | intros []]).
  case_decide; [|split; [by exists [CLoss; CBackward; CStep] | intros []]].
  repeat case_decide; by split.
Qed.

Lemma for_batches_calls epochs pe e (bs : list Batch) :
  ∀ acc (s : State),
  ∃ j partial,
    calls (for_batches (train_batch e epochs pe) bs acc s).1.2 =
      mjoin (replicate j batch_calls) ++ partial ∧
    partial `prefix_of` batch_calls ∧
    (is_ok (for_batches (train_batch e epochs pe) bs acc s).2 →
     partial = [] ∧ j = length bs).
Proof.
  induction bs as [|b bs IH]; intros acc s.
  - exists 0, []. split_and!; [done|by exists batch_calls|done].
  - change (for_batches ?f (b :: bs) acc s) with
      ((acc' ← f acc b; for_batches f bs acc') s).
    unfold mbind, M_bind.
    destruct (train_batch_calls epochs pe e acc b s) as [Hpre Hok].
    destruct (train_batch e epochs pe acc b s) as [[s1 l1] [acc'|err]]; simpl in *.
    + destruct (IH acc' s1) as (j & partial & Hcalls & Hpartial & Hdone).
      destruct (for_batches _ bs acc' s1) as [[s2 l2] r2]; simpl in *.
      exists (S j), partial. split_and!; [|done|].
      * rewrite calls_app, Hok, Hcalls by done.
        change (mjoin (replicate (S j) batch_calls))
          with (batch_calls ++ mjoin (replicate j batch_calls)).
        by rewrite (assoc (++)).
      * intros Hr. destruct (Hdone Hr) as [-> ->]. done.
    + exists 0, (calls l1). split_and!; [done|done|intros []].
Qed.

Lemma train_epochs_cons epochs pe (trainloader : nat → list Batch) steps e es
    (s : State) :
  train_epochs epochs pe trainloader steps (e :: es) s =
  match for_batches (train_batch e epochs pe) (trainloader e) (steps, 0%Q) s with
  | (s1, l1, Ok acc') =>
      let '(s2, l2, r) := train_epochs epochs pe trainloader acc'.1 es s1 in
      (s2, l1 ++ l2, r)
  | (s1, l1, Raise err) => (s1, l1, Raise err)
  end.
Proof.
  change (train_epochs epochs pe trainloader steps (e :: es) s) with
    ((steps' ← train_epoch epochs pe steps e (trainloader e);
      train_epochs epochs pe trainloader steps' es) s).
  unfold Part3.train_epoch, mbind, M_bind.
  destruct (for_batches _ _ _ s) as [[s1 l1] [acc'|err]]; [|done].
  simpl. destruct (train_epochs _ _ _ _ _ _) as [[s2 l2] r].
  by rewrite app_nil_r.
Qed.

Lemma train_epochs_calls epochs pe (trainloader : nat → list Batch) (es : list nat) :
  ∀ steps (s : State),
  ∃ j partial,
    calls (train_epochs epochs pe trainloader steps es s).1.2 =
      mjoin (replicate j batch_calls) ++ partial ∧
    partial `prefix_of` batch_calls ∧
    (is_ok (train_epochs epochs pe trainloader steps es s).2 →
     partial = [] ∧ j = sum_list ((λ e, length (trainloader e)) <$> es)).
Proof.
  induction es as [|e es IH]; intros steps s.
  - exists 0, []. split_and!; [done|by exists batch_calls|done].
  - rewrite train_epochs_cons.
    destruct (for_batches_calls epochs pe e (trainloader e) (steps, 0%Q) s)
      as (j1 & p1 & Hc1 & Hp1 & Hd1).
    destruct (for_batches _ (trainloader e) (steps, 0%Q) s)
      as [[s1 l1] [acc'|err]]; simpl in Hc1, Hd1.
    + destruct (Hd1 I) as [-> ->].
      destruct (IH acc'.1 s1) as (j2 & p2 & Hc2 & Hp2 & Hd2).
      destruct (train_epochs epochs pe trainloader acc'.1 es s1) as [[s2 l2] r2];
        simpl in *.
      exists (length (trainloader e) + j2), p2. split_and!; [|done|].
      * rewrite calls_app, Hc1, Hc2, app_nil_r.
        by rewrite replicate_add, join_app, (assoc (++)).
      * intros Hr. destruct (Hd2 Hr) as [-> ->]. done.
    + exists j1, p1. split_and!; [done|done|intros []].
Qed.

Lemma single_step_calls (batches : list Batch) (s : State) :
  calls (single_step batches s).1.2 `prefix_of` batch_calls ∧
  (is_ok (single_step batches s).2 → calls (single_step batches s).1.2 = batch_calls).
Proof.
  unfold Part3.single_step, next_batch.
  destruct batches as [|[images labels] rest].
  { split; [by exists batch_calls | intros []]. }
  unfold resize_, model_forward, criterion, lift, raise, mbind,
    M_bind, emit, mret, M_ret, optimizer_zero_grad, loss_backward,
    optimizer_step.
  cbn [shape]. rewrite forward_shape_model. cbn [shape].
  destruct (shape labels) as [|n' [|? ?]];
    try (split; [by exists [CLoss; CBackward; CStep] | intros []]).
  case_decide; [|split; [by exists [CLoss; CBackward; CStep] | intros []]].
  by split.
Qed.

(** ** The training helper that evaluates *)

Lemma forward_shape_network (model : Network) n :
  wf_network model → input_size model = 784 →
  forward_shape (forward_layers model) [n; 784] = Ok [n; output_size model].
Proof.
  intros [_ Hch] Hin. rewrite Hin in Hch.
  by apply (forward_shape_chained (dropout_p model) n) in Hch.
Qed.

Lemma fc_train_batch_ok (model : Network) testloader epochs pe e steps rl
    (b : Batch) (s : State) :
  wf_network model → input_size model = 784 →
  pe ≠ 0 → batch_ok b →
  ∃ s' v tl acc,
    fc_train_batch model testloader epochs pe e (steps, rl) b s =
      (s',
       batch_events (batch_size b) v ++
         (if decide ((steps + 1) mod pe = 0)
          then [EValidation tl acc;
                EPrintValidation (e + 1) epochs
                  ((rl + v) / inject_Z (Z.of_nat pe))%Q tl acc]
          else []),
       Ok (steps + 1, if decide ((steps + 1) mod pe = 0) then 0%Q else (rl + v)%Q)).
Proof.
  intros Hwf Hin Hpe (n & dims & Himg & Hlab). destruct b as [images labels].
  simpl in Himg, Hlab. unfold batch_size. simpl. rewrite Himg. simpl.
  unfold fc_model.train_batch, size0. rewrite Himg.
  unfold resize_, model_forward, criterion, lift, mbind, M_bind,
    emit, mret, M_ret, optimizer_zero_grad, loss_backward,
    optimizer_step, fc_model.validation.
  cbn [shape]. rewrite (forward_shape_network model n Hwf Hin). cbn [shape].
  rewrite Hlab.
  rewrite (decide_True (P := n = n)) by done.
  rewrite (decide_False (P := pe = 0)) by done.
  case_decide; [|eexists _, _, 0%Q, 0%Q; cbn [item app]; reflexivity].
  cbn [item app].
  destruct (validation_values _ testloader) as [tl acc] eqn:Hval.
  eexists _, _, tl, acc. cbn [fst snd app]. reflexivity.
Qed.

Lemma evaluations_app l1 l2 : evaluations (l1 ++ l2) = evaluations l1 + evaluations l2.
Proof. unfold evaluations. by rewrite filter_app, length_app. Qed.

Lemma fc_for_batches_ok (model : Network) testloader epochs pe e (bs : list Batch) :
  wf_network model → input_size model = 784 →
  pe ≠ 0 → Forall batch_ok bs →
  ∀ steps rl (s : State),
  ∃ s' log rl',
    for_batches (fc_train_batch model testloader epochs pe e) bs (steps, rl) s =
      (s', log, Ok (steps + length bs, rl')) ∧
    length (omap loss_of log) = length bs ∧
    evaluations log = (steps + length bs) / pe - steps / pe.
Proof.
  intros Hwf Hin Hpe Hok. induction Hok as [|b bs Hb _ IH]; intros steps rl s.
  - exists s, [], rl. rewrite Nat.add_0_r. split_and!; [done|done|].
    unfold evaluations. simpl. lia.
  - destruct (fc_train_batch_ok model testloader epochs pe e steps rl b s
                Hwf Hin Hpe Hb) as (s1 & v & tl & acc & Hrun).
    change (for_batches ?f (b :: bs) ?a s) with
      ((acc' ← f a b; for_batches f bs acc') s).
    unfold mbind, M_bind. rewrite Hrun.
    match goal with
    | |- context [for_batches _ bs ?a s1] => destruct a as [steps1 rl1] eqn:Hacc
    end.
    injection Hacc as <- _.
    destruct (IH (steps + 1) rl1 s1) as (s' & log & rl' & Hrest & Hloss & Hev).
    rewrite Hrest. eexists s', _, rl'. split_and!.
    + by replace (steps + 1 + length bs) with (steps + S (length bs)) by lia.
    + rewrite !omap_app, !length_app, Hloss. by case_decide.
    + rewrite !evaluations_app, Hev. simpl length.
      replace (steps + S (length bs)) with (steps + 1 + length bs) by lia.
      pose proof (div_succ pe steps Hpe) as Hdiv.
      assert (steps + 1 ≤ steps + 1 + length bs) as Hle by lia.
      apply (Nat.Div0.div_le_mono _ _ pe) in Hle.
      case_decide; unfold evaluations at 1 2; simpl; lia.
Qed.

Lemma fc_train_epochs_ok (model : Network) testloader epochs pe
    (trainloader : nat → list Batch) (es : list nat) :
  wf_network model → input_size model = 784 →
  pe ≠ 0 → (∀ e, Forall batch_ok (trainloader e)) →
  ∀ steps rl (s : State),
  let total := sum_list ((λ e, length (trainloader e)) <$> es) in
  ∃ s' log rl',
    fc_train_epochs model testloader epochs pe trainloader (steps, rl) es s =
      (s', log, Ok (steps + total, rl')) ∧
    length (omap loss_of log) = total ∧
    evaluations log = (steps + total) / pe - steps / pe.
Proof.
  intros Hwf Hin Hpe Hok. induction es as [|e es IH]; intros steps rl s total.
  - exists s, [], rl. unfold total. simpl. rewrite Nat.add_0_r.
    split_and!; [done|done|]. unfold evaluations. simpl. lia.
  - destruct (fc_for_batches_ok model testloader epochs pe e (trainloader e)
                Hwf Hin Hpe (Hok e) steps rl s)
      as (s1 & l1 & rl1 & Hrun1 & Hloss1 & Hev1).
    destruct (IH (steps + length (trainloader e)) rl1 s1)
      as (s2 & l2 & rl2 & Hrun2 & Hloss2 & Hev2).
    change (fc_train_epochs model testloader epochs pe trainloader (steps, rl)
              (e :: es) s) with
      ((acc' ← for_batches (fc_train_batch model testloader epochs pe e)
                 (trainloader e) (steps, rl);
        fc_train_epochs model testloader epochs pe trainloader acc' es) s).
    unfold mbind, M_bind. rewrite Hrun1, Hrun2.
    set (rest := sum_list ((λ e, length (trainloader e)) <$> es)) in *.
    assert (total = length (trainloader e) + rest) as -> by done.
    exists s2, (l1 ++ l2), rl2. split_and!.
    + by rewrite Nat.add_assoc.
    + rewrite omap_app, length_app. lia.
    + rewrite evaluations_app, Hev1, Hev2, Nat.add_assoc.
      assert (steps ≤ steps + length (trainloader e)) as H1 by lia.
      assert (steps + length (trainloader e) ≤ steps + length (trainloader e) + rest)
        as H2 by lia.
      apply (Nat.Div0.div_le_mono _ _ pe) in H1, H2. lia.
Qed.

(** ** The run of the whole loop *)

Lemma training_loop_ok epochs pe (trainloader : nat → list Batch) (s : State) :
  pe ≠ 0 → (∀ e, Forall batch_ok (trainloader e)) →
  ∃ s' data,
    length data = epochs ∧
    sum_list (length <$> data) = steps_before trainloader epochs ∧
    training_loop epochs pe trainloader s =
      (s', loop_log epochs pe 0 (seq 0 epochs) data,
       Ok (steps_before trainloader epochs)).
Proof.
  intros Hpe Hok.
  destruct (train_epochs_ok epochs pe trainloader (seq 0 epochs) Hpe Hok 0 s)
    as (s' & data & Hdata & Hrun).
  destruct (loader_lengths trainloader batch_size _ _ Hdata) as [Hlen Hsum].
  exists s', data. rewrite length_seq in Hlen. split_and!; [done|done|].
  unfold Part3.training_loop. by rewrite Hrun.
Qed.




Ltac find_event :=
  solve [ apply list_elem_of_singleton; reflexivity
        | apply elem_of_app; left; find_event
        | apply elem_of_app; right; find_event ].

(** C9, amended.  The demonstration step resizes the images in place
    to 64 x 784 whatever their shape, which the resize itself does not
    refuse, and makes the forward pass on these 64 rows.  The labels being
    class indices, the step then succeeds exactly when there are 64 labels:
    the loss rejects any other number of labels, after the forward pass and
    before any backward pass or optimizer step.  The body of the training
    loop resizes the images of a batch of [n] images and [n] labels to
    [n] x 784 and succeeds on every such batch, so also on a final partial
    one. *)
Theorem resize_batch_sizes epochs pe e steps rl (images labels : Tensor)
    (rest : list Batch) (s : State) :
  class_indices labels →
  (EResize [64; 784] ∈ (single_step ((images, labels) :: rest) s).1.2 ∧
   EForward [64; 784] ∈ (single_step ((images, labels) :: rest) s).1.2 ∧
   (is_ok (single_step ((images, labels) :: rest) s).2 ↔ shape labels = [64]) ∧
   (∀ n, shape labels = [n] → n ≠ 64 →
      (single_step ((images, labels) :: rest) s).2 = Raise (BatchSizeMismatch 64 n)) ∧
   (¬ is_ok (single_step ((images, labels) :: rest) s).2 →
      calls (single_step ((images, labels) :: rest) s).1.2 = [CZeroGrad; CForward])) ∧
  (pe ≠ 0 → batch_ok (images, labels) →
   EResize [batch_size (images, labels); 784]
     ∈ (train_batch e epochs pe (steps, rl) (images, labels) s).1.2 ∧
   is_ok (train_batch e epochs pe (steps, rl) (images, labels) s).2).
Proof.
  intros _. split.
  - unfold Part3.single_step, next_batch.
    unfold resize_, model_forward, criterion, lift, raise, mbind, M_bind,
      emit, mret, M_ret, optimizer_zero_grad, loss_backward,
      optimizer_step.
    cbn [shape]. rewrite forward_shape_model. cbn [shape].
    destruct (shape labels) as [|n [|n' shape']] eqn:Hlab;
      [cbv beta iota zeta delta [fst snd]| |cbv beta iota zeta delta [fst snd]].
    + split_and!; [find_event|find_event| | |done].
      * split; [intros []|done].
      * intros k [=].
    + case_decide as Hn; cbv beta iota zeta delta [fst snd].
      * split_and!; [find_event|find_event| | |by intros []].
        -- split; [intros _; congruence|done].
        -- intros k [= <-] Hne. by destruct Hne.
      * split_and!; [find_event|find_event| | |done].
        -- split; [intros []|]. intros [= Heq]. by destruct Hn.
        -- intros k [= <-] _. reflexivity.
    + split_and!; [find_event|find_event| | |done].
      * split; [intros []|done].
      * intros k [=].
  - intros Hpe Hok.
    destruct (train_batch_ok epochs pe e steps rl (images, labels) s Hpe Hok)
      as (s' & v & ->).
    split; [|exact I]. cbv beta iota zeta delta [fst snd].
    apply elem_of_app. left. unfold batch_events. left.
Qed.

End TrainingProofs.

(** * The loops run on examples *)

Lemma demo_loader_ok count n dims e :
  Forall batch_ok (demo_loader count n dims e).
Proof.
  unfold demo_loader. apply Forall_replicate. by exists n, dims.
Qed.





(** The first print of the second epoch of the notebook's run, with a loss
    of one for every batch: 22 losses divided by 40. *)
Example second_epoch_first_print :
  let run := Part3.train_epoch demo_forward demo_loss id demo_backward id
               demo_uninit 3 40 938 1 (demo_loader 938 2 [1; 2; 2] 1) () in
  head (omap printed_of run.1.2) = Some ((0 + 1 + 1 + 1 + 1 + 1 + 1 + 1 + 1 + 1 + 1 + 1
                                          + 1 + 1 + 1 + 1 + 1 + 1 + 1 + 1 + 1 + 1 + 1)
                                         / inject_Z 40)%Q.
Proof. vm_compute. reflexivity. Qed.

Lemma resize_batch_sizes_witness :
  let step := Part3.single_step demo_forward demo_loss id demo_backward id demo_uninit
                [demo_batch 32 [1; 28; 28]] () in
  let body := Part3.train_batch demo_forward demo_loss id demo_backward id demo_uninit
                2 3 40 (2813, 0%Q) (demo_batch 32 [1; 28; 28]) () in
  class_indices (demo_batch 32 [1; 28; 28]).2 ∧
  EForward [64; 784] ∈ step.1.2 ∧
  step.2 = Raise (BatchSizeMismatch 64 32) ∧
  calls step.1.2 = [CZeroGrad; CForward] ∧
  is_ok body.2.
Proof.
  assert (Hlabels : class_indices (demo_batch 32 [1; 28; 28]).2).
  { apply (bool_decide_unpack _). vm_compute. reflexivity. }
  destruct (resize_batch_sizes demo_forward demo_loss id demo_backward id demo_uninit
              3 40 2 2813 0%Q (demo_batch 32 [1; 28; 28]).1
              (demo_batch 32 [1; 28; 28]).2 [] () Hlabels)
    as [(_ & Hforward & Hiff & Hstep & Hcalls) Hbody].
  destruct Hbody as [_ Hbody].
  - discriminate.
  - by exists 32, [1; 28; 28].
  - split_and!; [exact Hlabels | exact Hforward | | | exact Hbody].
    + apply Hstep; [reflexivity | discriminate].
    + apply Hcalls. intros Hok. apply Hiff in Hok. discriminate Hok.
Defined.

(** C9 as stated fails.  A batch of 64 images of 32 x 32 elements goes
    through the demonstration step, its first 64 x 784 elements taken as
    the images: the step asks nothing of the number of elements of an
    image.  And on the 32 images that end a pass over the 60000 training
    images the reshape to 64 x 784 refuses nothing: the forward pass is
    made on 64 rows and it is the loss that stops the step. *)
Lemma single_step_other_image_size :
  let batch := demo_batch 64 [1; 32; 32] in
  let run := Part3.single_step demo_forward demo_loss id demo_backward id demo_uninit
               [batch] () in
  let last := demo_batch (Z.to_nat 60000 mod 64) [1; 28; 28] in
  let run_last := Part3.single_step demo_forward demo_loss id demo_backward id
                    demo_uninit [last] () in
  (shape batch.1 = [64; 1; 32; 32] ∧
   class_indices batch.2 ∧
   run.2 = Ok () ∧
   omap forwarded_of run.1.2 = [[64; 784]]) ∧
  (shape last.1 = [32; 1; 28; 28] ∧
   omap forwarded_of run_last.1.2 = [[64; 784]] ∧
   run_last.2 = Raise (BatchSizeMismatch 64 32)).
Proof.
  intros batch run last run_last. split; split_and!.
  - vm_compute. reflexivity.
  - apply (bool_decide_unpack _). vm_compute. reflexivity.
  - vm_compute. reflexivity.
  - vm_compute. reflexivity.
  - vm_compute. reflexivity.
  - vm_compute. reflexivity.
  - vm_compute. reflexivity.
Qed.

(** * What the training loop leaves and prints *)

Section TrainingRuns.
Context {State : Type}.
Variable forward_values : State → Tensor → list Z.
Variable loss_value : Tensor → Tensor → Q.
Variable zero_grad_state : State → State.
Variable backward_state : State → Loss → State.
Variable step_state : State → State.
Variable uninit : nat → Z.

Abbreviation train_batch :=
  (Part3.train_batch forward_values loss_value zero_grad_state backward_state
     step_state uninit).
Abbreviation train_epoch :=
  (Part3.train_epoch forward_values loss_value zero_grad_state backward_state
     step_state uninit).
Abbreviation train_epochs :=
  (Part3.train_epochs forward_values loss_value zero_grad_state backward_state
     step_state uninit).
Abbreviation training_loop :=
  (Part3.training_loop forward_values loss_value zero_grad_state backward_state
     step_state uninit).
Abbreviation single_step :=
  (Part3.single_step forward_values loss_value zero_grad_state backward_state
     step_state uninit).
Abbreviation loss_of_batch :=
  (batch_loss forward_values loss_value zero_grad_state uninit).
Abbreviation update :=
  (batch_update forward_values loss_value zero_grad_state backward_state
     step_state uninit).
Abbreviation losses_from :=
  (batch_losses forward_values loss_value zero_grad_state backward_state
     step_state uninit).

(** The body of the loop on a batch as a loader yields them, up to the
    point where it considers printing. *)
Lemma train_batch_run epochs pe e steps rl (b : Batch) (s : State) :
  batch_ok b →
  train_batch e epochs pe (steps, rl) b s =
    if decide (pe = 0)
    then (update s b, batch_events (batch_size b) (item (loss_of_batch s b)),
          Raise ZeroDivisionError)
    else
      (update s b,
       batch_events (batch_size b) (item (loss_of_batch s b)) ++
         (if decide ((steps + 1) mod pe = 0)
          then [EPrintLoss (e + 1) epochs
                  ((rl + item (loss_of_batch s b)) / inject_Z (Z.of_nat pe))%Q]
          else []),
       Ok (steps + 1,
           if decide ((steps + 1) mod pe = 0) then 0%Q
           else (rl + item (loss_of_batch s b))%Q)).
Proof.
  intros (n & dims & Himg & Hlab). destruct b as [images labels].
  simpl in Himg, Hlab.
  unfold batch_update, batch_loss, resized, batch_size. simpl. rewrite Himg. simpl.
  unfold Part3.train_batch, size0. rewrite Himg.
  unfold resize_, model_forward, criterion, lift, raise, mbind, M_bind,
    emit, mret, M_ret, optimizer_zero_grad, loss_backward,
    optimizer_step.
  cbn [shape]. rewrite forward_shape_model. cbn [shape]. rewrite Hlab.
  rewrite (decide_True (P := n = n)) by done.
  case_decide; [reflexivity|].
  case_decide; reflexivity.
Qed.

Lemma for_batches_cons {A} (f : A → Batch → M State A) b bs acc (s : State) :
  for_batches f (b :: bs) acc s =
  match f acc b s with
  | (s1, l1, Ok acc') =>
      let '(s2, l2, r) := for_batches f bs acc' s1 in (s2, l1 ++ l2, r)
  | (s1, l1, Raise err) => (s1, l1, Raise err)
  end.
Proof.
  change (for_batches f (b :: bs) acc s) with
    ((acc' ← f acc b; for_batches f bs acc') s).
  unfold mbind, M_bind.
  destruct (f acc b s) as [[s1 l1] [acc'|err]]; [|done].
  by destruct (for_batches f bs acc' s1) as [[s2 l2] r].
Qed.

Lemma for_batches_app {A} (f : A → Batch → M State A) bs1 bs2 :
  ∀ acc (s : State) s1 log1 acc1,
  for_batches f bs1 acc s = (s1, log1, Ok acc1) →
  for_batches f (bs1 ++ bs2) acc s =
    let '(s2, log2, r) := for_batches f bs2 acc1 s1 in (s2, log1 ++ log2, r).
Proof.
  induction bs1 as [|b bs1 IH]; intros acc s s1 log1 acc1 Hrun.
  - injection Hrun as <- <- <-. simpl.
    by destruct (for_batches f bs2 acc s) as [[s2 log2] r].
  - rewrite for_batches_cons in Hrun. rewrite <-app_comm_cons, for_batches_cons.
    destruct (f acc b s) as [[s0 l0] [acc0|err]]; [|done].
    destruct (for_batches f bs1 acc0 s0) as [[s' l'] r'] eqn:Hrest.
    injection Hrun as <- <- ->.
    rewrite (IH _ _ _ _ _ Hrest).
    destruct (for_batches f bs2 acc1 s') as [[s2 log2] r].
    by rewrite (assoc (++)).
Qed.

Lemma length_batch_losses (s : State) bs : length (losses_from s bs) = length bs.
Proof. revert s. induction bs as [|b bs IH]; intros s; simpl; [done|]. by rewrite IH. Qed.

Lemma batch_losses_app (s : State) bs1 bs2 :
  losses_from s (bs1 ++ bs2) = losses_from s bs1 ++ losses_from (foldl update s bs1) bs2.
Proof. revert s. induction bs1 as [|b bs1 IH]; intros s; simpl; [done|]. by rewrite IH. Qed.

(** The inner loop on batches as a loader yields them. *)
Lemma for_batches_run epochs pe e (bs : list Batch) :
  pe ≠ 0 → Forall batch_ok bs →
  ∀ steps rl (s : State),
  ∃ rl',
    for_batches (train_batch e epochs pe) bs (steps, rl) s =
      (foldl update s bs,
       epoch_log epochs pe e steps rl (zip (batch_size <$> bs) (losses_from s bs)),
       Ok (steps + length bs, rl')).
Proof.
  intros Hpe Hok. induction Hok as [|b bs Hb _ IH]; intros steps rl s.
  - exists rl. simpl. unfold mret, M_ret. by rewrite Nat.add_0_r.
  - rewrite for_batches_cons, (train_batch_run _ _ _ _ _ _ _ Hb).
    rewrite (decide_False (P := pe = 0)) by done.
    match goal with
    | |- context [for_batches _ bs (?st, ?r) _] =>
        destruct (IH st r (update s b)) as (rl' & Hrest)
    end.
    rewrite Hrest. exists rl'. simpl zip. rewrite epoch_log_cons.
    replace (steps + 1 + length bs) with (steps + length (b :: bs)) by (simpl; lia).
    simpl foldl. simpl batch_losses.
    rewrite <-(assoc (++)). by case_decide.
Qed.

Lemma train_epoch_run epochs pe steps e (bs : list Batch) (s : State) :
  pe ≠ 0 → Forall batch_ok bs →
  train_epoch epochs pe steps e bs s =
    (foldl update s bs,
     epoch_log epochs pe e steps 0%Q (zip (batch_size <$> bs) (losses_from s bs)),
     Ok (steps + length bs)).
Proof.
  intros Hpe Hok.
  destruct (for_batches_run epochs pe e bs Hpe Hok steps 0%Q s) as (rl' & Hrun).
  unfold Part3.train_epoch, mbind, M_bind. rewrite Hrun. simpl.
  by rewrite app_nil_r.
Qed.

Lemma losses_epoch_log_run epochs pe e steps rl (bs : list Batch) (s : State) :
  omap loss_of
    (epoch_log epochs pe e steps rl (zip (batch_size <$> bs) (losses_from s bs)))
  = losses_from s bs.
Proof.
  rewrite losses_epoch_log. apply snd_zip.
  by rewrite length_fmap, length_batch_losses.
Qed.

Lemma all_batches_S (trainloader : nat → list Batch) e :
  all_batches trainloader (S e) = all_batches trainloader e ++ trainloader e.
Proof.
  unfold all_batches. rewrite seq_S, fmap_app, join_app. simpl.
  by rewrite app_nil_r.
Qed.

Lemma length_all_batches (trainloader : nat → list Batch) e :
  length (all_batches trainloader e) = steps_before trainloader e.
Proof.
  unfold all_batches, steps_before. induction (seq 0 e) as [|x l IH]; [done|].
  rewrite !fmap_cons. cbn [mjoin list_join sum_list sum_list_with].
  rewrite length_app. unfold id. f_equal. exact IH.
Qed.

Lemma calls_epoch_log_run epochs pe e steps rl (bs : list Batch) (s : State) :
  calls (epoch_log epochs pe e steps rl (zip (batch_size <$> bs) (losses_from s bs)))
  = mjoin (replicate (length bs) batch_calls).
Proof.
  rewrite calls_epoch_log, length_zip_with, length_fmap, length_batch_losses.
  by rewrite Nat.min_id.
Qed.

Lemma replicate_calls_add n k :
  mjoin (replicate (n + k) batch_calls) =
  mjoin (replicate n batch_calls) ++ mjoin (replicate k batch_calls).
Proof. by rewrite replicate_add, join_app. Qed.

(** The outer loop over the epochs [es]. *)
Lemma train_epochs_run epochs pe (trainloader : nat → list Batch) (es : list nat) :
  pe ≠ 0 → (∀ e, e ∈ es → Forall batch_ok (trainloader e)) →
  ∀ steps (s : State),
  ∃ log,
    train_epochs epochs pe trainloader steps es s =
      (foldl update s (mjoin (trainloader <$> es)), log,
       Ok (steps + length (mjoin (trainloader <$> es)))) ∧
    omap loss_of log = losses_from s (mjoin (trainloader <$> es)) ∧
    calls log = mjoin (replicate (length (mjoin (trainloader <$> es))) batch_calls).
Proof.
  intros Hpe. induction es as [|e es IH]; intros Hok steps s.
  - exists []. simpl. unfold mret, M_ret. by rewrite Nat.add_0_r.
  - change (train_epochs epochs pe trainloader steps (e :: es) s) with
      ((steps' ← train_epoch epochs pe steps e (trainloader e);
        train_epochs epochs pe trainloader steps' es) s).
    unfold mbind, M_bind.
    rewrite (train_epoch_run _ _ _ _ _ _ Hpe (Hok e ltac:(left))).
    destruct (IH (λ e' He', Hok e' ltac:(by right))
                (steps + length (trainloader e)) (foldl update s (trainloader e)))
      as (log & Hrest & Hlosses & Hcalls).
    rewrite Hrest. eexists. split_and!.
    + simpl. rewrite foldl_app, length_app. by rewrite Nat.add_assoc.
    + simpl. rewrite omap_app, losses_epoch_log_run, Hlosses.
      by rewrite batch_losses_app.
    + simpl. rewrite calls_app, calls_epoch_log_run, Hcalls, length_app.
      by rewrite replicate_calls_add.
Qed.

Lemma training_loop_run epochs pe (trainloader : nat → list Batch) (s : State) :
  pe ≠ 0 → (∀ e, Forall batch_ok (trainloader e)) →
  ∃ log,
    training_loop epochs pe trainloader s =
      (foldl update s (all_batches trainloader epochs), log,
       Ok (length (all_batches trainloader epochs))) ∧
    omap loss_of log = losses_from s (all_batches trainloader epochs).
Proof.
  intros Hpe Hok.
  destruct (train_epochs_run epochs pe trainloader (seq 0 epochs) Hpe
              (λ e _, Hok e) 0 s) as (log & Hrun & Hlosses & _).
  exists log. split; [|done]. unfold Part3.training_loop. by rewrite Hrun.
Qed.



(** The body of the loop on a batch whose labels are not as many as its
    images. *)
Lemma train_batch_mismatch epochs pe e acc (images labels : Tensor) n n' dims
    (s : State) :
  shape images = n :: dims → shape labels = [n'] → n ≠ n' →
  train_batch e epochs pe acc (images, labels) s =
    (zero_grad_state s, [EResize [n; 784]; EZeroGrad; EForward [n; 784]],
     Raise (BatchSizeMismatch n n')).
Proof.
  intros Himg Hlab Hne. destruct acc as [steps rl].
  unfold Part3.train_batch, size0. rewrite Himg.
  unfold resize_, model_forward, criterion, lift, raise, mbind, M_bind,
    emit, mret, M_ret, optimizer_zero_grad, loss_backward,
    optimizer_step.
  cbn [shape]. rewrite forward_shape_model. cbn [shape]. rewrite Hlab.
  by rewrite (decide_False (P := n = n')).
Qed.

Lemma seq_split_at e epochs :
  e < epochs → seq 0 epochs = seq 0 e ++ e :: seq (S e) (epochs - S e).
Proof.
  intros He. change (e :: seq (S e) (epochs - S e)) with (seq e (S (epochs - S e))).
  rewrite <-seq_app. f_equal. lia.
Qed.


(** ** The values printed *)

Lemma mod_succ pe steps :
  pe ≠ 0 →
  (steps + 1) mod pe = if decide (steps mod pe + 1 = pe) then 0 else steps mod pe + 1.
Proof.
  intros Hpe. pose proof (Nat.div_mod steps pe Hpe) as Hdm.
  pose proof (Nat.mod_upper_bound steps pe Hpe) as Hlt.
  case_decide as Hcase.
  - symmetry. apply (Nat.mod_unique _ _ (steps / pe + 1)); [lia|]. lia.
  - symmetry. apply (Nat.mod_unique _ _ (steps / pe)); [lia|]. lia.
Qed.

Lemma length_print_windows window log :
  length (print_windows window log) = length (omap printed_of log).
Proof.
  revert window. induction log as [|ev log IH]; intros window; [done|].
  destruct ev; simpl; by rewrite ?IH.
Qed.

Lemma print_windows_losses log :
  ∀ window, ∃ rest,
    mjoin (print_windows window log).*2 ++ rest = window ++ omap loss_of log.
Proof.
  induction log as [|ev log IH]; intros window.
  - exists window. simpl. by rewrite app_nil_r.
  - destruct ev; try (destruct (IH window) as (rest & Hrest); by exists rest).
    + destruct (IH (window ++ [value])) as (rest & Hrest). exists rest.
      simpl. rewrite Hrest. by rewrite <-(assoc (++)).
    + destruct (IH []) as (rest & Hrest). exists rest.
      cbn [print_windows fmap list_fmap snd mjoin list_join omap list_omap loss_of].
      rewrite <-(assoc (++)). f_equal. exact Hrest.
Qed.

Lemma print_windows_epoch_log epochs pe e :
  pe ≠ 0 →
  ∀ bs steps window,
  let ws := print_windows window
              (epoch_log epochs pe e steps (foldl Qplus 0%Q window) bs) in
  Forall (λ pw, pw.1 = (sumQ pw.2 / inject_Z (Z.of_nat pe))%Q) ws ∧
  Forall (λ pw, length pw.2 = pe) (tail ws) ∧
  (length window = steps mod pe → Forall (λ pw, length pw.2 = pe) ws).
Proof.
  intros Hpe. induction bs as [|[n v] bs IH]; intros steps window ws.
  - unfold ws. simpl. by split_and!.
  - unfold ws. rewrite epoch_log_cons.
    change (print_windows window (batch_events n v ++ ?rest)) with
      (print_windows (window ++ [v]) rest).
    case_decide as Hprint; pose proof (mod_succ pe steps Hpe) as Hmod.
    + destruct (IH (steps + 1) []) as (Hval & _ & Hlen).
      specialize (Hlen ltac:(by rewrite Hprint)).
      cbn [print_windows]. split_and!.
      * constructor; [|exact Hval]. simpl. unfold sumQ. by rewrite foldl_app.
      * exact Hlen.
      * intros Hwin. constructor; [|exact Hlen]. simpl.
        rewrite length_app. simpl. case_decide; lia.
    + destruct (IH (steps + 1) (window ++ [v])) as (Hval & Htail & Hlen).
      rewrite foldl_app in Hval, Htail, Hlen. simpl in Hval, Htail, Hlen.
      split_and!; [done|done|].
      intros Hwin. apply Hlen. rewrite length_app. simpl. case_decide; lia.
Qed.

Lemma labels_epoch_log epochs pe e :
  pe ≠ 0 →
  ∀ bs steps rl,
  omap label_of (epoch_log epochs pe e steps rl bs) =
  replicate ((steps + length bs) / pe - steps / pe) (e + 1, epochs).
Proof.
  intros Hpe. induction bs as [|[n v] bs IH]; intros steps rl.
  - simpl. by rewrite Nat.add_0_r, Nat.sub_diag.
  - rewrite epoch_log_cons, omap_app.
    change (omap label_of (batch_events n v)) with (@nil (nat * nat)).
    pose proof (div_succ pe steps Hpe) as Hdiv.
    assert (steps + 1 ≤ steps + 1 + length bs) as Hle by lia.
    apply (Nat.Div0.div_le_mono _ _ pe) in Hle.
    replace (steps + length ((n, v) :: bs)) with (steps + 1 + length bs)
      by (simpl; lia).
    case_decide.
    + cbn [app omap list_omap label_of]. rewrite IH.
      replace ((steps + 1 + length bs) / pe - steps / pe)
        with (S ((steps + 1 + length bs) / pe - (steps + 1) / pe)) by lia.
      done.
    + cbn [app]. rewrite IH. f_equal. lia.
Qed.


Lemma steps_before_S (trainloader : nat → list Batch) e :
  steps_before trainloader (S e) = steps_before trainloader e + length (trainloader e).
Proof. by rewrite <-!length_all_batches, all_batches_S, length_app. Qed.

Lemma train_epochs_labels epochs pe (trainloader : nat → list Batch) :
  pe ≠ 0 → (∀ e, Forall batch_ok (trainloader e)) →
  ∀ n start (s : State),
  omap label_of
    (train_epochs epochs pe trainloader (steps_before trainloader start)
       (seq start n) s).1.2 =
  mjoin ((λ e, replicate (steps_before trainloader (S e) / pe
                          - steps_before trainloader e / pe) (e + 1, epochs))
         <$> seq start n).
Proof.
  intros Hpe Hok. induction n as [|n IH]; intros start s; [done|].
  change (seq start (S n)) with (start :: seq (S start) n).
  change (train_epochs epochs pe trainloader ?steps (start :: ?es) s) with
    ((steps' ← train_epoch epochs pe steps start (trainloader start);
      train_epochs epochs pe trainloader steps' es) s).
  unfold mbind, M_bind. rewrite (train_epoch_run _ _ _ _ _ _ Hpe (Hok start)).
  rewrite <-steps_before_S.
  specialize (IH (S start) (foldl update s (trainloader start))).
  destruct (train_epochs epochs pe trainloader _ (seq (S start) n) _) as [[s2 l2] r].
  cbn [fst snd] in *. rewrite omap_app, IH, labels_epoch_log by done.
  rewrite fmap_cons. cbn [mjoin list_join]. f_equal. f_equal.
  rewrite steps_before_S, length_zip_with, length_fmap, length_batch_losses.
  by rewrite Nat.min_id.
Qed.


(** ** The demonstration step and the resize *)

(** X6.  The demonstration step on a batch of 64 labels that are class
    indices: it prints the weights, resizes, clears the gradients, makes the
    forward pass, computes the loss, propagates it back, prints the gradient
    and only then takes the optimizer step, so that the gradient printed is
    the one the step applies, computed from cleared gradients; the batches
    after the first play no part.  When the batch holds 64 images as well,
    the step leaves the state that one pass through the body of the
    training loop leaves from the same state, and computes the same loss. *)
Theorem single_step_first_batch (b : Batch) (rest : list Batch) (s : State) :
  class_indices b.2 →
  shape b.2 = [64] →
  (let images := resized uninit b.1 [64; 784] in
   let output := mkTensor [64; 10] (forward_values (zero_grad_state s) images) in
   let loss := mkLoss (loss_value output b.2) output b.2 in
   single_step (b :: rest) s =
     (step_state (backward_state (zero_grad_state s) loss),
      [EPrintWeights; EResize [64; 784]; EZeroGrad; EForward [64; 784];
       ELoss (item loss); EBackward; EPrintGradient; EStep],
      Ok ())) ∧
  (batch_size b = 64 →
   (single_step (b :: rest) s).1.1 = update s b ∧
   omap loss_of (single_step (b :: rest) s).1.2 = [item (loss_of_batch s b)] ∧
   ∀ e epochs pe steps rl,
     (train_batch e epochs pe (steps, rl) b s).1.1 = (single_step (b :: rest) s).1.1 ∧
     omap loss_of (train_batch e epochs pe (steps, rl) b s).1.2 =
       omap loss_of (single_step (b :: rest) s).1.2).
Proof.
  intros _ Hlab.
  assert (single_step (b :: rest) s =
            (let images := resized uninit b.1 [64; 784] in
             let output := mkTensor [64; 10] (forward_values (zero_grad_state s) images) in
             let loss := mkLoss (loss_value output b.2) output b.2 in
             (step_state (backward_state (zero_grad_state s) loss),
              [EPrintWeights; EResize [64; 784]; EZeroGrad; EForward [64; 784];
               ELoss (item loss); EBackward; EPrintGradient; EStep],
              Ok ()))) as Hrun.
  { destruct b as [imgs labels]. simpl in Hlab.
    unfold Part3.single_step, next_batch.
    unfold resize_, model_forward, criterion, lift, mbind, M_bind,
      emit, mret, M_ret, optimizer_zero_grad, loss_backward,
      optimizer_step.
    cbn [shape]. rewrite forward_shape_model. cbn [shape]. rewrite Hlab.
    rewrite (decide_True (P := 64 = 64)) by done.
    reflexivity. }
  split; [exact Hrun|].
  intros Hsize.
  assert ((single_step (b :: rest) s).1.1 = update s b ∧
          omap loss_of (single_step (b :: rest) s).1.2 = [item (loss_of_batch s b)])
    as [Hstate Hloss].
  { rewrite Hrun. cbv zeta. cbn [fst snd].
    unfold batch_update, batch_loss. rewrite Hsize. done. }
  split_and!; [exact Hstate | exact Hloss |].
  intros e epochs pe steps rl.
  assert (batch_ok b) as Hok.
  { unfold batch_size in Hsize. destruct (shape b.1) as [|n dims] eqn:Himg.
    - discriminate Hsize.
    - simpl in Hsize. subst n. by exists 64, dims. }
  rewrite Hstate, Hloss, (train_batch_run epochs pe e steps rl b s Hok).
  case_decide.
  - split; reflexivity.
  - split; [reflexivity|]. cbn [fst snd]. rewrite omap_app.
    by case_decide.
Qed.

End TrainingRuns.

(** ** The loop run on examples, continued *)






Lemma single_step_first_batch_witness :
  let b := demo_batch 64 [1; 28; 28] in
  let step := Part3.single_step demo_forward demo_loss id demo_backward id demo_uninit
                [b; demo_batch 32 [1; 28; 28]] () in
  class_indices b.2 ∧
  step.2 = Ok () ∧
  (Part3.train_batch demo_forward demo_loss id demo_backward id demo_uninit
     0 3 40 (0, 0%Q) b ()).1.1 = step.1.1.
Proof.
  assert (Hlabels : class_indices (demo_batch 64 [1; 28; 28]).2).
  { apply (bool_decide_unpack _). vm_compute. reflexivity. }
  destruct (single_step_first_batch demo_forward demo_loss id demo_backward id
              demo_uninit (demo_batch 64 [1; 28; 28]) [demo_batch 32 [1; 28; 28]] ()
              Hlabels)
    as (Hrun & Hbody).
  - reflexivity.
  - destruct Hbody as (_ & _ & Hbody); [reflexivity|].
    split_and!; [exact Hlabels | | exact (proj1 (Hbody 0 3 40 0 0%Q))].
    cbv zeta in Hrun. cbv zeta.
    exact (f_equal snd Hrun).
Defined.

(** * Loading parameters, continued *)

Lemma load_entry_shape sd entry :
  prod_map id shape (load_entry sd entry) = prod_map id shape entry.
Proof.
  destruct entry as [k p]. unfold load_entry, load_param, prod_map. simpl.
  destruct (odict_get k sd) as [t|]; [|done]. by case_decide; simplify_eq/=; f_equal.
Qed.

(** Loading never changes the shape of a parameter. *)
Lemma param_shapes_load m sd :
  param_shapes (state_dict (load_state_dict m sd).1) = param_shapes (state_dict m).
Proof.
  rewrite state_dict_load. unfold param_shapes. rewrite <-list_fmap_compose.
  apply list_fmap_ext. intros i entry _. apply load_entry_shape.
Qed.

Lemma load_param_shape sd key p : shape (load_param sd key p) = shape p.
Proof.
  unfold load_param. destruct (odict_get key sd) as [t|]; [|done]. by case_decide.
Qed.

Lemma wf_linear_load sd prefix l : wf_linear l → wf_linear (load_linear sd prefix l).
Proof.
  intros [Hw Hb]. split; simpl; by rewrite load_param_shape.
Qed.

Lemma chained_load sd out : 
  ∀ ls i prev,
  chained prev (ls ++ [out]) →
  chained prev (load_hidden sd i ls ++ [load_linear sd "output." out]).
Proof.
  induction ls as [|l ls IH]; intros i prev.
  - simpl. intros (Hin & Hwf & _). split_and!; [done| |done]. by apply wf_linear_load.
  - simpl. intros (Hin & Hwf & Hch). split_and!; [done| |].
    + by apply wf_linear_load.
    + by apply IH.
Qed.

Lemma wf_network_load m sd : wf_network m → wf_network (load_state_dict m sd).1.
Proof.
  intros [Hne Hch]. rewrite load_state_dict_fst. split.
  - simpl. by destruct (hidden_layers m).
  - unfold input_size in *. simpl.
    replace (in_features (hd _ (load_hidden sd 0 (hidden_layers m))))
      with (in_features (hd (output m) (hidden_layers m)))
      by by destruct (hidden_layers m).
    by apply chained_load.
Qed.

Lemma keys_state_dict_load m sd :
  keys (state_dict (load_state_dict m sd).1) = keys (state_dict m).
Proof. by rewrite <-!keys_param_shapes, param_shapes_load. Qed.

(** What a parameter holds once [sd] has been loaded. *)
Lemma odict_get_load m sd key p :
  (key, p) ∈ state_dict m →
  odict_get key (state_dict (load_state_dict m sd).1) = Some (load_param sd key p).
Proof.
  intros Hin. apply odict_get_NoDup.
  - rewrite keys_state_dict_load. apply NoDup_keys_state_dict.
  - rewrite state_dict_load. apply list_elem_of_fmap. by exists (key, p).
Qed.

(** X8.  Loading a state dict is not all or nothing.  Whether the call
    succeeds or raises, every parameter of the model whose name is in the
    dict with the same shape has taken the value found in the dict, and
    every other parameter has kept its value; the sizes of the layers and
    the shapes of the parameters are never changed, and a well-formed
    network stays so.  A load that raises can thus leave a model that is
    neither the one before the call nor the one saved. *)
Theorem load_state_dict_partial (m : Network) (sd : StateDict) :
  let m' := (load_state_dict m sd).1 in
  (∀ key p, (key, p) ∈ state_dict m →
     odict_get key (state_dict m') =
     Some (match odict_get key sd with
           | Some t => if decide (shape t = shape p) then t else p
           | None => p
           end)) ∧
  keys (state_dict m') = keys (state_dict m) ∧
  param_shapes (state_dict m') = param_shapes (state_dict m) ∧
  input_size m' = input_size m ∧ output_size m' = output_size m ∧
  hidden_sizes m' = hidden_sizes m ∧
  (wf_network m → wf_network m').
Proof.
  intros m'. destruct (load_state_dict_features m sd) as (Hi & Ho & Hh & _).
  split_and!.
  - intros key p Hin. unfold m'. by rewrite (odict_get_load m sd key p Hin).
  - apply keys_state_dict_load.
  - apply param_shapes_load.
  - exact Hi.
  - exact Ho.
  - exact Hh.
  - apply wf_network_load.
Qed.

Lemma load_state_dict_partial_witness :
  let saved := Network_init ones 784 10 [5; 4; 3] in
  let model := Network_init zeros 784 10 [4; 2; 1] in
  odict_get "output.bias" (state_dict (load_state_dict model (state_dict saved)).1)
  = Some (mkTensor [10] (replicate 10 1%Z)).
Proof.
  intros saved model.
  destruct (load_state_dict_partial model (state_dict saved)) as (Hget & _).
  rewrite (Hget "output.bias" (mkTensor [10] (replicate 10 0%Z))).
  - vm_compute. reflexivity.
  - apply odict_get_state_dict. vm_compute. reflexivity.
Defined.

(** The load of the notebook that raises, on small layers: the saved
    network holds ones and the new one zeros; the bias of the output layer,
    the only parameter of the same shape on both sides, is overwritten. *)
Example load_state_dict_raises_and_writes :
  let saved := Network_init ones 784 10 [5; 4; 3] in
  let model := Network_init zeros 784 10 [4; 2; 1] in
  let run := load_state_dict model (state_dict saved) in
  ¬ is_ok run.2 ∧
  odict_get "output.bias" (state_dict model) = Some (mkTensor [10] (replicate 10 0%Z)) ∧
  odict_get "output.bias" (state_dict run.1) = Some (mkTensor [10] (replicate 10 1%Z)) ∧
  odict_get "output.weight" (state_dict run.1) = odict_get "output.weight" (state_dict model).
Proof. vm_compute. split_and!; [by intros []|done..]. Qed.

(** When the load succeeds the model holds the dict: every name has the
    same tensor on both sides. *)
Lemma load_state_dict_ok_lookup m sd :
  (load_state_dict m sd).2 = Ok () →
  ∀ key, odict_get key (state_dict (load_state_dict m sd).1) = odict_get key sd.
Proof.
  rewrite load_state_dict_snd. case_decide as Hok; [|done]. intros _ key.
  destruct Hok as (Hunexpected & Hmissing & Hsizes).
  destruct (decide (key ∈ keys (state_dict m))) as [Hin|Hnotin].
  - apply list_elem_of_fmap in Hin as (kp & Hk & Hin). destruct kp as [k p].
    simpl in Hk. subst key.
    rewrite (odict_get_load m sd k p Hin). unfold load_param.
    destruct (odict_get k sd) as [t|] eqn:Ht.
    + case_decide as Hshape; [done|]. exfalso.
      assert ((k, shape t, shape p) ∈ size_mismatches m sd) as Hbad.
      { apply elem_of_size_mismatches. rewrite Ht. split_and!; [done| |done].
        by rewrite (proj2 (odict_get_state_dict m k p) Hin). }
      rewrite Hsizes in Hbad. by apply elem_of_nil in Hbad.
    + exfalso. eapply (proj1 (filter_nil_iff _ _) Hmissing k); [|exact Ht].
      apply list_elem_of_fmap. by exists (k, p).
  - rewrite (proj2 (odict_get_None key _)) by by rewrite keys_state_dict_load.
    symmetry. apply odict_get_None. intros Hsd.
    by apply (proj1 (filter_nil_iff _ _) Hunexpected key Hsd).
Qed.

Lemma as_size_inv (z : Z) (n : nat) : as_size z = Ok n → n = Z.to_nat z ∧ (0 ≤ z)%Z.
Proof. unfold as_size. case_decide; [|done]. by intros [= <-]. Qed.

Lemma mapM_as_size_inv (hs : list Z) (hs' : list nat) :
  mapM as_size hs = Ok hs' → hs' = Z.to_nat <$> hs ∧ Forall (λ z, 0 ≤ z)%Z hs.
Proof.
  revert hs'. induction hs as [|z zs IH]; intros hs'.
  - intros [= <-]. by split.
  - change (mapM as_size (z :: zs)) with
      (y ← as_size z; k ← mapM as_size zs; mret (y :: k)).
    destruct (as_size z) as [y|err] eqn:Hy; [|done]. simpl.
    apply as_size_inv in Hy as [-> Hz].
    destruct (mapM as_size zs) as [k|err]; [|done]. simpl.
    intros [= <-]. destruct (IH k eq_refl) as [-> Hall]. split; [done|].
    by constructor.
Qed.

Lemma Network_call_inv init n_in n_out widths m :
  Network_call init n_in n_out widths = Ok m →
  ∃ (i o : Z) (hs : list Z),
    n_in = VInt i ∧ n_out = VInt o ∧ widths = VIntList hs ∧
    hs ≠ [] ∧ (0 ≤ i)%Z ∧ (0 ≤ o)%Z ∧ Forall (λ z, 0 ≤ z)%Z hs ∧
    m = Network_init init (Z.to_nat i) (Z.to_nat o) (Z.to_nat <$> hs).
Proof.
  unfold Network_call.
  destruct n_in as [i| | | |]; try done.
  destruct n_out as [o| | | |]; try done.
  destruct widths as [|hs| | |]; try done.
  destruct hs as [|h hs]; [done|].
  destruct (as_size i) as [i'|err] eqn:Hi; [|done].
  apply as_size_inv in Hi as [-> Hi].
  destruct (as_size o) as [o'|err] eqn:Ho; [|done].
  apply as_size_inv in Ho as [-> Ho].
  cbn -[mapM].
  destruct (mapM as_size (h :: hs)) as [hs'|err] eqn:Hm; [|done].
  apply mapM_as_size_inv in Hm as [-> Hall]. cbn.
  intros [= <-]. by exists i, o, (h :: hs).
Qed.

Lemma odict_get_map_to_list (d : gmap string PyVal) key :
  odict_get key (map_to_list d) = d !! key.
Proof.
  destruct (d !! key) as [v|] eqn:Hkey.
  - apply odict_get_NoDup; [apply NoDup_fst_map_to_list|].
    by apply elem_of_map_to_list.
  - apply odict_get_None. unfold keys. intros ((k & v) & -> & Hin)%list_elem_of_fmap.
    apply elem_of_map_to_list in Hin. simpl in Hkey. congruence.
Qed.

Lemma mapM_as_tensor_lookup (l : list (string * PyVal)) (sd : StateDict) key :
  mapM (λ kv, t ← as_tensor kv.2; mret (kv.1, t)) l = Ok sd →
  odict_get key l = VTensor <$> odict_get key sd.
Proof.
  revert sd. induction l as [|[k v] l IH]; intros sd; simpl.
  - by intros [= <-].
  - destruct v as [| |t| |]; try done. simpl.
    destruct (mapM _ l) as [sd'|err] eqn:Hm; [|done]. simpl.
    intros [= <-]. simpl. case_decide; [done|]. by apply IH.
Qed.

(** The entries of a value that [load_state_dict] takes for a state dict:
    those of the ordered dict, or those of the plain dict, which are all
    tensors. *)
Lemma as_state_dict_lookup v sd :
  as_state_dict v = Ok sd →
  v = VOrderedDict sd ∨
  ∃ d, v = VDict d ∧ ∀ key, d !! key = VTensor <$> odict_get key sd.
Proof.
  destruct v as [| | |sd'|d]; try done; simpl.
  - intros [= <-]. by left.
  - intros Hm. right. exists d. split; [done|]. intros key.
    rewrite <-odict_get_map_to_list. by apply mapM_as_tensor_lookup.
Qed.

(** X9.  Whenever [load_checkpoint] returns a model, the file exists and
    holds, under the four keys, two integers, a non-empty list of integers,
    none of them negative, and a state dict, ordered or plain; the model
    returned is a well-formed network with exactly the input size, the
    output size and the hidden widths recorded, and every parameter of the
    model is the tensor that the state dict records under its name. *)
Theorem load_checkpoint_sound init (filepath : string) (fs : FileSystem)
    (m : Network) :
  Part6.load_checkpoint init filepath fs = Ok m →
  ∃ obj (i o : Z) (hs : list Z) (v : PyVal),
    fs !! filepath = Some obj ∧
    getitem obj "input_size" = Ok (VInt i) ∧
    getitem obj "output_size" = Ok (VInt o) ∧
    getitem obj "hidden_layers" = Ok (VIntList hs) ∧
    getitem obj "state_dict" = Ok v ∧
    hs ≠ [] ∧ (0 ≤ i)%Z ∧ (0 ≤ o)%Z ∧ Forall (λ z, 0 ≤ z)%Z hs ∧
    wf_network m ∧
    input_size m = Z.to_nat i ∧
    output_size m = Z.to_nat o ∧
    hidden_sizes m = Z.to_nat <$> hs ∧
    ((∃ sd, v = VOrderedDict sd ∧
            ∀ key p, odict_get key (state_dict m) = Some p → odict_get key sd = Some p) ∨
     (∃ d, v = VDict d ∧
           ∀ key p, odict_get key (state_dict m) = Some p → d !! key = Some (VTensor p))).
Proof.
  unfold Part6.load_checkpoint, torch_load.
  destruct (fs !! filepath) as [obj|] eqn:Hfile; [|done]. simpl.
  destruct (getitem obj "input_size") as [n_in|] eqn:Hin; [|done]. simpl.
  destruct (getitem obj "output_size") as [n_out|] eqn:Hout; [|done]. simpl.
  destruct (getitem obj "hidden_layers") as [widths|] eqn:Hwidths; [|done]. simpl.
  destruct (Network_call init n_in n_out widths) as [model|] eqn:Hcall; [|done]. simpl.
  destruct (getitem obj "state_dict") as [sd_val|] eqn:Hsd; [|done]. simpl.
  destruct (as_state_dict sd_val) as [sd|] eqn:Has; [|done]. simpl.
  destruct (load_state_dict model sd) as [model' r] eqn:Hload.
  destruct r as [[]|err]; [|done]. simpl. intros [= <-].
  apply Network_call_inv in Hcall
    as (i & o & hs & -> & -> & -> & Hne & Hi & Ho & Hall & ->).
  assert (Z.to_nat <$> hs ≠ []) as Hne' by (by destruct hs).
  pose proof (load_state_dict_features
                (Network_init init (Z.to_nat i) (Z.to_nat o) (Z.to_nat <$> hs)) sd)
    as (Hfi & Hfo & Hfh & _).
  pose proof (load_state_dict_ok_lookup
                (Network_init init (Z.to_nat i) (Z.to_nat o) (Z.to_nat <$> hs)) sd)
    as Hlookup.
  pose proof (wf_network_load
                (Network_init init (Z.to_nat i) (Z.to_nat o) (Z.to_nat <$> hs)) sd
                (wf_network_init init _ _ _ Hne')) as Hwf.
  rewrite Hload in Hfi, Hfo, Hfh, Hlookup, Hwf. simpl in Hfi, Hfo, Hfh, Hlookup, Hwf.
  specialize (Hlookup eq_refl).
  exists obj, i, o, hs, sd_val. split_and!; try done.
  - by rewrite Hfi, input_size_init.
  - rewrite Hfh. apply hidden_sizes_new_hidden.
  - apply as_state_dict_lookup in Has as [->|(d & -> & Hd)].
    + left. exists sd. split; [done|]. intros key p. by rewrite Hlookup.
    + right. exists d. split; [done|]. intros key p Hp.
      by rewrite Hd, <-Hlookup, Hp.
Qed.

Lemma load_checkpoint_sound_witness :
  ∃ m, Part6.load_checkpoint zeros "checkpoint.pth"
         (Part6.save_checkpoint (Network_init ones 784 10 [4; 3]) ∅) = Ok m ∧
       hidden_sizes m = [4; 3] ∧
       odict_get "output.bias" (state_dict m) = Some (mkTensor [10] (replicate 10 1%Z)).
Proof.
  destruct (Part6.load_checkpoint zeros "checkpoint.pth"
              (Part6.save_checkpoint (Network_init ones 784 10 [4; 3]) ∅))
    as [m|err] eqn:Hload; [|by vm_compute in Hload].
  exists m. split; [done|].
  destruct (load_checkpoint_sound zeros "checkpoint.pth" _ m Hload)
    as (obj & i & o & hs & v & Hfile & _ & _ & Hhs & Hsd & _ & _ & _ & _ & _ & _ & _
        & Hhidden & Hparams).
  unfold Part6.save_checkpoint, torch_save in Hfile.
  rewrite lookup_insert_eq in Hfile. injection Hfile as <-.
  injection Hhs as <-. injection Hsd as <-.
  split; [exact Hhidden|].
  destruct Hparams as [(sd & [= <-] & Hparams)|(d & [=] & _)].
  destruct (odict_get "output.bias" (state_dict m)) as [p|] eqn:Hp.
  - apply Hparams in Hp. vm_compute in Hp. by injection Hp as <-.
  - apply odict_get_None in Hp. destruct Hp.
    rewrite keys_state_dict. apply elem_of_app. right. right. left.
Defined.

(** The same checkpoint with its parameters in a plain dict is loaded as
    well. *)
Example load_checkpoint_plain_dict :
  let m := Network_init ones 784 10 [2] in
  let plain := VDict (list_to_map (prod_map id VTensor <$> state_dict m)) in
  match Part6.load_checkpoint zeros "checkpoint.pth"
          {[ "checkpoint.pth" := VDict (<["state_dict" := plain]> (Part6.checkpoint m)) ]}
  with
  | Ok m' => state_dict m' = state_dict m
  | Raise _ => False
  end.
Proof. vm_compute. reflexivity. Qed.

(** * The session of the saving and loading notebook *)

Lemma keys_init_length init init' n_in n_out n_in' n_out' widths widths' :
  length widths = length widths' →
  keys (state_dict (Network_init init n_in n_out widths)) =
  keys (state_dict (Network_init init' n_in' n_out' widths')).
Proof.
  intros Hlen. rewrite <-!keys_param_shapes, !param_shapes_init.
  by apply keys_arch_shapes.
Qed.

(** A saved network loads into a fresh one only when the two have the
    same sizes. *)
Lemma load_init_ok_dims init (saved : Network) n_in n_out widths :
  wf_network saved →
  (load_state_dict (Network_init init n_in n_out widths) (state_dict saved)).2 = Ok () →
  (n_in, n_out, widths) = (input_size saved, output_size saved, hidden_sizes saved).
Proof.
  intros Hwf. rewrite load_state_dict_snd. case_decide as Hok; [|done]. intros _.
  destruct Hok as (Hunexpected & Hmissing & Hsizes).
  set (model := Network_init init n_in n_out widths) in *.
  assert (length widths = length (hidden_layers saved)) as Hlen.
  { destruct (decide (length widths < length (hidden_layers saved))) as [Hlt|Hge].
    - exfalso.
      eapply (proj1 (filter_nil_iff _ _) Hunexpected
                (hidden_prefix (length widths) +:+ "weight")).
      + by apply hidden_key_in_state_dict.
      + unfold model. rewrite hidden_key_in_state_dict, length_hidden_layers_init. lia.
    - destruct (decide (length (hidden_layers saved) < length widths)) as [Hgt|]; [|lia].
      exfalso.
      eapply (proj1 (filter_nil_iff _ _) Hmissing
                (hidden_prefix (length (hidden_layers saved)) +:+ "weight")).
      + apply hidden_key_in_state_dict. unfold model.
        by rewrite length_hidden_layers_init.
      + apply odict_get_None. rewrite hidden_key_in_state_dict. lia. }
  assert (keys (state_dict saved) = keys (state_dict model)) as Hkeys.
  { rewrite <-(keys_param_shapes (state_dict saved)),
      <-(keys_param_shapes (state_dict model)).
    rewrite (param_shapes_wf saved Hwf). unfold model. rewrite param_shapes_init.
    apply keys_arch_shapes. unfold hidden_sizes. by rewrite length_fmap. }
  apply (size_mismatches_nil_shapes model _ Hkeys) in Hsizes.
  rewrite (param_shapes_wf saved Hwf) in Hsizes. unfold model in Hsizes.
  rewrite param_shapes_init in Hsizes. symmetry. by apply arch_shapes_inj.
Qed.

Section NotebookSession.
Import Part6Cells.

Lemma run_cells_cons (cell : M Session unit) cells (g : Session) :
  run_cells (cell :: cells) g =
  ((run_cells cells (cell g).1.1).1, (cell g).2 :: (run_cells cells (cell g).1.1).2).
Proof. reflexivity. Qed.

Lemma cell_load_file_run (g : Session) obj :
  files g !! "checkpoint.pth" = Some obj →
  cell_load_file g = (mkSession (model_var g) obj (files g), [], Ok ()).
Proof.
  intros Hfile. unfold cell_load_file, read, lift, assign_state_dict, mbind, M_bind,
    torch_load.
  by rewrite Hfile.
Qed.

Lemma model_load_state_dict_run (g : Session) sd :
  model_load_state_dict (VOrderedDict sd) g =
  (mkSession (load_state_dict (model_var g) sd).1 (state_dict_var g) (files g), [],
   (load_state_dict (model_var g) sd).2).
Proof.
  unfold model_load_state_dict, load_into_model, lift, mbind, M_bind. simpl.
  by destruct (load_state_dict (model_var g) sd).
Qed.

Lemma cell_load_state_dict_run (g : Session) sd :
  state_dict_var g = VOrderedDict sd →
  cell_load_state_dict g =
  (mkSession (load_state_dict (model_var g) sd).1 (state_dict_var g) (files g), [],
   (load_state_dict (model_var g) sd).2).
Proof.
  intros Hsd. unfold cell_load_state_dict, read, mbind, M_bind.
  rewrite Hsd at 1. rewrite model_load_state_dict_run. by rewrite Hsd.
Qed.

Lemma Network_call_try_this init :
  Network_call init (VInt 784) (VInt 10) (VIntList [400; 200; 100]%Z) =
  Ok (Network_init init 784 10 [400; 200; 100]).
Proof.
  unfold Network_call. change [400; 200; 100]%Z with (Z.of_nat <$> [400; 200; 100]).
  rewrite mapM_as_size. reflexivity.
Qed.

Lemma cell_try_this_run init (g : Session) sd :
  state_dict_var g = VOrderedDict sd →
  cell_try_this init g =
  (mkSession (load_state_dict (Network_init init 784 10 [400; 200; 100]) sd).1
     (state_dict_var g) (files g), [],
   (load_state_dict (Network_init init 784 10 [400; 200; 100]) sd).2).
Proof.
  intros Hsd. unfold cell_try_this. rewrite Network_call_try_this.
  unfold read, lift, assign_model, mbind, M_bind. cbn [state_dict_var].
  rewrite Hsd at 1. rewrite model_load_state_dict_run. cbn [model_var state_dict_var files].
  by rewrite Hsd.
Qed.

Lemma cell_load_checkpoint_run init (g : Session) m :
  Part6.load_checkpoint init "checkpoint.pth" (files g) = Ok m →
  cell_load_checkpoint init g = (mkSession m (state_dict_var g) (files g), [], Ok ()).
Proof.
  intros Hload. unfold cell_load_checkpoint, read, lift, assign_model, mbind, M_bind.
  by rewrite Hload.
Qed.

(** X10.  Run in the order of their execution counts, the cells of the
    notebook from the first save to the call of [load_checkpoint] all end
    without an error except the one that loads the saved state dict into
    the network of hidden widths 400, 200 and 100, which raises unless the
    trained network has exactly these widths with 784 inputs and 10
    outputs.  That cell has bound [model] to the new network before it
    raises, so the checkpoint saved next describes the new network, and the
    model that [load_checkpoint] returns at the end has the hidden widths
    400, 200 and 100: each of its parameters is the trained tensor of the
    same name where the shapes agree and the fresh tensor of the new
    network elsewhere.  Unless the trained network had these sizes, the
    parameters restored are not the trained ones. *)
Theorem notebook_restores_new_network init10 init13 (g : Session) :
  let trained := model_var g in
  let fresh := Network_init init10 784 10 [400; 200; 100] in
  let run := run_cells (cells_7_to_13 init10 init13) g in
  let final := model_var run.1 in
  run.2 = [Ok (); Ok (); Ok (); (load_state_dict fresh (state_dict trained)).2;
           Ok (); Ok ()] ∧
  (wf_network trained →
   (input_size trained, output_size trained, hidden_sizes trained)
     ≠ (784, 10, [400; 200; 100]) →
   ¬ is_ok (load_state_dict fresh (state_dict trained)).2 ∧
   state_dict final ≠ state_dict trained) ∧
  input_size final = 784 ∧ output_size final = 10 ∧
  hidden_sizes final = [400; 200; 100] ∧
  ∀ key p, (key, p) ∈ state_dict fresh →
    odict_get key (state_dict final) =
    Some (match odict_get key (state_dict trained) with
          | Some t => if decide (shape t = shape p) then t else p
          | None => p
          end).
Proof.
  intros trained fresh run final.
  set (sd := state_dict trained).
  set (m9 := (load_state_dict trained sd).1).
  set (m10 := (load_state_dict fresh sd).1).
  assert ((load_state_dict trained sd).2 = Ok ()) as Hr9
    by by apply load_state_dict_same_shapes.
  assert (hidden_sizes m10 = [400; 200; 100]) as Hh10.
  { unfold m10. rewrite (proj1 (proj2 (proj2 (load_state_dict_features fresh sd)))).
    apply hidden_sizes_new_hidden. }
  assert (hidden_layers m10 ≠ []) as Hne10.
  { intros Hnil. unfold hidden_sizes in Hh10. by rewrite Hnil in Hh10. }
  assert (param_shapes (state_dict m10) = arch_shapes 784 10 [400; 200; 100]) as Hsh10.
  { unfold m10. rewrite param_shapes_load. apply param_shapes_init. }
  set (fs1 := Part6.save_state_dict trained (files g)).
  pose (model13 := Network_init init13 784 10 (hidden_sizes m10)).
  assert (param_shapes (state_dict m10) = param_shapes (state_dict model13)) as Hsame.
  { unfold model13. by rewrite param_shapes_init, Hh10. }
  destruct (load_state_dict_same_shapes model13 (state_dict m10) Hsame) as [Hr13 Hsd13].
  assert (Part6.load_checkpoint init13 "checkpoint.pth" (Part6.save_checkpoint m10 fs1)
          = Ok (load_state_dict model13 (state_dict m10)).1) as Hload.
  { rewrite (load_checkpoint_saved init13 m10 fs1 Hne10). fold model13.
    destruct (load_state_dict model13 (state_dict m10)) as [m' r].
    cbn [fst snd] in *. by subst r. }
  assert (run = (mkSession (load_state_dict model13 (state_dict m10)).1
                   (VOrderedDict sd) (Part6.save_checkpoint m10 fs1),
                 [Ok (); Ok (); Ok (); (load_state_dict fresh sd).2; Ok (); Ok ()]))
    as Hrun.
  { unfold run, cells_7_to_13. rewrite !run_cells_cons.
    change (cell_save_state_dict g) with
      (mkSession trained (state_dict_var g) fs1, @nil event, Ok ()).
    cbn [fst snd].
    rewrite (cell_load_file_run _ (VOrderedDict sd))
      by (unfold fs1, Part6.save_state_dict, torch_save; apply lookup_insert_eq).
    cbn [fst snd model_var state_dict_var files].
    rewrite (cell_load_state_dict_run _ sd) by done.
    cbn [fst snd model_var state_dict_var files].
    rewrite (cell_try_this_run init10 _ sd) by done.
    cbn [fst snd model_var state_dict_var files]. fold fresh. fold m10.
    change (cell_save_checkpoint ?g') with
      (mkSession (model_var g') (state_dict_var g')
         (Part6.save_checkpoint (model_var g') (files g')), @nil event, Ok ()).
    cbn [fst snd model_var state_dict_var files].
    rewrite (cell_load_checkpoint_run init13
               (mkSession m10 (VOrderedDict sd) (Part6.save_checkpoint m10 fs1))
               _ Hload).
    cbn [fst snd run_cells]. by rewrite Hr9. }
  rewrite Hrun. cbn [fst snd]. unfold final. rewrite Hrun. cbn [fst model_var].
  destruct (load_state_dict_features model13 (state_dict m10)) as (Hi13 & Ho13 & Hh13 & _).
  assert (hidden_sizes m10 ≠ []) as Hne by by rewrite Hh10.
  split_and!.
  - done.
  - intros Hwf Hdims. split.
    + intros Hok. apply Hdims. symmetry.
      apply (load_init_ok_dims init10 trained 784 10 [400; 200; 100] Hwf).
      change ((load_state_dict fresh sd).2 = Ok ()).
      by destruct (load_state_dict fresh sd).2 as [[]|].
    + rewrite Hsd13. intros Heq. apply Hdims.
      assert (param_shapes (state_dict trained) = arch_shapes 784 10 [400; 200; 100])
        as Hsh by (rewrite <-Hsh10; f_equal; symmetry; exact Heq).
      rewrite (param_shapes_wf trained Hwf) in Hsh. by apply arch_shapes_inj.
  - rewrite Hi13. unfold model13. by apply input_size_init.
  - by rewrite Ho13.
  - rewrite Hh13. unfold model13. rewrite Hh10. apply hidden_sizes_new_hidden.
  - intros key p Hin. rewrite Hsd13. unfold m10.
    by rewrite (odict_get_load fresh sd key p Hin).
Qed.

End NotebookSession.

Lemma notebook_restores_new_network_witness :
  let trained := Network_init ones 784 10 [5; 4; 3] in
  let g := Part6Cells.mkSession trained (VInt 0) ∅ in
  let run := Part6Cells.run_cells (Part6Cells.cells_7_to_13 zeros zeros) g in
  hidden_sizes (Part6Cells.model_var run.1) = [400; 200; 100] ∧
  state_dict (Part6Cells.model_var run.1) ≠ state_dict trained.
Proof.
  intros trained g run.
  destruct (notebook_restores_new_network zeros zeros g)
    as (_ & Hraises & _ & _ & Hhidden & _).
  split; [exact Hhidden|]. apply Hraises.
  - apply wf_network_init. discriminate.
  - intros Heq. apply (f_equal snd) in Heq. vm_compute in Heq. discriminate.
Defined.

(** * The prediction cell *)

Section PredictionProofs.
Context {State : Type}.
Variable forward_values : State → Tensor → list Z.
Variable softmax_values : Tensor → list Z.

Abbreviation prediction_cell :=
  (Part3Cells.prediction_cell forward_values softmax_values).

Lemma prediction_cell_run images labels rest n dims (s : State) :
  shape images = n :: dims → n ≠ 0 →
  prediction_cell ((images, labels) :: rest) s =
    if decide (numel dims = 784)
    then
      let img := mkTensor [1; 784] (take (numel dims) (data images)) in
      (s, [EForward [1; 784]],
       Ok (mkTensor [1; 28; 28] (take (numel dims) (data images)),
           mkTensor [1; 10] (softmax_values (mkTensor [1; 10] (forward_values s img)))))
    else (s, [], Raise ShapeError).
Proof.
  intros Himg Hn.
  unfold Part3Cells.prediction_cell, next_batch, select0, view,
    Part3Cells.softmax, model_forward, lift, mbind, M_bind, mret, M_ret.
  rewrite Himg. rewrite (decide_False (P := n = 0)) by done. cbn [shape data].
  change (numel [1; 784]) with 784. change (numel [1; 28; 28]) with 784.
  destruct (decide (784 = numel dims)) as [Heq|Hne].
  - rewrite (decide_True (P := numel dims = 784)) by done.
    cbv beta iota. cbn [shape].
    change (forward_shape Part3.model.*2 [1; 784]) with (@Ok (list nat) [1; 10]).
    cbn [shape length].
    rewrite (decide_True (P := 1 < 2)) by lia.
    reflexivity.
  - rewrite (decide_False (P := numel dims = 784)) by done. reflexivity.
Qed.

(** X11.  The prediction cell never changes the state of the model and
    makes no call of training: at most one forward pass.  It succeeds
    exactly when the loader yields a batch whose first dimension is not
    zero and whose images have 784 elements each; it then makes one
    forward pass on one row of 784 elements, the first image of the
    batch, and hands on that image as 1 x 28 x 28 and one row of 10
    probabilities.  Unlike the resize of the training cells, the view
    refuses an image of another size, before any forward pass. *)
Theorem prediction_cell_outcome (batches : list Batch) (s : State) :
  let run := prediction_cell batches s in
  run.1.1 = s ∧
  (calls run.1.2 = [] ∨ calls run.1.2 = [CForward]) ∧
  (is_ok run.2 ↔
   ∃ images labels rest n dims,
     batches = (images, labels) :: rest ∧
     shape images = n :: dims ∧ n ≠ 0 ∧ numel dims = 784) ∧
  (∀ images labels rest n dims,
     batches = (images, labels) :: rest →
     shape images = n :: dims → n ≠ 0 →
     if decide (numel dims = 784)
     then ∃ ps, run = (s, [EForward [1; 784]],
                       Ok (mkTensor [1; 28; 28] (take 784 (data images)), ps)) ∧
                shape ps = [1; 10]
     else run = (s, [], Raise ShapeError)).
Proof.
  intros run. unfold run.
  destruct batches as [|[images labels] rest].
  { split_and!; [done|by left| |done].
    split; [intros []|]. by intros (? & ? & ? & ? & ? & ? & _). }
  destruct (shape images) as [|n dims] eqn:Himg.
  { assert (prediction_cell ((images, labels) :: rest) s = (s, [], Raise IndexError))
      as ->.
    { unfold Part3Cells.prediction_cell, next_batch, select0, lift, mbind, M_bind,
        mret, M_ret. by rewrite Himg. }
    split_and!; [done|by left| |].
    - split; [intros []|]. intros (? & ? & ? & ? & ? & [= <- <- <-] & Hs & _).
      by rewrite Himg in Hs.
    - intros ? ? ? ? ? [= <- <- <-] Hs. by rewrite Himg in Hs. }
  destruct (decide (n = 0)) as [->|Hn].
  { assert (prediction_cell ((images, labels) :: rest) s = (s, [], Raise IndexError))
      as ->.
    { unfold Part3Cells.prediction_cell, next_batch, select0, lift, mbind, M_bind,
        mret, M_ret. by rewrite Himg. }
    split_and!; [done|by left| |].
    - split; [intros []|]. intros (? & ? & ? & ? & ? & [= <- <- <-] & Hs & Hn & _).
      rewrite Himg in Hs. by injection Hs as <- <-.
    - intros ? ? ? ? ? [= <- <- <-] Hs Hn. rewrite Himg in Hs. by injection Hs as <- <-. }
  rewrite (prediction_cell_run images labels rest n dims s Himg Hn).
  case_decide as Hsize.
  - split_and!; [done|by right| |].
    + split; [|done]. intros _. by exists images, labels, rest, n, dims.
    + intros ? ? ? n' dims' [= <- <- <-] Hs Hn'. rewrite Himg in Hs.
      injection Hs as <- <-. rewrite decide_True by done.
      eexists. rewrite Hsize. split; reflexivity.
  - split_and!; [done|by left| |].
    + split; [intros []|]. intros (? & ? & ? & ? & ? & [= <- <- <-] & Hs & _ & Hnum).
      rewrite Himg in Hs. by injection Hs as <- <-.
    + intros ? ? ? n' dims' [= <- <- <-] Hs Hn'. rewrite Himg in Hs.
      injection Hs as <- <-. by rewrite decide_False.
Qed.

End PredictionProofs.

Lemma prediction_cell_outcome_witness :
  let run := Part3Cells.prediction_cell demo_forward (λ t, data t)
               [demo_batch 2 [1; 28; 28]] () in
  ∃ ps, run.2 = Ok (mkTensor [1; 28; 28] (replicate 784 0%Z), ps) ∧ shape ps = [1; 10].
Proof.
  destruct (prediction_cell_outcome demo_forward (λ t, data t)
              [demo_batch 2 [1; 28; 28]] ()) as (_ & _ & _ & Hrun).
  specialize (Hrun _ _ _ 2 [1; 28; 28] eq_refl eq_refl ltac:(discriminate)).
  rewrite decide_True in Hrun by reflexivity.
  destruct Hrun as (ps & Hrun & Hshape). exists ps. split; [|exact Hshape].
  rewrite Hrun. vm_compute. reflexivity.
Defined.

(** * The data loader *)

Lemma batch_sampler_spec (bs : nat) :
  0 < bs →
  ∀ sampler batch, length batch < bs →
  let r := DataLoader.batch_sampler bs batch sampler in
  let total := length batch + length sampler in
  mjoin r = batch ++ sampler ∧
  length <$> r =
    replicate (total / bs) bs ++ (if decide (total mod bs = 0) then [] else [total mod bs]).
Proof.
  intros Hbs. induction sampler as [|idx sampler IH]; intros batch Hlen r total.
  - unfold r, total. simpl. rewrite Nat.add_0_r, app_nil_r.
    rewrite Nat.div_small, Nat.mod_small by done.
    case_decide as Hpos.
    + simpl. rewrite app_nil_r. split; [done|]. by rewrite decide_False by lia.
    + split; [by destruct batch; simpl in *; [|lia]|].
      rewrite decide_True by lia. done.
  - unfold r, total. cbn [DataLoader.batch_sampler]. cbv zeta.
    rewrite length_app. cbn [length].
    case_decide as Hfull.
    + destruct (IH [] Hbs) as [Hjoin Hsizes]. cbn [length] in Hsizes.
      rewrite Nat.add_0_l in Hsizes. split.
      * change (mjoin (?b :: ?l)) with (b ++ mjoin l).
        rewrite <-(assoc (++)). f_equal. simpl. f_equal. exact Hjoin.
      * rewrite fmap_cons.
        replace (length batch + S (length sampler)) with (1 * bs + length sampler) by lia.
        rewrite Nat.div_add_l by lia.
        replace (1 * bs + length sampler) with (length sampler + 1 * bs) by lia.
        rewrite Nat.Div0.mod_add. cbn [replicate Nat.add app].
        f_equal; [rewrite length_app; simpl; lia|exact Hsizes].
    + destruct (IH (batch ++ [idx])) as [Hjoin Hsizes];
        [rewrite length_app; simpl; lia|].
      rewrite length_app in Hsizes. cbn [length] in Hsizes. split.
      * rewrite Hjoin. by rewrite <-(assoc (++)).
      * replace (length batch + S (length sampler))
          with (length batch + 1 + length sampler) by lia.
        exact Hsizes.
Qed.

Lemma batch_sampler_nonempty (bs : nat) :
  ∀ sampler batch, Forall (λ b, b ≠ []) (DataLoader.batch_sampler bs batch sampler).
Proof.
  induction sampler as [|idx sampler IH]; intros batch.
  - simpl. case_decide as Hpos; [|done]. constructor; [|done].
    intros ->. simpl in Hpos. lia.
  - cbn [DataLoader.batch_sampler]. cbv zeta. case_decide; [|apply IH].
    constructor; [|apply IH]. by destruct batch.
Qed.

Lemma mapM_dataset_getitem (dataset : list DataLoader.Sample) (indices : list nat) :
  Forall (λ i, i < length dataset) indices →
  mapM (DataLoader.dataset_getitem dataset) indices =
  Ok ((λ i, default no_sample (dataset !! i)) <$> indices).
Proof.
  induction 1 as [|i indices Hi _ IH]; [done|].
  change (mapM (DataLoader.dataset_getitem dataset) (i :: indices)) with
    (y ← DataLoader.dataset_getitem dataset i;
     k ← mapM (DataLoader.dataset_getitem dataset) indices; mret (y :: k)).
  rewrite IH, fmap_cons. unfold DataLoader.dataset_getitem.
  destruct (lookup_lt_is_Some_2 dataset i Hi) as [x Hx]. rewrite Hx. done.
Qed.

Lemma stack_same_shape (ts : list Tensor) dims :
  ts ≠ [] → Forall (λ t, shape t = dims) ts →
  DataLoader.stack ts = Ok (mkTensor (length ts :: dims) (mjoin (data <$> ts))).
Proof.
  intros Hne Hall. destruct ts as [|t ts]; [done|].
  unfold DataLoader.stack.
  assert (shape t = dims) as Ht by by inversion Hall.
  rewrite decide_True; [by rewrite Ht|].
  eapply Forall_impl; [exact Hall|]. intros t' Ht'. simpl in Ht'. congruence.
Qed.

Lemma fetch_collated (dataset : list DataLoader.Sample) (indices : list nat) dims :
  indices ≠ [] →
  Forall (λ i, i < length dataset) indices →
  Forall (λ x, shape x.1 = dims) dataset →
  DataLoader.fetch dataset indices =
    Ok (DataLoader.collated dims ((λ i, default no_sample (dataset !! i)) <$> indices)).
Proof.
  intros Hne Hidx Hall. unfold DataLoader.fetch.
  rewrite (mapM_dataset_getitem _ _ Hidx). simpl.
  unfold DataLoader.default_collate.
  rewrite (stack_same_shape _ dims).
  - simpl. unfold DataLoader.collated. by rewrite !length_fmap.
  - by destruct indices.
  - apply Forall_fmap, Forall_fmap. eapply Forall_impl; [exact Hidx|].
    intros i Hi. simpl. destruct (lookup_lt_is_Some_2 dataset i Hi) as [x Hx].
    rewrite Hx. simpl. eapply (proj1 (Forall_forall _ _) Hall), list_elem_of_lookup_2, Hx.
Qed.

Lemma fetch_all (dataset : list DataLoader.Sample) dims (groups : list (list nat)) :
  Forall (λ x, shape x.1 = dims) dataset →
  Forall (λ g, g ≠ []) groups →
  Forall (λ i, i < length dataset) (mjoin groups) →
  DataLoader.fetch dataset <$> groups =
    (λ g, Ok (DataLoader.collated dims g))
      <$> (fmap (M := list) (λ i, default no_sample (dataset !! i)) <$> groups).
Proof.
  intros Hall. induction groups as [|g groups IH]; intros Hne Hidx; [done|].
  apply Forall_cons in Hne as [Hg Hne].
  simpl in Hidx. apply Forall_app in Hidx as [Hidx1 Hidx2].
  rewrite !fmap_cons, (IH Hne Hidx2), (fetch_collated dataset g dims Hg Hidx1 Hall).
  done.
Qed.

Lemma lookup_all {A} (d : A) (l : list A) :
  (λ i, default d (l !! i)) <$> seq 0 (length l) = l.
Proof.
  apply list_eq. intros i. rewrite list_lookup_fmap.
  destruct (decide (i < length l)) as [Hi|Hi].
  - rewrite lookup_seq_lt by done. simpl.
    destruct (lookup_lt_is_Some_2 l i Hi) as [x ->]. done.
  - rewrite lookup_seq_ge by lia. simpl. symmetry. apply lookup_ge_None. lia.
Qed.

Lemma join_fmap_fmap {A B} (f : A → B) (ls : list (list A)) :
  mjoin (fmap (M := list) f <$> ls) = f <$> mjoin ls.
Proof.
  induction ls as [|l ls IH]; [done|].
  rewrite fmap_cons.
  change (mjoin (?x :: ?l)) with (x ++ mjoin l).
  by rewrite fmap_app, IH.
Qed.

(** A pass over a loader: the samples in the order drawn, cut into groups
    that are collated one by one. *)
Lemma iter_collated (dataset : list DataLoader.Sample) (bs : nat) (order : list nat)
    (dims : list nat) :
  0 < bs →
  order ≡ₚ seq 0 (length dataset) →
  Forall (λ x, shape x.1 = dims) dataset →
  let n := length dataset in
  ∃ groups,
    DataLoader.iter (DataLoader.mkLoader dataset bs) order =
      (λ g, Ok (DataLoader.collated dims g)) <$> groups ∧
    mjoin groups = (λ i, default no_sample (dataset !! i)) <$> order ∧
    length <$> groups =
      replicate (n / bs) bs ++ (if decide (n mod bs = 0) then [] else [n mod bs]).
Proof.
  intros Hbs Hperm Hall n.
  destruct (batch_sampler_spec bs Hbs order [] Hbs) as [Hjoin Hsizes].
  simpl in Hjoin, Hsizes.
  assert (length order = n) as Hlen by (by rewrite Hperm, length_seq).
  rewrite Hlen in Hsizes.
  exists (fmap (M := list) (λ i, default no_sample (dataset !! i))
            <$> DataLoader.batch_sampler bs [] order).
  split_and!.
  - unfold DataLoader.iter. cbn [DataLoader.loader_dataset DataLoader.loader_batch_size].
    apply fetch_all; [exact Hall|apply batch_sampler_nonempty|].
    rewrite Hjoin, Hperm. apply Forall_forall. intros i Hi%elem_of_seq. lia.
  - by rewrite join_fmap_fmap, Hjoin.
  - rewrite <-Hsizes, <-list_fmap_compose. apply list_fmap_ext.
    intros ? g _. simpl. by rewrite length_fmap.
Qed.

(** X12.  Building a shuffled loader raises [ValueError] for an empty
    dataset and for a batch size of zero, and gives a loader otherwise.
    A pass over the loader of a dataset whose images all have one shape,
    with the indices in the order the sampler has drawn, raises nothing and
    yields every sample exactly once: the samples, taken in the order
    drawn, are cut into as many full groups of [batch_size] samples as fit,
    then one smaller group with the samples left over when there are some,
    and each group is yielded as one batch, its images stacked in this
    order along a new first dimension and its labels in the same order. *)
Theorem dataloader_batches (dataset : list DataLoader.Sample) (batch_size_ : nat)
    (order : list nat) (dims : list nat) :
  order ≡ₚ seq 0 (length dataset) →
  Forall (λ x, shape x.1 = dims) dataset →
  let n := length dataset in
  (dataset = [] ∨ batch_size_ = 0 → DataLoader.new dataset batch_size_ = Raise ValueError) ∧
  (dataset ≠ [] → 0 < batch_size_ →
   ∃ loader groups,
     DataLoader.new dataset batch_size_ = Ok loader ∧
     DataLoader.iter loader order = (λ g, Ok (DataLoader.collated dims g)) <$> groups ∧
     Forall2 (λ i x, dataset !! i = Some x) order (mjoin groups) ∧
     mjoin groups ≡ₚ dataset ∧
     length <$> groups =
       replicate (n / batch_size_) batch_size_
       ++ (if decide (n mod batch_size_ = 0) then [] else [n mod batch_size_]) ∧
     length groups = batches_of n batch_size_).
Proof.
  intros Hperm Hall n. split.
  - intros [->| ->]; [done|]. by destruct dataset.
  - intros Hne Hbs.
    destruct (iter_collated dataset batch_size_ order dims Hbs Hperm Hall)
      as (groups & Hiter & Hjoin & Hsizes).
    exists (DataLoader.mkLoader dataset batch_size_), groups. split_and!.
    + destruct dataset; [done|]. by destruct batch_size_; [lia|].
    + exact Hiter.
    + rewrite Hjoin. apply Forall2_fmap_r, Forall_Forall2_diag.
      apply Forall_forall. intros i Hi. rewrite Hperm in Hi.
      apply elem_of_seq in Hi.
      destruct (lookup_lt_is_Some_2 dataset i) as [x Hx]; [lia|]. simpl. by rewrite Hx.
    + rewrite Hjoin, Hperm. by rewrite lookup_all.
    + exact Hsizes.
    + rewrite <-(length_fmap length), Hsizes.
      rewrite length_app, length_replicate. unfold batches_of, n. case_decide; simpl; lia.
Qed.
Lemma dataloader_batches_witness :
  let dataset : list DataLoader.Sample :=
    (λ i : Z, (mkTensor [1; 2; 2] [i; i; i; i], (i `mod` 10)%Z)) <$> seqZ 0 130 in
  ∃ loader groups,
    DataLoader.new dataset 64 = Ok loader ∧
    DataLoader.iter loader (reverse (seq 0 130)) =
      (λ g, Ok (DataLoader.collated [1; 2; 2] g)) <$> groups ∧
    length <$> groups = [64; 64; 2] ∧
    mjoin groups ≡ₚ dataset.
Proof.
  intros dataset.
  destruct (dataloader_batches dataset 64 (reverse (seq 0 130)) [1; 2; 2])
    as [_ Hpass].
  - replace (length dataset) with 130 by (vm_compute; reflexivity).
    apply reverse_Permutation.
  - apply Forall_fmap, Forall_forall. intros i _. reflexivity.
  - destruct Hpass as (loader & groups & Hnew & Hiter & _ & Hperm & Hsizes & _).
    + discriminate.
    + lia.
    + exists loader, groups. split_and!; [exact Hnew | exact Hiter | | exact Hperm].
      rewrite Hsizes. vm_compute. reflexivity.
Defined.

Lemma fmap_Ok_inj {A} (l1 l2 : list A) :
  (Ok <$> l1 : list (result A)) = Ok <$> l2 → l1 = l2.
Proof.
  revert l2. induction l1 as [|x l1 IH]; intros [|y l2]; try done.
  intros [= -> Hrest]. f_equal. by apply IH.
Qed.

Lemma new_inv (dataset : list DataLoader.Sample) (bs : nat) loader :
  DataLoader.new dataset bs = Ok loader →
  dataset ≠ [] ∧ 0 < bs ∧ loader = DataLoader.mkLoader dataset bs.
Proof.
  destruct dataset as [|x dataset]; [done|]. destruct bs as [|bs]; [done|].
  intros [= <-]. split_and!; [done|lia|done].
Qed.

(** What a pass over the loader yields, for the training loop. *)
Lemma iter_batches (dataset : list DataLoader.Sample) (bs : nat) (order : list nat)
    (dims : list nat) loader (batches : list Batch) :
  DataLoader.new dataset bs = Ok loader →
  order ≡ₚ seq 0 (length dataset) →
  Forall (λ x, shape x.1 = dims) dataset →
  DataLoader.iter loader order = Ok <$> batches →
  length batches = batches_of (length dataset) bs ∧ Forall batch_ok batches.
Proof.
  intros (Hne & Hbs & ->)%new_inv Hperm Hall Hiter.
  destruct (iter_collated dataset bs order dims Hbs Hperm Hall)
    as (groups & Hgroups & _ & Hsizes).
  rewrite Hiter in Hgroups.
  rewrite (list_fmap_compose (DataLoader.collated dims) Ok) in Hgroups.
  apply fmap_Ok_inj in Hgroups. subst batches. split.
  - rewrite length_fmap, <-(length_fmap length), Hsizes.
    rewrite length_app, length_replicate. unfold batches_of. case_decide; simpl; lia.
  - apply Forall_fmap, Forall_forall. intros g _. by exists (length g), dims.
Qed.

Lemma iter_exists (dataset : list DataLoader.Sample) (bs : nat) (order : list nat)
    (dims : list nat) loader :
  DataLoader.new dataset bs = Ok loader →
  order ≡ₚ seq 0 (length dataset) →
  Forall (λ x, shape x.1 = dims) dataset →
  ∃ batches, DataLoader.iter loader order = Ok <$> batches.
Proof.
  intros (Hne & Hbs & ->)%new_inv Hperm Hall.
  destruct (iter_collated dataset bs order dims Hbs Hperm Hall)
    as (groups & Hgroups & _).
  exists (DataLoader.collated dims <$> groups).
  by rewrite Hgroups, (list_fmap_compose (DataLoader.collated dims) Ok).
Qed.

(** The labels of the batches of a pass are labels of the dataset. *)
Lemma labels_of_pass (dataset : list DataLoader.Sample) (order : list nat)
    (dims : list nat) loader (batches : list Batch) :
  DataLoader.new dataset 64 = Ok loader →
  order ≡ₚ seq 0 (length dataset) →
  Forall (λ x, shape x.1 = dims) dataset →
  Forall (λ x, (0 ≤ x.2 < 10)%Z) dataset →
  DataLoader.iter loader order = Ok <$> batches →
  Forall (λ b, class_indices b.2) batches.
Proof.
  intros (Hne & Hbs & ->)%new_inv Hperm Hall Hlabels Hiter.
  destruct (iter_collated dataset 64 order dims Hbs Hperm Hall)
    as (groups & Hgroups & Hjoin & _).
  rewrite Hiter in Hgroups.
  rewrite (list_fmap_compose (DataLoader.collated dims) Ok) in Hgroups.
  apply fmap_Ok_inj in Hgroups. subst batches.
  assert (Forall (λ x : DataLoader.Sample, (0 ≤ x.2 < 10)%Z) (mjoin groups)) as Hall'.
  { rewrite Hjoin. apply Forall_fmap, Forall_forall. intros i Hi. simpl.
    rewrite Hperm in Hi. apply elem_of_seq in Hi.
    destruct (lookup_lt_is_Some_2 dataset i) as [x Hx]; [lia|]. rewrite Hx. simpl.
    eapply (proj1 (Forall_forall _ _) Hlabels), list_elem_of_lookup_2, Hx. }
  apply Forall_fmap, Forall_forall. intros g Hg.
  unfold class_indices, DataLoader.collated. simpl.
  apply Forall_fmap, Forall_forall. intros x Hx.
  apply (proj1 (Forall_forall _ _) Hall'). apply list_elem_of_join. by exists g.
Qed.

Lemma steps_before_const {A} (trainloader : nat → list A) (n epochs : nat) :
  (∀ e, length (trainloader e) = n) → steps_before trainloader epochs = epochs * n.
Proof.
  intros Hlen. unfold steps_before.
  assert (∀ start, sum_list ((λ e', length (trainloader e')) <$> seq start epochs)
                   = epochs * n) as H; [|apply H].
  induction epochs as [|k IH]; intros start; [done|].
  simpl. rewrite IH, Hlen. lia.
Qed.

Section TrainingOnLoader.
Context {State : Type}.
Variable forward_values : State → Tensor → list Z.
Variable loss_value : Tensor → Tensor → Q.
Variable zero_grad_state : State → State.
Variable backward_state : State → Loss → State.
Variable step_state : State → State.
Variable uninit : nat → Z.

(** X13.  Run on the batches that a loader yields, in batches of 64 and
    in whatever order the sampler draws for each epoch, for a dataset that
    is not empty, whose images all have one shape and whose labels are
    class indices from 0 to 9, the training cell ends without an error:
    also the smaller last batch of an epoch goes through.  It takes three
    times as many steps as a pass has batches, computes as many losses,
    and prints one line every 40 steps; for the 60000 images of the
    training set that makes 938 batches an epoch, 2814 steps and the 70
    lines of the notebook. *)
Theorem training_cell_on_loader (dataset : list DataLoader.Sample)
    (loader : DataLoader.Loader)
    (order : nat → list nat) (dims : list nat) (trainloader : nat → list Batch)
    (s : State) :
  DataLoader.new dataset 64 = Ok loader →
  Forall (λ x, shape x.1 = dims ∧ (0 ≤ x.2 < 10)%Z) dataset →
  (∀ e, order e ≡ₚ seq 0 (length dataset)) →
  (∀ e, DataLoader.iter loader (order e) = Ok <$> trainloader e) →
  let batches := batches_of (length dataset) 64 in
  let run := Part3.training_cell forward_values loss_value zero_grad_state
               backward_state step_state uninit trainloader s in
  (∀ e, Forall (λ b, class_indices b.2) (trainloader e)) ∧
  run.2 = Ok (3 * batches) ∧
  length (omap loss_of run.1.2) = 3 * batches ∧
  length (omap printed_of run.1.2) = 3 * batches / 40 ∧
  (length dataset = Z.to_nat 60000 →
   run.2 = Ok 2814 ∧ length (omap printed_of run.1.2) = 70).
Proof.
  intros Hnew Hds Horder Hiter batches run.
  assert (Forall (λ x : DataLoader.Sample, shape x.1 = dims) dataset) as Hall.
  { eapply Forall_impl; [exact Hds|]. by intros x [? _]. }
  assert (∀ e, length (trainloader e) = batches ∧ Forall batch_ok (trainloader e)) as Hb.
  { intros e. by apply (iter_batches dataset 64 (order e) dims loader). }
  assert (steps_before trainloader 3 = 3 * batches) as Hsteps.
  { apply steps_before_const. intros e. apply Hb. }
  destruct (training_loop_ok forward_values loss_value zero_grad_state backward_state
              step_state uninit 3 40 trainloader s ltac:(done) (λ e, proj2 (Hb e)))
    as (s' & data & Hlen & Hsum & Hrun).
  assert (run.2 = Ok (3 * batches)
          ∧ length (omap loss_of run.1.2) = 3 * batches
          ∧ length (omap printed_of run.1.2) = 3 * batches / 40) as (H1 & H2 & H3).
  { unfold run, Part3.training_cell. rewrite Hrun. cbn [fst snd].
    rewrite losses_loop_log by (by rewrite length_seq).
    rewrite prints_loop_log by (done || by rewrite length_seq).
    rewrite Hsum, Hsteps. split_and!; [done|done|].
    rewrite Nat.add_0_l. change (0 / 40) with 0. lia. }
  split_and!; [|done|done|done|].
  - intros e. apply (labels_of_pass dataset (order e) dims loader); try done.
    eapply Forall_impl; [exact Hds|]. by intros x [_ ?].
  - intros Hn. rewrite H1, H3. unfold batches. rewrite Hn. by vm_compute.
Qed.

End TrainingOnLoader.

Lemma training_cell_on_loader_witness :
  let dataset : list DataLoader.Sample :=
    (λ i : Z, (mkTensor [1; 2; 2] [i; i; i; i], (i `mod` 10)%Z)) <$> seqZ 0 130 in
  ∃ loader (trainloader : nat → list Batch),
    DataLoader.new dataset 64 = Ok loader ∧
    (∀ e, DataLoader.iter loader (reverse (seq 0 130)) = Ok <$> trainloader e) ∧
    (Part3.training_cell demo_forward demo_loss id demo_backward id demo_uninit
       trainloader ()).2 = Ok 9.
Proof.
  intros dataset.
  assert (reverse (seq 0 130) ≡ₚ seq 0 (length dataset)) as Hperm.
  { replace (length dataset) with 130 by (vm_compute; reflexivity).
    apply reverse_Permutation. }
  assert (Forall (λ x : DataLoader.Sample, shape x.1 = [1; 2; 2] ∧ (0 ≤ x.2 < 10)%Z)
            dataset) as Hds.
  { apply Forall_fmap, Forall_forall. intros i _. simpl. split; [reflexivity|].
    apply Z.mod_pos_bound. lia. }
  destruct (iter_exists dataset 64 (reverse (seq 0 130)) [1; 2; 2]
              (DataLoader.mkLoader dataset 64))
    as (batches & Hbatches).
  { reflexivity. }
  { exact Hperm. }
  { eapply Forall_impl; [exact Hds|]. by intros x [? _]. }
  exists (DataLoader.mkLoader dataset 64), (λ _, batches).
  split; [reflexivity|]. split; [done|].
  apply (training_cell_on_loader demo_forward demo_loss id demo_backward id demo_uninit
           dataset (DataLoader.mkLoader dataset 64) (λ _, reverse (seq 0 130))
           [1; 2; 2] (λ _, batches) ()).
  - reflexivity.
  - exact Hds.
  - intros e. exact Hperm.
  - intros e. exact Hbatches.
Defined.

(** * The optimizer *)

Lemma zip_with_Qplus_zeros (acc g : list Q) :
  length acc = length g →
  Forall2 Qeq (zip_with Qplus ((λ _, 0%Q) <$> acc) g) g.
Proof.
  revert g. induction acc as [|a acc IH]; intros [|x g] Hlen; try done.
  simpl. constructor; [ring|]. apply IH. by injection Hlen.
Qed.

Lemma zip_with_step_proper (lr : Q) (ps g g' : list Q) :
  Forall2 Qeq g g' →
  Forall2 Qeq (zip_with (λ p d, p + - lr * d)%Q ps g)
              (zip_with (λ p d, p + - lr * d)%Q ps g').
Proof.
  intros Hg. revert ps. induction Hg as [|d d' g g' Hd _ IH]; intros [|p ps]; try done.
  simpl. constructor; [by rewrite Hd|]. apply IH.
Qed.

Lemma Forall2_Qeq_refl (l : list Q) : Forall2 Qeq l l.
Proof. induction l; constructor; [reflexivity|done]. Qed.



(** * The cells on automatic differentiation *)

Lemma zip_with_replicate {A B C} (f : A → B → C) (c : A) (l : list B) :
  zip_with f (replicate (length l) c) l = f c <$> l.
Proof. induction l as [|x l IH]; [done|]. simpl. by rewrite IH. Qed.

Lemma Forall2_Qeq_fmap (f h : Q → Q) (l : list Q) :
  (∀ v, f v == h v)%Q → Forall2 Qeq (f <$> l) (h <$> l).
Proof. intros Hfh. induction l; constructor; [apply Hfh|done]. Qed.

(** X16.  For a tensor [x] that requires a gradient and was not made by
    an operation, the cells compute [y = x ** 2] and [z = y.mean()]: [y]
    records a power as the operation that made it and [z] a mean.  The
    backward pass from [z] is accepted, [z] having one element, and stores
    in [x.grad], for each element of [x], twice the element over the
    number of elements.  For the four elements of the notebook's [x] that
    is the element halved: [x.grad] and [x / 2] hold the same numbers, as
    the notebook prints. *)
Theorem autograd_mean_of_squares (x : Autograd.Var) :
  Autograd.requires_grad x = true → Autograd.grad_fn x = None →
  Autograd.var_data x ≠ [] →
  let y := Autograd.pow x 2 in
  let z := Autograd.mean y in
  let n := length (Autograd.var_data x) in
  Autograd.grad_fn y = Some (Autograd.PowBackward0 x 2) ∧
  Autograd.grad_fn z = Some (Autograd.MeanBackward0 y) ∧
  ∃ grad,
    Autograd.backward z = Autograd.Stored grad ∧
    Forall2 Qeq grad
      ((λ v, 2 * v / inject_Z (Z.of_nat n))%Q <$> Autograd.var_data x) ∧
    (n = 4 → Forall2 Qeq grad (Autograd.var_data (Autograd.div x 2))).
Proof.
  destruct x as [s d r f]. simpl. intros -> -> Hd.
  split; [done|]. split; [done|].
  unfold Autograd.backward. simpl.
  eexists. split; [reflexivity|].
  rewrite length_fmap, zip_with_replicate.
  assert (¬ inject_Z (Z.of_nat (length d)) == 0)%Q as Hn.
  { destruct d; [done|]. unfold Qeq. simpl. lia. }
  split.
  - apply Forall2_Qeq_fmap. intros v. simpl. field. exact Hn.
  - intros H4. rewrite H4. apply Forall2_Qeq_fmap. intros v. simpl. field.
Qed.

Lemma autograd_mean_of_squares_witness :
  ∃ grad,
    Autograd.backward (Autograd.mean (Autograd.pow (Autograd.randn_2_2 1 2 3 4) 2))
      = Autograd.Stored grad ∧
    Forall2 Qeq grad [1 # 2; 1; 3 # 2; 2]%Q.
Proof.
  destruct (autograd_mean_of_squares (Autograd.randn_2_2 1 2 3 4))
    as (_ & _ & grad & Hrun & _ & Hhalf).
  - reflexivity.
  - reflexivity.
  - discriminate.
  - exists grad. split; [exact Hrun|].
    specialize (Hhalf eq_refl).
    inversion Hhalf as [|p1 q1 ps1 qs1 H1 R1]; subst.
    inversion R1 as [|p2 q2 ps2 qs2 H2 R2]; subst.
    inversion R2 as [|p3 q3 ps3 qs3 H3 R3]; subst.
    inversion R3 as [|p4 q4 ps4 qs4 H4 R4]; subst.
    inversion R4; subst.
    repeat constructor; [by rewrite H1|by rewrite H2|by rewrite H3|by rewrite H4].
Defined.

(** * The lists of the loading error *)

Lemma size_mismatches_sublist sd (l : StateDict) :
  (λ e, e.1.1) <$> omap (size_mismatch_of sd) l `sublist_of` keys l.
Proof.
  induction l as [|[k p] l IH]; [done|].
  unfold keys. rewrite fmap_cons. cbn [omap list_omap].
  unfold size_mismatch_of at 1. cbn [fst snd].
  destruct (odict_get k sd) as [t|]; [|by apply sublist_cons].
  case_decide; [by apply sublist_cons|].
  rewrite fmap_cons. by apply sublist_skip.
Qed.

(** X17.  The lists of size mismatches and of missing keys that the
    error of a load carries follow the order of the parameters of the
    model, and no name occurs twice in either.  Every parameter of the
    model is in exactly one of three cases: it is reported missing, or it
    is reported with a size mismatch, and has then kept its value; or it is
    in neither list and holds the tensor that the dict records under its
    name. *)
Theorem load_state_dict_error_lists (m : Network) (sd : StateDict) :
  let mismatched := (λ e, e.1.1) <$> size_mismatches m sd in
  let m' := (load_state_dict m sd).1 in
  mismatched `sublist_of` keys (state_dict m) ∧
  missing_keys m sd `sublist_of` keys (state_dict m) ∧
  NoDup mismatched ∧ NoDup (missing_keys m sd) ∧
  (∀ key, key ∈ missing_keys m sd → key ∉ mismatched) ∧
  (∀ key, key ∈ keys (state_dict m) →
     (key ∈ missing_keys m sd ∧
      odict_get key (state_dict m') = odict_get key (state_dict m)) ∨
     (key ∈ mismatched ∧
      odict_get key (state_dict m') = odict_get key (state_dict m)) ∨
     ((key ∉ missing_keys m sd) ∧ (key ∉ mismatched) ∧
      odict_get key (state_dict m') = odict_get key sd)).
Proof.
  intros mismatched m'.
  assert (mismatched `sublist_of` keys (state_dict m)) as Hsub
    by apply size_mismatches_sublist.
  assert (missing_keys m sd `sublist_of` keys (state_dict m)) as Hmissing
    by apply sublist_filter.
  assert (∀ key, key ∈ missing_keys m sd → key ∉ mismatched) as Hdisjoint.
  { intros key [Hnone _]%list_elem_of_filter Hin.
    apply list_elem_of_fmap in Hin as ([[k s1] s2] & -> & Hin).
    apply elem_of_size_mismatches in Hin as (Hsd & _). simpl in Hnone.
    by rewrite Hnone in Hsd. }
  split_and!.
  - exact Hsub.
  - exact Hmissing.
  - eapply sublist_NoDup; [|exact Hsub]. apply NoDup_keys_state_dict.
  - eapply sublist_NoDup; [|exact Hmissing]. apply NoDup_keys_state_dict.
  - exact Hdisjoint.
  - intros key Hkey.
    pose proof Hkey as Hkey'.
    apply list_elem_of_fmap in Hkey' as ([k p] & Hk & Hin). simpl in Hk. subst k.
    assert (odict_get key (state_dict m) = Some p) as Hp.
    { apply odict_get_NoDup; [apply NoDup_keys_state_dict|done]. }
    unfold m'. rewrite (odict_get_load m sd key p Hin), Hp. unfold load_param.
    destruct (odict_get key sd) as [t|] eqn:Hsd.
    + case_decide as Hshape.
      * right. right. split_and!; [| |done].
        -- intros [Hnone _]%list_elem_of_filter. simpl in Hnone. congruence.
        -- intros ([[k s1] s2] & -> & Hmis)%list_elem_of_fmap.
           apply elem_of_size_mismatches in Hmis as (H1 & H2 & Hne). simpl in *.
           rewrite Hsd in H1. rewrite Hp in H2. simpl in *. congruence.
      * right. left. split; [|done].
        apply list_elem_of_fmap. exists (key, shape t, shape p). split; [done|].
        apply elem_of_size_mismatches. rewrite Hsd, Hp. done.
    + left. split; [|done]. apply list_elem_of_filter. done.
Qed.

Lemma load_state_dict_error_lists_witness :
  let model := Network_init zeros 784 10 [4; 2; 1] in
  let sd := state_dict (Network_init ones 784 10 [5; 4]) in
  "hidden_layers.2.weight" ∈ missing_keys model sd ∧
  ("hidden_layers.2.weight" ∉ (λ e, e.1.1) <$> size_mismatches model sd).
Proof.
  intros model sd.
  assert ("hidden_layers.2.weight" ∈ missing_keys model sd) as Hmissing.
  { apply list_elem_of_filter. split.
    - vm_compute. reflexivity.
    - apply (proj2 (hidden_key_in_state_dict model 2)). vm_compute. lia. }
  split; [exact Hmissing|].
  destruct (load_state_dict_error_lists model sd) as (_ & _ & _ & _ & Hdisjoint & _).
  apply Hdisjoint, Hmissing.
Defined.

(** * The shapes the classifier takes *)

Lemma last_snoc_shape (lead : list nat) (d : nat) : last (lead ++ [d]) = Some d.
Proof. apply last_snoc. Qed.

Lemma layer_forward_linear_snoc n_in n_out (lead : list nat) (d : nat) :
  layer_forward (LLinear n_in n_out) (lead ++ [d]) =
  if decide (d = n_in) then Ok (lead ++ [n_out]) else Raise (FeatureMismatch d n_in).
Proof.
  unfold layer_forward. rewrite last_snoc_shape.
  case_decide; [|done]. by rewrite removelast_last.
Qed.

(** X19.  The forward pass of the classifier of the training notebook
    works on the last dimension of its input: an input whose last dimension
    is 784 gives scores with the same leading dimensions and a last
    dimension of 10, whatever the number of leading dimensions; an input
    with another last dimension is refused by the first linear layer, and
    so is a tensor without dimensions.  A batch of images left as
    64 x 1 x 28 x 28 is therefore refused: the images have to be flattened
    first.  A refused forward pass is not logged and leaves the state as it
    is. *)
Theorem sequential_model_shapes {State : Type}
    (forward_values : State → Tensor → list Z) (images : Tensor) (s : State) :
  (∀ lead, forward_shape Part3.model.*2 (lead ++ [784]) = Ok (lead ++ [10])) ∧
  (∀ lead d, d ≠ 784 →
     forward_shape Part3.model.*2 (lead ++ [d]) = Raise (FeatureMismatch d 784)) ∧
  forward_shape Part3.model.*2 [] = Raise ShapeError ∧
  (∀ lead d, shape images = lead ++ [d] → d ≠ 784 →
     model_forward forward_values Part3.model.*2 images s
     = (s, [], Raise (FeatureMismatch d 784))).
Proof.
  assert (∀ lead d, d ≠ 784 →
            forward_shape Part3.model.*2 (lead ++ [d]) = Raise (FeatureMismatch d 784))
    as Hbad.
  { intros lead d Hd.
    change (forward_shape Part3.model.*2 (lead ++ [d])) with
      (s' ← layer_forward (LLinear 784 128) (lead ++ [d]);
       forward_shape (tail Part3.model.*2) s').
    rewrite layer_forward_linear_snoc. by rewrite decide_False. }
  split_and!.
  - intros lead.
    change (forward_shape Part3.model.*2 (lead ++ [784])) with
      (s1 ← layer_forward (LLinear 784 128) (lead ++ [784]);
       s2 ← layer_forward (LLinear 128 64) s1;
       s3 ← layer_forward (LLinear 64 10) s2;
       Ok s3).
    rewrite layer_forward_linear_snoc, decide_True by done.
    cbn [mbind result_bind].
    rewrite layer_forward_linear_snoc, decide_True by done.
    cbn [mbind result_bind].
    by rewrite layer_forward_linear_snoc, decide_True.
  - exact Hbad.
  - reflexivity.
  - intros lead d Hshape Hd. unfold model_forward. rewrite Hshape.
    by rewrite (Hbad lead d Hd).
Qed.

Lemma sequential_model_shapes_witness :
  model_forward demo_forward Part3.model.*2 (demo_batch 64 [1; 28; 28]).1 ()
  = ((), [], Raise (FeatureMismatch 28 784)).
Proof.
  destruct (sequential_model_shapes demo_forward (demo_batch 64 [1; 28; 28]).1 ())
    as (_ & _ & _ & Hrefused).
  apply (Hrefused [64; 1; 28] 28); [reflexivity|discriminate].
Defined.
